(** * The Synapsys verifier: verification pipeline

    A shallow embedding of the TypeScript sources of the OpenID4VP
    verifier (session service, presentation matcher, trust resolver,
    credential validators, audit logger) and the properties of its
    specification, stated and proved over that embedding.

    Conventions of the embedding.
    - A JavaScript value of type [any]/[unknown] is a [Js.Value]; numbers
      are integers ([Z], the same numbers as the doubles of the source
      up to 2^53), [NaN] is the absence of a number ([None]).
    - Strings are Rocq strings, one character per code unit below 256.
    - A [Date] is its time value in milliseconds ([Z]); an invalid date
      is [None].
    - [await] is sequencing.  A call into a library outside the
      repository (jose, @sd-jwt/decode, the DID network resolvers, the
      engine's date parser and printer) is a field of the records
      [Engine] and [Services].
    - Every read of the clock is an explicit argument of the function
      that reads it.
    - An exception is a [Js.Thrown]; a computation that may throw
      returns a [Js.Completion].
    - The PostgreSQL tables are lists of rows in storage order; one SQL
      statement is one atomic step on the table.
    - Calls to the logger are left out, except in [verifyMSO], where
      the specification asks what reaches the caller and what the log. *)

From stdpp Require Import gmap strings list.
From Stdlib Require Import ZArith Ascii DecimalString DecimalPos Lia.

Open Scope Z_scope.
Set Warnings "-register-all".

(* ================================================================== *)
(** * JavaScript values and the primitives the sources use            *)
(* ================================================================== *)

Module Js.

Inductive Value : Type :=
| Undefined
| Null
| Bool (b : bool)
| Num (n : Z)
| Str (s : string)
| Arr (items : list Value)
| Obj (props : list (string * Value)).

(** What a [throw] carries: an [Error] with its message, or any other
    value ([error instanceof Error ? error.message : 'Unknown error']). *)
Inductive Thrown : Type :=
| ErrorObject (message : string)
| NonError.

Inductive Completion (A : Type) : Type :=
| Normal (a : A)
| Throw (t : Thrown).
Arguments Normal {A} a.
Arguments Throw {A} t.

Definition bind {A B} (c : Completion A) (k : A -> Completion B) : Completion B :=
  match c with
  | Normal a => k a
  | Throw t => Throw t
  end.

(** [error instanceof Error ? error.message : fallback] *)
Definition messageOr (fallback : string) (t : Thrown) : string :=
  match t with
  | ErrorObject m => m
  | NonError => fallback
  end.

(** ToBoolean. *)
Definition truthy (v : Value) : bool :=
  match v with
  | Undefined | Null => false
  | Bool b => b
  | Num n => negb (n =? 0)
  | Str s => negb (String.eqb s EmptyString)
  | Arr _ | Obj _ => true
  end.

(** [a || b] on values. *)
Definition or (a b : Value) : Value := if truthy a then a else b.

(** [v === true] *)
Definition isTrue (v : Value) : bool :=
  match v with
  | Bool true => true
  | _ => false
  end.

Fixpoint assoc (key : string) (props : list (string * Value)) : Value :=
  match props with
  | [] => Undefined
  | (k, v) :: rest => if String.eqb k key then v else assoc key rest
  end.

(** [v?.key]: the property of an object, [undefined] on anything
    else.  The keys the sources read are never array indices nor
    [length], so they are absent from arrays, strings, numbers and
    booleans. *)
Definition getOpt (v : Value) (key : string) : Value :=
  match v with
  | Obj props => assoc key props
  | _ => Undefined
  end.

(** [v.key]: as [v?.key], but a TypeError on [undefined] and [null]. *)
Definition get (v : Value) (key : string) : Completion Value :=
  match v with
  | Undefined | Null =>
      Throw (ErrorObject "Cannot read properties of undefined or null")
  | _ => Normal (getOpt v key)
  end.

(** [key in v] for an object [v]. *)
Definition hasKey (key : string) (props : list (string * Value)) : bool :=
  existsb (fun kv => String.eqb (fst kv) key) props.

(** The values whose conversion to a string or a number raises a
    TypeError.  The values the sources handle come out of [JSON.parse]
    (token payloads, disclosed claims): a property [toString] of such
    an object is never a function, and it hides the method of
    [Object.prototype], so that [v.toString()] is not callable and
    ToPrimitive finds no primitive ([valueOf] returns the object
    itself).  An array is printed through its elements, [undefined]
    and [null] excepted. *)
Fixpoint unprintable (v : Value) : bool :=
  match v with
  | Obj props => hasKey "toString" props
  | Arr items => existsb unprintable items
  | _ => false
  end.

(** The TypeError of a method call on a property that is no function,
    and the one of ToPrimitive (the wording is V8's). *)
Definition notCallable (expression : string) : Thrown :=
  ErrorObject (expression +:+ " is not a function").

Definition noPrimitive : Thrown :=
  ErrorObject "Cannot convert object to primitive value".

(** A property that a type declares optional, as the code tells the
    cases apart: absent from the object ([key in v] is false), present
    with a falsy value ([undefined], [null]), or present with its
    value. *)
Inductive Property (A : Type) : Type :=
| Absent
| Falsy
| Present (a : A).
Arguments Absent {A}.
Arguments Falsy {A}.
Arguments Present {A} a.

(** [v.key] when it is truthy. *)
Definition present {A} (p : Property A) : option A :=
  match p with
  | Present a => Some a
  | _ => None
  end.

(** Decimal rendering of an integer, as a template literal prints it
    (exact below 10^21 in absolute value). *)
Definition showZ (n : Z) : string := NilZero.string_of_int (Z.to_int n).

Definition indexKeys (n : nat) : list string :=
  map (fun i => showZ (Z.of_nat i)) (seq 0 n).

(** [Object.keys(v)] for a value that is neither [undefined] nor
    [null]: the property names of an object in enumeration order, the
    indices of an array or a string, nothing for a number or boolean. *)
Definition keys (v : Value) : list string :=
  match v with
  | Obj props => map fst props
  | Arr items => indexKeys (length items)
  | Str s => indexKeys (String.length s)
  | _ => []
  end.

Definition isDigit (c : ascii) : bool :=
  let n := nat_of_ascii c in (48 <=? n)%nat && (n <=? 57)%nat.

Definition digitValue (c : ascii) : Z := Z.of_nat (nat_of_ascii c) - 48.

(** The longest prefix of decimal digits, and what follows it. *)
Fixpoint takeDigits (s : string) : string * string :=
  match s with
  | EmptyString => (EmptyString, EmptyString)
  | String c rest =>
      if isDigit c
      then let '(ds, tl) := takeDigits rest in (String c ds, tl)
      else (EmptyString, s)
  end.

Fixpoint digitsValueFrom (acc : Z) (ds : string) : Z :=
  match ds with
  | EmptyString => acc
  | String c rest => digitsValueFrom (10 * acc + digitValue c) rest
  end.

Definition digitsValue (ds : string) : Z := digitsValueFrom 0 ds.

(** White space that [parseInt] skips, among the code units below 256. *)
Definition isWhiteSpace (c : ascii) : bool :=
  let n := nat_of_ascii c in
  ((9 <=? n)%nat && (n <=? 13)%nat) || (n =? 32)%nat || (n =? 160)%nat.

Fixpoint skipWhiteSpace (s : string) : string :=
  match s with
  | EmptyString => EmptyString
  | String c rest => if isWhiteSpace c then skipWhiteSpace rest else s
  end.

(** [parseInt(s, 10)]; [None] is [NaN]. *)
Definition parseInt (s : string) : option Z :=
  let s1 := skipWhiteSpace s in
  let '(negative, s2) :=
    match s1 with
    | String "-"%char r => (true, r)
    | String "+"%char r => (false, r)
    | _ => (false, s1)
    end in
  let ds := fst (takeDigits s2) in
  match ds with
  | EmptyString => None
  | _ => Some (if negative then - digitsValue ds else digitsValue ds)
  end.

(** [s.substring(n)] *)
Fixpoint dropString (n : nat) (s : string) : string :=
  match n, s with
  | O, _ => s
  | S n', String _ rest => dropString n' rest
  | S _, EmptyString => EmptyString
  end.

(** [s.split(sep)] for a separator of one character. *)
Fixpoint splitOn (sep : ascii) (s : string) : list string :=
  match s with
  | EmptyString => [EmptyString]
  | String c rest =>
      if Ascii.eqb c sep
      then EmptyString :: splitOn sep rest
      else match splitOn sep rest with
           | x :: xs => String c x :: xs
           | [] => [String c EmptyString]
           end
  end.

(** [s] between double quotes. *)
Definition quoted (s : string) : string :=
  String (ascii_of_nat 34) (s +:+ String (ascii_of_nat 34) EmptyString).

(** [xs.includes(s)] for a string [s]. *)
Definition includesStr (xs : list Value) (s : string) : bool :=
  existsb (fun v => match v with
                    | Str x => String.eqb x s
                    | _ => false
                    end) xs.

(** [o || fallback] for an optional string. *)
Definition strOr (o : option string) (fallback : string) : string :=
  match o with
  | Some x => if String.eqb x EmptyString then fallback else x
  | None => fallback
  end.

(** [xs.join(sep)] *)
Fixpoint join (sep : string) (xs : list string) : string :=
  match xs with
  | [] => EmptyString
  | [x] => x
  | x :: rest => x +:+ sep +:+ join sep rest
  end.

(** 2^53: every integer up to it is a double, and is the number that
    [parseInt] returns for its numeral. *)
Definition maxExact : Z := 9007199254740992.

(** The largest time value of a [Date] (TimeClip). *)
Definition maxTime : Z := 8640000000000000.

(** [new Date(ms)] for a number; [None] is an invalid date. *)
Definition timeClip (ms : option Z) : option Z :=
  match ms with
  | Some t => if Z.abs t <=? maxTime then Some t else None
  | None => None
  end.

(** [a < b] and [a > b] on dates; false as soon as one is invalid. *)
Definition dateLt (a b : option Z) : bool :=
  match a, b with
  | Some x, Some y => x <? y
  | _, _ => false
  end.

Definition dateGt (a b : option Z) : bool := dateLt b a.

End Js.

Notation "'let!' x ':=' c 'in' k" := (Js.bind c (fun x => k))
  (at level 10, x name, c at level 100, k at level 200).

(* ================================================================== *)
(** * lib/presentationDefinition.ts                                   *)
(* ================================================================== *)

Module PresentationDefinition.

Record Field := {
  path : list string;
  filter : option Js.Value;
  fieldPurpose : option string;
  predicate : option string;
  optional : option bool
}.

Record Constraints := {
  fields : option (list Field);
  limit_disclosure : option string
}.

Record InputDescriptor := {
  id : string;
  name : option string;
  purpose : option string;
  format : option Js.Value;
  constraints : Constraints
}.

Record PresentationDefinition := {
  pdId : string;
  pdName : option string;
  pdPurpose : option string;
  pdFormat : option Js.Value;
  input_descriptors : list InputDescriptor;
  submission_requirements : option (list Js.Value)
}.

Record NestedPath := {
  nestedId : string;
  nestedFormat : string;
  nestedPath : string
}.

Record DescriptorMapEntry := {
  mapId : string;
  mapFormat : string;
  mapPath : string;
  path_nested : option NestedPath
}.

Record PresentationSubmission := {
  psId : string;
  definition_id : string;
  descriptor_map : list DescriptorMapEntry
}.

(** The credentials of a presentation are whatever the decoded token
    carries (JWT strings or JSON objects): values. *)
Record VerifiablePresentation := {
  context : Js.Value;
  vpType : Js.Value;
  verifiable_credential : option (list Js.Value);
  verifiableCredential : option (list Js.Value);
  holder : option string;
  proof : option Js.Value;
  presentation_submission : option PresentationSubmission
}.

Record Evaluation := {
  valid : bool;
  errors : option (list string);
  matchedDescriptors : option (list string)
}.

(** The first match of [/\[(\d+)\]/] in [s]: the captured digits.  At
    a bracket the greedy digit run either is followed by a closing
    bracket or the attempt fails and the search resumes one character
    further. *)
Fixpoint matchBracketIndex (s : string) : option string :=
  match s with
  | EmptyString => None
  | String c rest =>
      if Ascii.eqb c "["%char
      then
        match Js.takeDigits rest with
        | (String d ds, String "]"%char _) => Some (String d ds)
        | _ => matchBracketIndex rest
        end
      else matchBracketIndex rest
  end.

(** [extractIndexFromPath]: the index, or -1 without a match.  The
    index is the integer the digits write.  [parseInt] returns that
    integer as a double: the same number up to [Js.maxExact], and for
    a longer run of digits a double that is not below [Js.maxExact];
    both are beyond the end of every array. *)
Definition extractIndexFromPath (p : string) : Z :=
  match matchBracketIndex p with
  | Some ds => Js.digitsValue ds
  | None => -1
  end.

(** [f.optional] as a condition. *)
Definition isOptional (f : Field) : bool :=
  match optional f with
  | Some b => b
  | None => false
  end.

(** [descriptor.constraints.fields?.some((f) => f.optional)] as a
    condition ([undefined] is falsy). *)
Definition someOptional (d : InputDescriptor) : bool :=
  match fields (constraints d) with
  | Some fs => existsb isOptional fs
  | None => false
  end.

(** [d.constraints.fields?.every((f) => f.optional)] as a condition. *)
Definition everyOptional (d : InputDescriptor) : bool :=
  match fields (constraints d) with
  | Some fs => forallb isOptional fs
  | None => false
  end.

(** [submission.descriptor_map.find((m) => m.id === descriptor.id)] *)
Definition findMapping (s : PresentationSubmission) (d : InputDescriptor)
  : option DescriptorMapEntry :=
  find (fun m => String.eqb (mapId m) (id d)) (descriptor_map s).

(** [credentials[credentialIndex]] as a condition. *)
Definition credentialAt (credentials : list Js.Value) (i : Z) : bool :=
  if i <? 0 then false
  else match nth_error credentials (Z.to_nat i) with
       | Some c => Js.truthy c
       | None => false
       end.

Definition msgNoMapping (d : InputDescriptor) : string :=
  "No mapping found for required descriptor: " +:+ id d.

Definition msgNotFound (m : DescriptorMapEntry) (d : InputDescriptor) : string :=
  "Credential not found at path " +:+ mapPath m +:+ " for descriptor " +:+ id d.

Definition msgNotAll : string := "Not all required descriptors are satisfied".

(** One iteration of the loop over [pd.input_descriptors], on the
    pair of arrays [errors] and [matchedDescriptors].  The body's
    [try] guards [extractIndexFromPath], which does not throw on a
    string. *)
Definition descriptorStep (s : PresentationSubmission) (credentials : list Js.Value)
    (acc : list string * list string) (d : InputDescriptor)
  : list string * list string :=
  let '(errs, matched) := acc in
  match findMapping s d with
  | None =>
      if negb (someOptional d)
      then (errs ++ [msgNoMapping d], matched)
      else (errs, matched)
  | Some m =>
      let credentialIndex := extractIndexFromPath (mapPath m) in
      if (credentialIndex =? -1) || negb (credentialAt credentials credentialIndex)
      then (errs ++ [msgNotFound m d], matched)
      else (errs, matched ++ [id d])
  end.

(** [vp.verifiable_credential || vp.verifiableCredential || []]; an
    array, even empty, is truthy. *)
Definition credentialsOf (vp : VerifiablePresentation) : list Js.Value :=
  match verifiable_credential vp with
  | Some cs => cs
  | None =>
      match verifiableCredential vp with
      | Some cs => cs
      | None => []
      end
  end.

Definition includes (xs : list string) (x : string) : bool :=
  existsb (String.eqb x) xs.

Definition evaluatePresentationSubmission
    (vp : VerifiablePresentation) (pd : PresentationDefinition) : Evaluation :=
  match presentation_submission vp with
  | None =>
      {| valid := false;
         errors := Some ["Missing presentation_submission in VP"];
         matchedDescriptors := None |}
  | Some submission =>
      if negb (String.eqb (definition_id submission) (pdId pd))
      then
        {| valid := false;
           errors := Some ["Definition ID mismatch: expected " +:+ pdId pd
                             +:+ ", got " +:+ definition_id submission];
           matchedDescriptors := None |}
      else
        let credentials := credentialsOf vp in
        let '(errs, matched) :=
          fold_left (descriptorStep submission credentials)
                    (input_descriptors pd) ([], []) in
        let requiredDescriptors :=
          List.filter (fun d => negb (everyOptional d)) (input_descriptors pd) in
        let allRequiredMatched :=
          forallb (fun d => includes matched (id d)) requiredDescriptors in
        let errs' := if allRequiredMatched then errs else errs ++ [msgNotAll] in
        match errs' with
        | [] => {| valid := true; errors := None; matchedDescriptors := Some matched |}
        | _ :: _ =>
            {| valid := false; errors := Some errs'; matchedDescriptors := Some matched |}
        end
  end.

(** The result of the two schema validators. *)
Record SchemaValidation := {
  schemaValid : bool;
  schemaErrors : option (list string)
}.

(** [typeof v === 'object'] for a truthy [v]. *)
Definition isObject (v : Js.Value) : bool :=
  match v with
  | Js.Obj _ | Js.Arr _ => true
  | _ => false
  end.

(** [Array.isArray(v)] *)
Definition isArray (v : Js.Value) : bool :=
  match v with
  | Js.Arr _ => true
  | _ => false
  end.

(** [xs.forEach(...)] on a truthy value: an array is walked, anything
    else has no [forEach]. *)
Definition forEach (what : string) (v : Js.Value)
    (walk : list Js.Value -> Js.Completion (list string)) : Js.Completion (list string) :=
  match v with
  | Js.Arr items => walk items
  | _ => Js.Throw (Js.ErrorObject (what +:+ ".forEach is not a function"))
  end.

(** The callback of [validatePresentationDefinition], over the
    elements from [index] on; reading [id] of an element that is
    [undefined] or [null] throws. *)
Fixpoint descriptorSchemaErrors (index : nat) (items : list Js.Value)
  : Js.Completion (list string) :=
  match items with
  | [] => Js.Normal []
  | descriptor :: rest =>
      let! idValue := Js.get descriptor "id" in
      let here :=
        (if Js.truthy idValue then []
         else ["Input descriptor " +:+ Js.showZ (Z.of_nat index)
                 +:+ ": missing required field 'id'"]) ++
        (if Js.truthy (Js.getOpt descriptor "constraints") then []
         else ["Input descriptor " +:+ Js.showZ (Z.of_nat index)
                 +:+ ": missing required field 'constraints'"]) in
      let! more := descriptorSchemaErrors (S index) rest in
      Js.Normal (here ++ more)
  end.

Definition schemaResult (errs : list string) : SchemaValidation :=
  match errs with
  | [] => {| schemaValid := true; schemaErrors := None |}
  | _ :: _ => {| schemaValid := false; schemaErrors := Some errs |}
  end.

(** [validatePresentationDefinition], on the value the route hands
    over; it has no [try] of its own. *)
Definition validatePresentationDefinition (pd : Js.Value)
  : Js.Completion SchemaValidation :=
  if negb (Js.truthy pd) || negb (isObject pd)
  then Js.Normal {| schemaValid := false;
                    schemaErrors := Some ["Presentation definition must be an object"] |}
  else
    let e1 := if Js.truthy (Js.getOpt pd "id") then []
              else ["Missing required field: id"] in
    let descriptors := Js.getOpt pd "input_descriptors" in
    let e2 := if negb (Js.truthy descriptors) || negb (isArray descriptors)
              then ["Missing or invalid required field: input_descriptors"]
              else [] in
    let! e3 :=
      if Js.truthy descriptors
      then forEach "definition.input_descriptors" descriptors (descriptorSchemaErrors 0)
      else Js.Normal [] in
    Js.Normal (schemaResult (e1 ++ e2 ++ e3)).

(** The callback of [validatePresentationSubmission]. *)
Fixpoint mapSchemaErrors (index : nat) (items : list Js.Value)
  : Js.Completion (list string) :=
  match items with
  | [] => Js.Normal []
  | descriptor :: rest =>
      let! idValue := Js.get descriptor "id" in
      let missing (field : string) :=
        if Js.truthy (Js.getOpt descriptor field) then []
        else ["Descriptor map " +:+ Js.showZ (Z.of_nat index)
                +:+ ": missing required field '" +:+ field +:+ "'"] in
      let here := missing "id" ++ missing "format" ++ missing "path" in
      let! more := mapSchemaErrors (S index) rest in
      Js.Normal (here ++ more)
  end.

(** [validatePresentationSubmission] *)
Definition validatePresentationSubmission (ps : Js.Value)
  : Js.Completion SchemaValidation :=
  if negb (Js.truthy ps) || negb (isObject ps)
  then Js.Normal {| schemaValid := false;
                    schemaErrors := Some ["Presentation submission must be an object"] |}
  else
    let e1 := if Js.truthy (Js.getOpt ps "id") then []
              else ["Missing required field: id"] in
    let e2 := if Js.truthy (Js.getOpt ps "definition_id") then []
              else ["Missing required field: definition_id"] in
    let entries := Js.getOpt ps "descriptor_map" in
    let e3 := if negb (Js.truthy entries) || negb (isArray entries)
              then ["Missing or invalid required field: descriptor_map"]
              else [] in
    let! e4 :=
      if Js.truthy entries
      then forEach "submission.descriptor_map" entries (mapSchemaErrors 0)
      else Js.Normal [] in
    Js.Normal (schemaResult (e1 ++ e2 ++ e3 ++ e4)).

(** An element of the [descriptors] argument of
    [createPresentationDefinition]. *)
Record FieldSpec := {
  fsPath : list string;
  fsPurpose : option string;
  fsOptional : option bool
}.

Record DescriptorSpec := {
  dsId : string;
  dsName : option string;
  dsPurpose : option string;
  credentialType : string;
  dsFields : option (list FieldSpec)
}.

(** The field every created descriptor starts with: the credential
    type must be among [$.type]. *)
Definition typeField (credType : string) : Field :=
  {| path := ["$.type"];
     filter := Some (Js.Obj [("type", Js.Str "array");
                             ("contains", Js.Obj [("const", Js.Str credType)])]);
     fieldPurpose := None; predicate := None; optional := None |}.

Definition fieldOfSpec (f : FieldSpec) : Field :=
  {| path := fsPath f; filter := None; fieldPurpose := fsPurpose f;
     predicate := None; optional := fsOptional f |}.

Definition descriptorOfSpec (desc : DescriptorSpec) : InputDescriptor :=
  {| id := dsId desc; name := dsName desc; purpose := dsPurpose desc; format := None;
     constraints :=
       {| fields := Some (typeField (credentialType desc)
                            :: map fieldOfSpec (match dsFields desc with
                                                | Some fs => fs
                                                | None => []
                                                end));
          limit_disclosure := None |} |}.

(** [createPresentationDefinition] *)
Definition createPresentationDefinition (i : string) (descriptors : list DescriptorSpec)
  : PresentationDefinition :=
  {| pdId := i; pdName := None; pdPurpose := None; pdFormat := None;
     input_descriptors := map descriptorOfSpec descriptors;
     submission_requirements := None |}.

(** The presentation with further entries at the end of the descriptor
    map of its submission. *)
Definition withMoreEntries (extra : list DescriptorMapEntry) (vp : VerifiablePresentation)
  : VerifiablePresentation :=
  {| context := context vp; vpType := vpType vp;
     verifiable_credential := verifiable_credential vp;
     verifiableCredential := verifiableCredential vp;
     holder := holder vp; proof := proof vp;
     presentation_submission :=
       match presentation_submission vp with
       | Some s => Some {| psId := psId s; definition_id := definition_id s;
                           descriptor_map := descriptor_map s ++ extra |}
       | None => None
       end |}.

(** An element of a validated array: an object-like value that names
    all the listed fields with truthy values. *)
Definition hasFields (names : list string) (v : Js.Value) : Prop :=
  v <> Js.Undefined /\ v <> Js.Null /\
  forall n, In n names -> Js.truthy (Js.getOpt v n) = true.

(** A string without an opening bracket. *)
Fixpoint bracketFree (s : string) : bool :=
  match s with
  | EmptyString => true
  | String c rest => negb (Ascii.eqb c "["%char) && bracketFree rest
  end.

(** [undefined] or [null]. *)
Definition nullish (v : Js.Value) : bool :=
  match v with
  | Js.Undefined | Js.Null => true
  | _ => false
  end.

(** The values on which [xs.forEach] of a validator throws: a truthy
    value that is not an array, or an array with an element that is
    [undefined] or [null]. *)
Definition breaksForEach (v : Js.Value) : bool :=
  match v with
  | Js.Arr items => existsb nullish items
  | _ => Js.truthy v
  end.

(** Notions used to state the properties of the matcher. *)

(** The descriptor has a mapping whose path selects an existing
    credential. *)
Definition resolves (s : PresentationSubmission) (credentials : list Js.Value)
    (d : InputDescriptor) : bool :=
  match findMapping s d with
  | Some m =>
      let i := extractIndexFromPath (mapPath m) in
      negb ((i =? -1) || negb (credentialAt credentials i))
  | None => false
  end.

(** The mismatches one descriptor adds to [errors]. *)
Definition stepErrors (s : PresentationSubmission) (credentials : list Js.Value)
    (d : InputDescriptor) : list string :=
  match findMapping s d with
  | None => if someOptional d then [] else [msgNoMapping d]
  | Some m => if resolves s credentials d then [] else [msgNotFound m d]
  end.

Definition requiredIds (pd : PresentationDefinition) : list string :=
  map id (List.filter (fun d => negb (everyOptional d)) (input_descriptors pd)).

Definition resolvedIds (s : PresentationSubmission) (credentials : list Js.Value)
    (pd : PresentationDefinition) : list string :=
  map id (List.filter (resolves s credentials) (input_descriptors pd)).

(** The sentence of the specification on satisfied triples, word for
    word: matching [definition_id], every non-optional descriptor
    resolved, hence [valid: true] and the matched descriptors are
    exactly the non-optional ones (as sets). *)
Definition satisfiedTripleSentence
    (vp : VerifiablePresentation) (pd : PresentationDefinition) : Prop :=
  forall s,
    presentation_submission vp = Some s ->
    definition_id s = pdId pd ->
    (forall d, In d (input_descriptors pd) -> everyOptional d = false ->
               resolves s (credentialsOf vp) d = true) ->
    valid (evaluatePresentationSubmission vp pd) = true /\
    exists ms, matchedDescriptors (evaluatePresentationSubmission vp pd) = Some ms /\
               forall x, In x ms <-> In x (requiredIds pd).

End PresentationDefinition.

(** Concrete presentations used as inputs below. *)
Module MatcherExamples.
Import PresentationDefinition.

Definition field (opt : option bool) : Field :=
  {| path := ["$.type"]; filter := None; fieldPurpose := None;
     predicate := None; optional := opt |}.

Definition descriptor (i : string) (fs : option (list Field)) : InputDescriptor :=
  {| id := i; name := None; purpose := None; format := None;
     constraints := {| fields := fs; limit_disclosure := None |} |}.

Definition definition (ds : list InputDescriptor) : PresentationDefinition :=
  {| pdId := "pd-1"; pdName := None; pdPurpose := None; pdFormat := None;
     input_descriptors := ds; submission_requirements := None |}.

Definition entry (i p : string) : DescriptorMapEntry :=
  {| mapId := i; mapFormat := "jwt_vc"; mapPath := p; path_nested := None |}.

Definition submission (m : list DescriptorMapEntry) : PresentationSubmission :=
  {| psId := "ps-1"; definition_id := "pd-1"; descriptor_map := m |}.

Definition presentation (cs : list Js.Value) (m : list DescriptorMapEntry)
  : VerifiablePresentation :=
  {| context := Js.Arr [Js.Str "https://www.w3.org/2018/credentials/v1"];
     vpType := Js.Arr [Js.Str "VerifiablePresentation"];
     verifiable_credential := None;
     verifiableCredential := Some cs;
     holder := None; proof := None;
     presentation_submission := Some (submission m) |}.

Definition credential : Js.Value := Js.Str "eyJhbGciOiJFUzI1NiJ9.e30.c2ln".

(** The scenario of the specification: one descriptor without fields,
    mapped to the first credential. *)
Definition pdScenario := definition [descriptor "id_credential" (Some [])].
Definition vpScenario :=
  presentation [credential] [entry "id_credential" "$.verifiableCredential[0]"].

Definition requiredDescriptor : InputDescriptor :=
  descriptor "id_credential" (Some [field None]).

Definition optionalDescriptor : InputDescriptor :=
  descriptor "loyalty_card" (Some [field (Some true)]).

(** A required descriptor that resolves, an optional one mapped to a
    credential that is not there. *)
Definition pdOptional := definition [requiredDescriptor; optionalDescriptor].
Definition vpDangling :=
  presentation [credential]
    [entry "id_credential" "$.verifiableCredential[0]";
     entry "loyalty_card" "$.verifiableCredential[5]"].

(** The same definition, the optional descriptor left out of the map. *)
Definition vpRequiredOnly :=
  presentation [credential] [entry "id_credential" "$.verifiableCredential[0]"].

(** A required descriptor without a mapping. *)
Definition vpEmptyMap := presentation [credential] [].

(** Arguments of [createPresentationDefinition]: a descriptor without
    field specifications and one whose only specification is optional. *)
Definition specs : list DescriptorSpec :=
  [ {| dsId := "id_credential"; dsName := None; dsPurpose := None;
       credentialType := "VerifiableId"; dsFields := None |};
    {| dsId := "loyalty_card"; dsName := Some "Loyalty card"; dsPurpose := None;
       credentialType := "LoyaltyCard";
       dsFields := Some [ {| fsPath := ["$.credentialSubject.points"];
                             fsPurpose := None; fsOptional := Some true |} ] |} ].

End MatcherExamples.

(* ================================================================== *)
(** * The JavaScript engine                                           *)
(* ================================================================== *)

(** Built-ins of the engine whose results the sources only pass on:
    JSON text, date parsing and printing, calendar fields in local
    time, base64. *)
Record Engine := {
  jsonParse : string -> Js.Completion Js.Value;
  jsonStringify : Js.Value -> string;
  (** [new Date(v)] for a string, or an array or object that has a
      text *)
  dateOfValue : Js.Value -> option Z;
  (** [toISOString()] of a valid date *)
  isoString : Z -> string;
  (** [getFullYear()], [getMonth()], [getDate()] of a valid date *)
  localYear : Z -> Z;
  localMonth : Z -> Z;
  localDay : Z -> Z;
  (** [Buffer.from(s, 'base64').toString('utf-8')] *)
  base64ToUtf8 : string -> string;
  (** ToNumber of a string, or of an array or object that has a text;
      [None] is [NaN] *)
  numberOfValue : Js.Value -> option Z;
  (** [v.toString()] of a value that has a text *)
  stringOfValue : Js.Value -> string
}.

(** ToNumber.  A string, an array and an object go through the
    engine's reading of their text; an array or object without text
    raises the TypeError of ToPrimitive. *)
Definition toNumber (engine : Engine) (v : Js.Value) : Js.Completion (option Z) :=
  match v with
  | Js.Undefined => Js.Normal None
  | Js.Null => Js.Normal (Some 0)
  | Js.Bool b => Js.Normal (Some (if b then 1 else 0))
  | Js.Num n => Js.Normal (Some n)
  | _ =>
      if Js.unprintable v then Js.Throw Js.noPrimitive
      else Js.Normal (numberOfValue engine v)
  end.

(** [x * 1000] *)
Definition timesThousand (engine : Engine) (x : Js.Value) : Js.Completion (option Z) :=
  let! n := toNumber engine x in
  Js.Normal (option_map (fun n => n * 1000) n).

(** [new Date(v)]: a string, an array and an object go through the
    date parser, after ToPrimitive; anything else is a time value. *)
Definition newDate (engine : Engine) (v : Js.Value) : Js.Completion (option Z) :=
  match v with
  | Js.Str _ | Js.Arr _ | Js.Obj _ =>
      if Js.unprintable v then Js.Throw Js.noPrimitive
      else Js.Normal (dateOfValue engine v)
  | _ => let! n := toNumber engine v in Js.Normal (Js.timeClip n)
  end.

(** [d.toISOString()], a RangeError on an invalid date. *)
Definition toISOString (engine : Engine) (d : option Z) : Js.Completion string :=
  match d with
  | Some t => Js.Normal (isoString engine t)
  | None => Js.Throw (Js.ErrorObject "Invalid time value")
  end.

(** [v?.toString()], for the variable [name] that holds [v]: an
    object with a property [toString] has no such method, and an array
    is printed through its elements. *)
Definition optToString (engine : Engine) (name : string) (v : Js.Value)
  : Js.Completion (option string) :=
  match v with
  | Js.Undefined | Js.Null => Js.Normal None
  | Js.Obj props =>
      if Js.hasKey "toString" props then Js.Throw (Js.notCallable (name +:+ ".toString"))
      else Js.Normal (Some (stringOfValue engine v))
  | _ =>
      if Js.unprintable v then Js.Throw Js.noPrimitive
      else Js.Normal (Some (stringOfValue engine v))
  end.

(** The readings of the clock, one per place where a validator or one
    of its collaborators reads it: [Date.now()] inside [resolveDID],
    the current time of jose's verification, [new Date()] of the
    expiry check, [Date.now()] and [new Date()] of the trust check,
    [new Date()] of the age computation. *)
Record Clock := {
  resolveNow : Z;
  verifyNow : Z;
  expiryNow : Z;
  trustNow : Z;
  trustToday : Z;
  ageToday : Z
}.

(* ================================================================== *)
(** * services/sessionService.ts                                      *)
(* ================================================================== *)

Module SessionService.

Inductive Status := pending | completed | expired | failed.

Definition statusEqb (a b : Status) : bool :=
  match a, b with
  | pending, pending | completed, completed
  | expired, expired | failed, failed => true
  | _, _ => false
  end.

(** A JSONB column as the driver hands it over: text or a parsed value. *)
Definition Json := (string + Js.Value)%type.

(** A row of [vp_sessions]. *)
Record DBRow := {
  id : string;
  state : string;
  nonce : string;
  presentation_definition : Json;
  redirect_uri : option string;
  client_id : option string;
  response_mode : option string;
  created_at : Z;
  expires_at : Z;
  status : Status;
  vp_token : option string;
  presentation_submission : option Json;
  completed_at : option Z
}.

Record VPSession := {
  sId : string;
  sState : string;
  sNonce : string;
  sPresentationDefinition : Js.Value;
  sRedirectUri : option string;
  sClientId : option string;
  sResponseMode : option string;
  sCreatedAt : Z;
  sExpiresAt : Z;
  sStatus : Status;
  sVpToken : option string;
  sPresentationSubmission : Js.Value;
  sCompletedAt : option Z
}.

Definition Table := list DBRow.

(** The outcome of handing one statement to [pool.query]: the
    statement runs, or the promise rejects and the table is as it
    was. *)
Definition Fault := option Js.Thrown.

Definition setStatus (st : Status) (r : DBRow) : DBRow :=
  {| id := id r; state := state r; nonce := nonce r;
     presentation_definition := presentation_definition r;
     redirect_uri := redirect_uri r; client_id := client_id r;
     response_mode := response_mode r; created_at := created_at r;
     expires_at := expires_at r; status := st; vp_token := vp_token r;
     presentation_submission := presentation_submission r;
     completed_at := completed_at r |}.

Definition setSessionStatus (st : Status) (v : VPSession) : VPSession :=
  {| sId := sId v; sState := sState v; sNonce := sNonce v;
     sPresentationDefinition := sPresentationDefinition v;
     sRedirectUri := sRedirectUri v; sClientId := sClientId v;
     sResponseMode := sResponseMode v; sCreatedAt := sCreatedAt v;
     sExpiresAt := sExpiresAt v; sStatus := st; sVpToken := sVpToken v;
     sPresentationSubmission := sPresentationSubmission v;
     sCompletedAt := sCompletedAt v |}.

Section WithEngine.
Context (engine : Engine).

Definition mapRowToSession (row : DBRow) : Js.Completion VPSession :=
  let! pd :=
    match presentation_definition row with
    | inl text => jsonParse engine text
    | inr v => Js.Normal v
    end in
  let! ps :=
    match presentation_submission row with
    | None => Js.Normal Js.Null
    | Some (inl text) =>
        if String.eqb text EmptyString
        then Js.Normal (Js.Str text)
        else jsonParse engine text
    | Some (inr v) => Js.Normal v
    end in
  Js.Normal
    {| sId := id row; sState := state row; sNonce := nonce row;
       sPresentationDefinition := pd;
       sRedirectUri := redirect_uri row; sClientId := client_id row;
       sResponseMode := response_mode row; sCreatedAt := created_at row;
       sExpiresAt := expires_at row; sStatus := status row;
       sVpToken := vp_token row; sPresentationSubmission := ps;
       sCompletedAt := completed_at row |}.

(** [UPDATE vp_sessions SET status = $1 WHERE id = $2]; the result
    is [rowCount > 0], or [false] when the query rejects. *)
Definition updateSessionStatus (fault : Fault) (sessionId : string) (st : Status)
    (t : Table) : bool * Table :=
  match fault with
  | Some _ => (false, t)
  | None =>
      let hit r := String.eqb (id r) sessionId in
      (negb (length (List.filter hit t) =? 0)%nat,
       map (fun r => if hit r then setStatus st r else r) t)
  end.

(** [getVPSessionByState]: [now] is [new Date()]; [selectFault] and
    [updateFault] are the outcomes of its two statements. *)
Definition getVPSessionByState (selectFault updateFault : Fault) (now : Z)
    (st : string) (t : Table) : option VPSession * Table :=
  match selectFault with
  | Some _ => (None, t)
  | None =>
      match List.filter (fun r => String.eqb (state r) st) t with
      | [] => (None, t)
      | row :: _ =>
          match mapRowToSession row with
          | Js.Throw _ => (None, t)
          | Js.Normal session =>
              if statusEqb (sStatus session) pending && (sExpiresAt session <? now)
              then
                let '(_, t') := updateSessionStatus updateFault (sId session) expired t in
                (Some (setSessionStatus expired session), t')
              else (Some session, t)
          end
      end
  end.

(** The row after the conditional update of [completeVPSession];
    [dbNow] is the database's [CURRENT_TIMESTAMP]. *)
Definition completeRow (vpToken : string) (submission : Js.Value) (dbNow : Z)
    (r : DBRow) : DBRow :=
  {| id := id r; state := state r; nonce := nonce r;
     presentation_definition := presentation_definition r;
     redirect_uri := redirect_uri r; client_id := client_id r;
     response_mode := response_mode r; created_at := created_at r;
     expires_at := expires_at r; status := completed;
     vp_token := Some vpToken;
     presentation_submission := Some (inl (jsonStringify engine submission));
     completed_at := Some dbNow |}.

(** [WHERE id = $3 AND status = 'pending'] *)
Definition pendingWithId (sessionId : string) (r : DBRow) : bool :=
  String.eqb (id r) sessionId && statusEqb (status r) pending.

(** [completeVPSession]: one [UPDATE ... WHERE id = $3 AND status =
    'pending' RETURNING *]; [false] when no row was updated or the
    query rejects. *)
Definition completeVPSession (fault : Fault) (dbNow : Z) (sessionId vpToken : string)
    (submission : Js.Value) (t : Table) : bool * Table :=
  match fault with
  | Some _ => (false, t)
  | None =>
      let rowCount := length (List.filter (pendingWithId sessionId) t) in
      let t' := map (fun r => if pendingWithId sessionId r
                              then completeRow vpToken submission dbNow r else r) t in
      if (rowCount =? 0)%nat then (false, t') else (true, t')
  end.

(** One completion request, as the direct-post route issues it. *)
Record Attempt := {
  aFault : Fault;
  aDbNow : Z;
  aVpToken : string;
  aSubmission : Js.Value
}.

(** Completion requests on one session that run concurrently reach
    the database as single statements, which it executes one at a
    time in some order: a run is the list of the requests in that
    order.  The result is the list of their answers and the final
    table. *)
Fixpoint runCompletions (sessionId : string) (attempts : list Attempt) (t : Table)
  : list bool * Table :=
  match attempts with
  | [] => ([], t)
  | a :: rest =>
      let '(ok, t1) :=
        completeVPSession (aFault a) (aDbNow a) sessionId (aVpToken a)
                          (aSubmission a) t in
      let '(oks, t2) := runCompletions sessionId rest t1 in
      (ok :: oks, t2)
  end.

Definition successes (answers : list bool) : nat :=
  length (List.filter (fun b => b) answers).

(** The parameter of [createVPSession]. *)
Record SessionParams := {
  pPresentationDefinition : Js.Value;
  pRedirectUri : option string;
  pClientId : option string;
  pResponseMode : option string;
  pExpiresInMinutes : option Z
}.

(** [params.expiresInMinutes || 15] *)
Definition minutesOf (params : SessionParams) : Z :=
  match pExpiresInMinutes params with
  | Some m => if m =? 0 then 15 else m
  | None => 15
  end.

(** [params.response_mode || 'direct_post'] *)
Definition responseModeOf (params : SessionParams) : string :=
  Js.strOr (pResponseMode params) "direct_post".

(** The row the [INSERT] of [createVPSession] adds: the seven columns
    it names, [id] and [created_at] from the database ([newId],
    [dbNow]), the default status, the other columns NULL. *)
Definition newRow (newId : string) (dbNow : Z) (st nc : string) (expiresAt : Z)
    (params : SessionParams) : DBRow :=
  {| id := newId; state := st; nonce := nc;
     presentation_definition := inl (jsonStringify engine (pPresentationDefinition params));
     redirect_uri := pRedirectUri params; client_id := pClientId params;
     response_mode := Some (responseModeOf params);
     created_at := dbNow; expires_at := expiresAt; status := pending;
     vp_token := None; presentation_submission := None; completed_at := None |}.

(** The constraints of the table: [id] is the primary key, [state] is
    unique.  An [INSERT] that breaks one is rejected. *)
Definition clashes (row : DBRow) (t : Table) : bool :=
  existsb (fun r => String.eqb (id r) (id row) || String.eqb (state r) (state row)) t.

(** [createVPSession].  [st] and [nc] are the two draws of
    [generateSecureRandom], [now] is [Date.now()]; every failure inside
    the [try] is rethrown as 'Failed to create VP session'.  The table
    keeps the row when the insert ran, whatever follows. *)
Definition createVPSession (fault : Fault) (newId : string) (dbNow now : Z)
    (st nc : string) (params : SessionParams) (t : Table)
  : Js.Completion VPSession * Table :=
  let failure := Js.Throw (Js.ErrorObject "Failed to create VP session") in
  match Js.timeClip (Some (now + minutesOf params * 60 * 1000)) with
  | None => (failure, t)
  | Some expiresAt =>
      let row := newRow newId dbNow st nc expiresAt params in
      match fault with
      | Some _ => (failure, t)
      | None =>
          if clashes row t then (failure, t)
          else
            match mapRowToSession row with
            | Js.Normal session => (Js.Normal session, t ++ [row])
            | Js.Throw _ => (failure, t ++ [row])
            end
      end
  end.

(** [WHERE status = 'pending' AND expires_at < CURRENT_TIMESTAMP] *)
Definition pendingExpired (dbNow : Z) (r : DBRow) : bool :=
  statusEqb (status r) pending && (expires_at r <? dbNow).

(** [cleanupExpiredSessions]: one [DELETE], the number of rows it
    removed, 0 when the query rejects. *)
Definition cleanupExpiredSessions (fault : Fault) (dbNow : Z) (t : Table) : Z * Table :=
  match fault with
  | Some _ => (0, t)
  | None =>
      (Z.of_nat (length (List.filter (pendingExpired dbNow) t)),
       List.filter (fun r => negb (pendingExpired dbNow r)) t)
  end.

(** The two uniqueness constraints, as a property of a table. *)
Definition wellKeyed (t : Table) : Prop :=
  List.NoDup (map id t) /\ List.NoDup (map state t).

End WithEngine.

End SessionService.

(** Concrete engine and session rows used as inputs below. *)
Module SessionExamples.
Import SessionService.

Definition engine : Engine :=
  {| jsonParse := fun _ => Js.Normal (Js.Obj []);
     jsonStringify := fun _ => "{}";
     dateOfValue := fun _ => None;
     isoString := fun t => Js.showZ t;
     localYear := fun t => 1970 + t / 31556952000;
     localMonth := fun _ => 0;
     localDay := fun _ => 1;
     base64ToUtf8 := fun s => s;
     numberOfValue := fun _ => None;
     stringOfValue := fun v => match v with
                               | Js.Str x => x
                               | Js.Num n => Js.showZ n
                               | _ => "[object Object]"
                               end |}.

Definition row (i st : string) (s : Status) (expires : Z) : DBRow :=
  {| id := i; state := st; nonce := "n-" +:+ i;
     presentation_definition := inr (Js.Obj [("id", Js.Str "pd-1")]);
     redirect_uri := None; client_id := None;
     response_mode := Some "direct_post";
     created_at := 1000; expires_at := expires; status := s;
     vp_token := None; presentation_submission := None;
     completed_at := None |}.

Definition table : Table :=
  [row "s1" "state-1" pending 901000;
   row "s2" "state-2" completed 901000;
   row "s3" "state-3" pending 5000].

Definition attempt (tok : string) : Attempt :=
  {| aFault := None; aDbNow := 2000; aVpToken := tok;
     aSubmission := Js.Obj [("definition_id", Js.Str "pd-1")] |}.

Definition params : SessionParams :=
  {| pPresentationDefinition := Js.Obj [("id", Js.Str "pd-1")];
     pRedirectUri := None; pClientId := None; pResponseMode := None;
     pExpiresInMinutes := None |}.

End SessionExamples.

(* ================================================================== *)
(** * services/TrustResolver.ts                                       *)
(* ================================================================== *)

Module TrustResolver.

Inductive TrustFramework := EBSI | EUDI_LAUNCHPAD | NATIONAL | CUSTOM.

Inductive AnchorStatus := active | suspended | revoked.

Definition isActive (s : AnchorStatus) : bool :=
  match s with
  | active => true
  | _ => false
  end.

Record TrustAnchor := {
  did : string;
  name : string;
  trustFramework : TrustFramework;
  status : AnchorStatus;
  validFrom : Z;
  validUntil : option Z;
  metadata : option Js.Value
}.

Record TrustResolverConfig := {
  enableEBSI : bool;
  enableEUDILaunchpad : bool;
  enableMockTrustAnchors : bool;
  ebsiEndpoint : option string;
  eudiLaunchpadEndpoint : option string;
  cacheTTL : option Z
}.

(** The default value of the [config] parameter. *)
Definition defaultConfig : TrustResolverConfig :=
  {| enableEBSI := false; enableEUDILaunchpad := false;
     enableMockTrustAnchors := true;
     ebsiEndpoint := None; eudiLaunchpadEndpoint := None; cacheTTL := None |}.

Record CacheEntry := {
  anchor : TrustAnchor;
  timestamp : Z
}.

(** [trustAnchorCache]: the module-level [Map] from DID to entry. *)
Abbreviation TrustAnchorCache := (gmap string CacheEntry).

Definition DEFAULT_CACHE_TTL : Z := 3600.

Definition MOCK_TRUST_ANCHORS : list TrustAnchor :=
  [ {| did := "did:ebsi:znxntxQrN3Xqe7RGTd3KQJ4";
       name := "European Commission - EBSI Root";
       trustFramework := EBSI;
       status := active;
       validFrom := 1704067200000;
       validUntil := Some 1893369600000;
       metadata := Some (Js.Obj [("country", Js.Str "EU"); ("type", Js.Str "root_ca")]) |};
    {| did := "did:web:identity.foundation";
       name := "Decentralized Identity Foundation";
       trustFramework := CUSTOM;
       status := active;
       validFrom := 1672531200000;
       validUntil := None;
       metadata := None |} ].

Record TrustCheck := {
  trusted : bool;
  checkedAnchor : option TrustAnchor;
  reason : option string
}.

(** [(config.cacheTTL || DEFAULT_CACHE_TTL) * 1000] *)
Definition ttlOf (config : TrustResolverConfig) : Z :=
  match cacheTTL config with
  | Some n => (if n =? 0 then DEFAULT_CACHE_TTL else n) * 1000
  | None => DEFAULT_CACHE_TTL * 1000
  end.

(** [a.status === 'active' && (!a.validUntil || a.validUntil > new Date())] *)
Definition isValidAt (a : TrustAnchor) (today : Z) : bool :=
  isActive (status a) &&
  match validUntil a with
  | None => true
  | Some u => today <? u
  end.

(** [MOCK_TRUST_ANCHORS.find((a) => a.did === did)] *)
Definition findMockAnchor (d : string) : option TrustAnchor :=
  find (fun a => String.eqb (did a) d) MOCK_TRUST_ANCHORS.

(** The cache entry that answers the request, if one is young enough. *)
Definition freshEntry (cache : TrustAnchorCache) (config : TrustResolverConfig)
    (now : Z) (d : string) : option CacheEntry :=
  match cache !! d with
  | Some e => if now - timestamp e <? ttlOf config then Some e else None
  | None => None
  end.

(** [isTrustedIssuer].  [now] is [Date.now()], [today] is the later
    [new Date()]; [fault] is an exception raised inside the [try]
    block by the lookup, which the [catch] turns into the answer.
    The result comes with the cache as the call leaves it. *)
Definition isTrustedIssuer (fault : option Js.Thrown) (now today : Z)
    (d : string) (config : TrustResolverConfig) (cache : TrustAnchorCache)
  : TrustCheck * TrustAnchorCache :=
  match fault with
  | Some t =>
      ({| trusted := false; checkedAnchor := None;
          reason := Some ("Error: " +:+ Js.messageOr "Unknown error" t) |}, cache)
  | None =>
      match freshEntry cache config now d with
      | Some cached =>
          let isValid := isValidAt (anchor cached) today in
          ({| trusted := isValid; checkedAnchor := Some (anchor cached);
              reason := Some (if isValid then "Trusted anchor (cached)"
                              else "Anchor expired or revoked") |}, cache)
      | None =>
          match (if enableMockTrustAnchors config then findMockAnchor d else None) with
          | Some mockAnchor =>
              let cache' := <[d := {| anchor := mockAnchor; timestamp := now |}]> cache in
              let isValid := isValidAt mockAnchor today in
              ({| trusted := isValid; checkedAnchor := Some mockAnchor;
                  reason := Some (if isValid then "Trusted anchor (mock)"
                                  else "Anchor expired or revoked") |}, cache')
          | None =>
              ({| trusted := false; checkedAnchor := None;
                  reason := Some "Not in trust anchor list" |}, cache)
          end
      end
  end.

(** [getTrustAnchors] *)
Definition getTrustAnchors (config : TrustResolverConfig) : list TrustAnchor :=
  if enableMockTrustAnchors config
  then List.filter (fun a => isActive (status a)) MOCK_TRUST_ANCHORS
  else [].

(** The call [isTrustedIssuer(issuerDID, opts.trustConfig)] of the
    validators: an absent configuration is the default one, and an
    issuer that is not a string is a key of neither the cache nor the
    registry. *)
Definition isTrustedIssuerOf (fault : option Js.Thrown) (now today : Z)
    (issuer : Js.Value) (config : option TrustResolverConfig) (cache : TrustAnchorCache)
  : TrustCheck * TrustAnchorCache :=
  let cfg := match config with
             | Some c => c
             | None => defaultConfig
             end in
  match issuer with
  | Js.Str d => isTrustedIssuer fault now today d cfg cache
  | _ =>
      match fault with
      | Some t =>
          ({| trusted := false; checkedAnchor := None;
              reason := Some ("Error: " +:+ Js.messageOr "Unknown error" t) |}, cache)
      | None =>
          ({| trusted := false; checkedAnchor := None;
              reason := Some "Not in trust anchor list" |}, cache)
      end
  end.

(** A JSON Web Key: an object. *)
Definition JWK := list (string * Js.Value).

Record VerificationMethod := {
  vmId : string;
  vmType : string;
  controller : string;
  publicKeyJwk : Js.Property JWK;
  publicKeyMultibase : option string
}.

(** [vm.publicKeyJwk] when it is truthy; a key is an object. *)
Definition keyOf (vm : VerificationMethod) : option JWK := Js.present (publicKeyJwk vm).

(** [vm.publicKeyJwk] as a condition. *)
Definition carriesKey (vm : VerificationMethod) : bool :=
  match keyOf vm with
  | Some _ => true
  | None => false
  end.

Record DIDDocument := {
  didContext : Js.Value;
  didId : string;
  verificationMethod : option (list VerificationMethod);
  authentication : option (list (string + VerificationMethod));
  assertionMethod : option (list (string + VerificationMethod));
  service : option Js.Value
}.

(** The answer of [resolveDID]. *)
Record DIDResolution := {
  success : bool;
  document : option DIDDocument;
  resolutionError : option string
}.

(** Notions used to state the properties of the resolver. *)

(** The anchor the resolver holds for an identifier: the one of a
    cache entry within its time to live, else the one of the
    registry when the registry is enabled. *)
Definition anchorFor (cache : TrustAnchorCache) (config : TrustResolverConfig)
    (now : Z) (d : string) (a : TrustAnchor) : Prop :=
  (exists e, cache !! d = Some e /\ now - timestamp e < ttlOf config /\ anchor e = a) \/
  ((forall e, cache !! d = Some e -> ~ now - timestamp e < ttlOf config) /\
   enableMockTrustAnchors config = true /\
   In a MOCK_TRUST_ANCHORS /\ did a = d).

(** Status active, and [validUntil] absent or strictly in the future. *)
Definition activeAndCurrent (a : TrustAnchor) (today : Z) : Prop :=
  status a = active /\ (validUntil a = None \/ exists u, validUntil a = Some u /\ today < u).

(** Every cached anchor is the registry's anchor for its key, which
    holds of the empty cache and of every cache the resolver writes. *)
Definition coherent (cache : TrustAnchorCache) : Prop :=
  forall d e, cache !! d = Some e -> findMockAnchor d = Some (anchor e).

End TrustResolver.

(** The resolution of DIDs to documents, of the same source file. *)
Module DIDResolver.
Import TrustResolver.

(** [didCache]: the module-level [Map] from DID to document. *)
Record DidCacheEntry := {
  cachedDocument : DIDDocument;
  cachedAt : Z
}.

Abbreviation DidCache := (gmap string DidCacheEntry).

Definition mockKey : JWK :=
  [("kty", Js.Str "EC"); ("crv", Js.Str "P-256");
   ("x", Js.Str "jJ2Eqk0u2pCv7dV0RW8bRJ9VGM3LqK4KZS8nU5XhGqo");
   ("y", Js.Str "F2mT_q0H3Jt9YP8wKX7ZmN6RqJ5VbT3nZ8fH2gL9XqM")].

(** The one entry of [MOCK_DID_DOCUMENTS]. *)
Definition mockDocument : DIDDocument :=
  {| didContext := Js.Arr [Js.Str "https://www.w3.org/ns/did/v1";
                           Js.Str "https://w3id.org/security/suites/jws-2020/v1"];
     didId := "did:ebsi:znxntxQrN3Xqe7RGTd3KQJ4";
     verificationMethod :=
       Some [ {| vmId := "did:ebsi:znxntxQrN3Xqe7RGTd3KQJ4#keys-1";
                 vmType := "JsonWebKey2020";
                 controller := "did:ebsi:znxntxQrN3Xqe7RGTd3KQJ4";
                 publicKeyJwk := Js.Present mockKey;
                 publicKeyMultibase := None |} ];
     authentication := Some [inl "did:ebsi:znxntxQrN3Xqe7RGTd3KQJ4#keys-1"];
     assertionMethod := Some [inl "did:ebsi:znxntxQrN3Xqe7RGTd3KQJ4#keys-1"];
     service := None |}.

(** The names an object literal inherits from [Object.prototype]:
    [MOCK_DID_DOCUMENTS[did]] is a truthy value for each of them. *)
Definition inheritedNames : list string :=
  ["constructor"; "__defineGetter__"; "__defineSetter__"; "hasOwnProperty";
   "__lookupGetter__"; "__lookupSetter__"; "isPrototypeOf"; "propertyIsEnumerable";
   "toString"; "valueOf"; "__proto__"; "toLocaleString"].

(** An inherited member taken for a document: none of the fields of a
    document is defined on it (its [id], which the sources only hand
    to the logger, is rendered as the empty string). *)
Definition inheritedMember : DIDDocument :=
  {| didContext := Js.Undefined; didId := EmptyString; verificationMethod := None;
     authentication := None; assertionMethod := None; service := None |}.

(** [MOCK_DID_DOCUMENTS[did]]; [None] is [undefined]. *)
Definition lookupMockDocument (d : string) : option DIDDocument :=
  if String.eqb d "did:ebsi:znxntxQrN3Xqe7RGTd3KQJ4" then Some mockDocument
  else if existsb (String.eqb d) inheritedNames then Some inheritedMember
  else None.

(** What [fetch] resolves to: [ok], [status], and the outcome of
    [response.json()], which the sources cast to a document; [None] is
    a body that parses to a falsy value. *)
Record Response := {
  ok : bool;
  httpStatus : Z;
  json : Js.Completion (option DIDDocument)
}.

(** The network and the URI encoder, outside the repository.  The
    encoder raises a URIError on a string with a lone surrogate. *)
Record Network := {
  fetch : string -> Js.Completion Response;
  encodeURIComponent : string -> Js.Completion string
}.

Definition failed (message : string) : DIDResolution :=
  {| success := false; document := None; resolutionError := Some message |}.

(** The body of the [try] of both network resolvers and its [catch]:
    the request, the status check, the body. *)
Definition fetchDocument (net : Network) (url : string) (statusError : Z -> string)
  : DIDResolution :=
  match fetch net url with
  | Js.Throw t => failed (Js.messageOr "Unknown error" t)
  | Js.Normal response =>
      if negb (ok response) then failed (statusError (httpStatus response))
      else match json response with
           | Js.Throw t => failed (Js.messageOr "Unknown error" t)
           | Js.Normal doc =>
               {| success := true; document := doc; resolutionError := None |}
           end
  end.

(** [resolveEBSIDID]; the answer comes with the URLs requested.  The
    URL is built before the [try]: an exception of the encoder leaves
    the function. *)
Definition resolveEBSIDID (net : Network) (d : string) (endpoint : option string)
  : Js.Completion (DIDResolution * list string) :=
  let apiEndpoint :=
    Js.strOr endpoint "https://api-pilot.ebsi.eu/did-registry/v4/identifiers" in
  let! encoded := encodeURIComponent net d in
  let url := apiEndpoint +:+ "/" +:+ encoded in
  Js.Normal (fetchDocument net url (fun st => "EBSI API error: " +:+ Js.showZ st), [url]).

(** [resolveWebDID] *)
Definition resolveWebDID (net : Network) (d : string) : DIDResolution * list string :=
  let parts := Js.splitOn ":"%char d in
  if (length parts <? 3)%nat then (failed "Invalid did:web format", [])
  else
    let domain := nth 2 parts EmptyString in
    let path := Js.join "/" (skipn 3 parts) in
    let url := "https://" +:+ domain
                 +:+ (if String.eqb path EmptyString then EmptyString else "/" +:+ path)
                 +:+ "/.well-known/did.json" in
    (fetchDocument net url (fun st => "HTTP " +:+ Js.showZ st), [url]).

(** The cached document that answers the request, if young enough. *)
Definition freshDocument (cache : DidCache) (config : TrustResolverConfig)
    (now : Z) (d : string) : option DidCacheEntry :=
  match cache !! d with
  | Some e => if now - cachedAt e <? ttlOf config then Some e else None
  | None => None
  end.

(** [method === name], for the [method] read from [did.split(':')[1]]. *)
Definition isMethod (name : string) (method : option string) : bool :=
  match method with
  | Some m => String.eqb m name
  | None => false
  end.

(** [`Unsupported DID method or DID not found: ${method}`] *)
Definition unsupported (method : option string) : DIDResolution :=
  failed ("Unsupported DID method or DID not found: "
            +:+ match method with
                | Some m => m
                | None => "undefined"
                end).

(** [result.success && result.document] *)
Definition resolved (result : DIDResolution) : option DIDDocument :=
  if success result then document result else None.

(** [resolveDID].  [now] is [Date.now()].  The answer comes with the
    document cache as the call leaves it and the URLs it requested.
    The only exception inside the [try] is the one of the encoder,
    raised before any request and any write to the cache; the [catch]
    answers with its message. *)
Definition resolveDID (net : Network) (now : Z) (d : string)
    (config : TrustResolverConfig) (cache : DidCache)
  : DIDResolution * DidCache * list string :=
  match freshDocument cache config now d with
  | Some cached =>
      ({| success := true; document := Some (cachedDocument cached);
          resolutionError := None |}, cache, [])
  | None =>
      let method := nth_error (Js.splitOn ":"%char d) 1 in
      let store doc := <[d := {| cachedDocument := doc; cachedAt := now |}]> cache in
      match (if enableMockTrustAnchors config then lookupMockDocument d else None) with
      | Some doc =>
          ({| success := true; document := Some doc; resolutionError := None |},
           store doc, [])
      | None =>
          let viaEBSI :=
            if enableEBSI config && isMethod "ebsi" method
            then resolveEBSIDID net d (ebsiEndpoint config)
            else Js.Normal (failed EmptyString, []) in
          match viaEBSI with
          | Js.Throw t => (failed (Js.messageOr "Unknown error" t), cache, [])
          | Js.Normal viaEBSI =>
              match resolved (fst viaEBSI) with
              | Some doc => (fst viaEBSI, store doc, snd viaEBSI)
              | None =>
                  if isMethod "web" method
                  then
                    let viaWeb := resolveWebDID net d in
                    match resolved (fst viaWeb) with
                    | Some doc => (fst viaWeb, store doc, snd viaEBSI ++ snd viaWeb)
                    | None => (unsupported method, cache, snd viaEBSI ++ snd viaWeb)
                    end
                  else (unsupported method, cache, snd viaEBSI)
              end
          end
      end
  end.

(** A URL of the form [https://<host and path>/.well-known/did.json]. *)
Definition wellKnownURL (u : string) : Prop :=
  exists location, u = "https://" +:+ location +:+ "/.well-known/did.json".

(** The outcomes of [resolveDID], one per path through its body. *)
Inductive Outcome (net : Network) (now : Z) (d : string) (config : TrustResolverConfig)
    (cache : DidCache) : DIDResolution * DidCache * list string -> Prop :=
| FromCache e :
    cache !! d = Some e -> now - cachedAt e < ttlOf config ->
    Outcome net now d config cache
      ({| success := true; document := Some (cachedDocument e);
          resolutionError := None |}, cache, [])
| FromMock doc :
    freshDocument cache config now d = None ->
    enableMockTrustAnchors config = true -> lookupMockDocument d = Some doc ->
    Outcome net now d config cache
      ({| success := true; document := Some doc; resolutionError := None |},
       <[d := {| cachedDocument := doc; cachedAt := now |}]> cache, [])
| FromNetwork doc url :
    freshDocument cache config now d = None ->
    (enableMockTrustAnchors config = true -> lookupMockDocument d = None) ->
    (enableEBSI config = true /\
     nth_error (Js.splitOn ":"%char d) 1 = Some "ebsi" /\
     exists encoded,
       encodeURIComponent net d = Js.Normal encoded /\
       url = Js.strOr (ebsiEndpoint config)
               "https://api-pilot.ebsi.eu/did-registry/v4/identifiers"
             +:+ "/" +:+ encoded) \/
    (nth_error (Js.splitOn ":"%char d) 1 = Some "web" /\ wellKnownURL url) ->
    Outcome net now d config cache
      ({| success := true; document := Some doc; resolutionError := None |},
       <[d := {| cachedDocument := doc; cachedAt := now |}]> cache, [url])
| NotResolved urls :
    freshDocument cache config now d = None ->
    (enableMockTrustAnchors config = true -> lookupMockDocument d = None) ->
    (length urls <= 1)%nat ->
    (forall url, In url urls ->
       (enableEBSI config = true /\ nth_error (Js.splitOn ":"%char d) 1 = Some "ebsi") \/
       (nth_error (Js.splitOn ":"%char d) 1 = Some "web" /\ wellKnownURL url)) ->
    Outcome net now d config cache
      (unsupported (nth_error (Js.splitOn ":"%char d) 1), cache, urls)
| Malformed t :
    freshDocument cache config now d = None ->
    (enableMockTrustAnchors config = true -> lookupMockDocument d = None) ->
    enableEBSI config = true ->
    nth_error (Js.splitOn ":"%char d) 1 = Some "ebsi" ->
    encodeURIComponent net d = Js.Throw t ->
    Outcome net now d config cache
      (failed (Js.messageOr "Unknown error" t), cache, []).

End DIDResolver.

(** A network for the examples: every request is answered with the
    same document; and one that is down. *)
Module ResolverExamples.
Import TrustResolver.
Import DIDResolver.

Definition aliceDocument : DIDDocument :=
  {| didContext := Js.Str "https://www.w3.org/ns/did/v1";
     didId := "did:web:example.com:user:alice";
     verificationMethod := None; authentication := None; assertionMethod := None;
     service := None |}.

Definition web : Network :=
  {| fetch := fun _ => Js.Normal {| ok := true; httpStatus := 200;
                                    json := Js.Normal (Some aliceDocument) |};
     encodeURIComponent := fun s => Js.Normal s |}.

Definition offline : Network :=
  {| fetch := fun _ => Js.Throw (Js.ErrorObject "fetch failed");
     encodeURIComponent := fun s => Js.Normal s |}.

(** A configuration with every registry disabled. *)
Definition registryOff : TrustResolverConfig :=
  {| enableEBSI := false; enableEUDILaunchpad := false;
     enableMockTrustAnchors := false; ebsiEndpoint := None;
     eudiLaunchpadEndpoint := None; cacheTTL := None |}.

(** The first resolution of a did:web identifier with a path. *)
Definition aliceRun :=
  resolveDID web 1767225600000 "did:web:example.com:user:alice" defaultConfig ∅.

End ResolverExamples.

(* ================================================================== *)
(** * Collaborators of the validators                                 *)
(* ================================================================== *)

(** [JWTVerificationResult] of lib/jwt.ts. *)
Record JWTVerificationResult := {
  jwtValid : bool;
  jwtPayload : option Js.Value;
  jwtHeader : option Js.Value;
  jwtError : option string
}.

(** What the validators await from outside.  [resolveDID] (modelled
    on its own in [DIDResolver]) reads the clock, its cache of
    documents and the DID registries over the network;
    [verifyJWTWithJWK] runs jose's verification, which checks the
    signature and compares [exp] and [nbf] with the current time;
    [sdJwtDecode] is @sd-jwt/decode.  The first two are given as
    functions of the time of the call, which stands for everything
    they find at that time; each catches its own failures,
    [sdJwtDecode] throws. *)
Record Services := {
  resolveDID : Z -> Js.Value -> option TrustResolver.TrustResolverConfig
               -> TrustResolver.DIDResolution;
  verifyJWTWithJWK : Z -> string -> TrustResolver.JWK -> JWTVerificationResult;
  sdJwtDecode : string -> Js.Completion Js.Value
}.

(** [o ?? d] on an optional flag. *)
Definition orDefault (o : option bool) (d : bool) : bool :=
  match o with
  | Some b => b
  | None => d
  end.

(** A step of a validator: an early [return] of the result, or the
    values it passes on to the next step. *)
Inductive Stage (R A : Type) : Type :=
| Return (r : R)
| Continue (a : A).
Arguments Return {R A} r.
Arguments Continue {R A} a.

(* ================================================================== *)
(** * services/VCValidator.ts                                         *)
(* ================================================================== *)

Module VCValidator.
Import TrustResolver.

Record VCValidationResult := {
  valid : bool;
  errors : option (list string);
  warnings : option (list string);
  issuer : option Js.Value;
  issuanceDate : option string;
  expirationDate : option string;
  trusted : option bool;
  credentialSubject : option Js.Value
}.

Record VCValidationOptions := {
  checkTrust : option bool;
  checkExpiration : option bool;
  checkRevocation : option bool;
  trustConfig : option TrustResolverConfig
}.

(** [options = {}] *)
Definition noOptions : VCValidationOptions :=
  {| checkTrust := None; checkExpiration := None; checkRevocation := None;
     trustConfig := None |}.

(** An early [return { valid: false, errors, issuer }]. *)
Definition rejected (errs : list string) (iss : option Js.Value) : VCValidationResult :=
  {| valid := false; errors := Some errs; warnings := None; issuer := iss;
     issuanceDate := None; expirationDate := None; trusted := None;
     credentialSubject := None |}.

(** The answer of the outer [catch]. *)
Definition caught (t : Js.Thrown) : VCValidationResult :=
  rejected ["Validation error: " +:+ Js.messageOr "Unknown error" t] None.

(** [extractPublicKeyFromDID] of this file.  An embedded first
    assertion method that has the property [publicKeyJwk] decides the
    answer, also when the property holds no key; a reference is looked
    up among the verification methods; otherwise the first
    verification method with a key gives the key. *)
Definition extractPublicKeyFromDID (doc : DIDDocument) : option JWK :=
  let fromVerificationMethods :=
    match verificationMethod doc with
    | Some vms =>
        match find carriesKey vms with
        | Some vm => keyOf vm
        | None => None
        end
    | None => None
    end in
  match assertionMethod doc with
  | Some (inr vm :: _) =>
      match publicKeyJwk vm with
      | Js.Present k => Some k
      | Js.Falsy => None
      | Js.Absent => fromVerificationMethods
      end
  | Some (inl ref :: _) =>
      match verificationMethod doc with
      | Some vms =>
          match find (fun v => String.eqb (vmId v) ref) vms with
          | Some vm =>
              match keyOf vm with
              | Some k => Some k
              | None => fromVerificationMethods
              end
          | None => fromVerificationMethods
          end
      | None => fromVerificationMethods
      end
  | _ => fromVerificationMethods
  end.

Section WithHost.
Context (engine : Engine) (services : Services).

(** Step 1: the payload of the token and its issuer. *)
Definition decodeIssuer (vcJWT : string)
  : Stage VCValidationResult (Js.Value * Js.Value) :=
  match Js.splitOn "."%char vcJWT with
  | [_; payloadBase64; _] =>
      let decoded :=
        let! vcPayload := jsonParse engine (base64ToUtf8 engine payloadBase64) in
        let! iss := Js.get vcPayload "iss" in
        Js.Normal
          (vcPayload,
           Js.or iss (Js.or (Js.getOpt (Js.getOpt vcPayload "vc") "issuer")
                            (Js.getOpt vcPayload "issuer"))) in
      match decoded with
      | Js.Throw t =>
          Return (rejected ["Failed to decode VC JWT: " +:+ Js.messageOr "Unknown error" t]
                           None)
      | Js.Normal (vcPayload, issuerDID) =>
          if Js.truthy issuerDID
          then Continue (vcPayload, issuerDID)
          else Return (rejected ["Missing issuer in credential"] None)
      end
  | _ => Return (rejected ["Invalid JWT format - expected 3 parts"] None)
  end.

(** Steps 2 to 5: resolution of the issuer, its key, the signature,
    the [vc] claim.  Passes on the payload, the issuer and the
    credential. *)
Definition verifyCredential (clock : Clock) (vcJWT : string)
    (config : option TrustResolverConfig)
  : Stage VCValidationResult (Js.Value * Js.Value * Js.Value) :=
  match decodeIssuer vcJWT with
  | Return r => Return r
  | Continue (vcPayload, issuerDID) =>
      let didResolution := resolveDID services (resolveNow clock) issuerDID config in
      match success didResolution, document didResolution with
      | true, Some didDocument =>
          match extractPublicKeyFromDID didDocument with
          | None =>
              Return (rejected
                        ["No verification method with publicKeyJwk found in DID document"]
                        (Some issuerDID))
          | Some publicKey =>
              let verification :=
                verifyJWTWithJWK services (verifyNow clock) vcJWT publicKey in
              if jwtValid verification
              then
                let vc :=
                  match jwtPayload verification with
                  | Some p => Js.or (Js.getOpt p "vc") p
                  | None => Js.Undefined
                  end in
                if Js.truthy vc
                then Continue (vcPayload, issuerDID, vc)
                else Return (rejected ["Missing vc claim in JWT payload"] (Some issuerDID))
              else
                Return (rejected
                          ["JWT signature verification failed: "
                             +:+ Js.strOr (jwtError verification) "Unknown error"]
                          (Some issuerDID))
          end
      | _, _ =>
          Return (rejected
                    ["Failed to resolve issuer DID: "
                       +:+ Js.strOr (resolutionError didResolution) "Unknown error"]
                    (Some issuerDID))
      end
  end.

(** The required fields of the credential. *)
Definition structureErrors (vc : Js.Value) : list string :=
  (if Js.truthy (Js.getOpt vc "@context") then []
   else ["Missing required field: @context"]) ++
  (if Js.truthy (Js.getOpt vc "type") then []
   else ["Missing required field: type"]) ++
  (if Js.truthy (Js.getOpt vc "credentialSubject") then []
   else ["Missing required field: credentialSubject"]).

Definition typeWarnings (vc : Js.Value) : list string :=
  let types :=
    match Js.getOpt vc "type" with
    | Js.Arr items => items
    | t => [t]
    end in
  if Js.includesStr types "VerifiableCredential" then []
  else ["type array should include " +:+ Js.quoted "VerifiableCredential"].

(** [vc.issuanceDate || vcPayload.iat] *)
Definition issuanceOf (vcPayload vc : Js.Value) : Js.Value :=
  Js.or (Js.getOpt vc "issuanceDate") (Js.getOpt vcPayload "iat").

(** [vc.expirationDate || vcPayload.exp] *)
Definition expirationOf (vcPayload vc : Js.Value) : Js.Value :=
  Js.or (Js.getOpt vc "expirationDate") (Js.getOpt vcPayload "exp").

(** Step 6: the error of an expired credential; [new Date] of a date
    that is an array or an object may throw. *)
Definition expiryErrors (doCheck : bool) (now : Z) (expiration : Js.Value)
  : Js.Completion (list string) :=
  if doCheck && Js.truthy expiration
  then
    let! expDate :=
      match expiration with
      | Js.Num n => Js.Normal (Js.timeClip (Some (n * 1000)))
      | v => newDate engine v
      end in
    Js.Normal
      match expDate with
      | Some t => if t <? now then ["Credential expired on " +:+ isoString engine t] else []
      | None => []
      end
  else Js.Normal [].

(** [issuanceDate?.toString()] and [expirationDate?.toString()], in
    the order of the object literal that holds them. *)
Definition printedDates (issuance expiration : Js.Value)
  : Js.Completion (option string * option string) :=
  let! issuanceText := optToString engine "issuanceDate" issuance in
  let! expirationText := optToString engine "expirationDate" expiration in
  Js.Normal (issuanceText, expirationText).

(** [validateVC].  [fault] is the exception, if any, raised inside
    [isTrustedIssuer]; the result comes with the trust cache.  An
    exception of step 6 or of the final object literal reaches the
    outer [catch]; the second is raised after the trust check. *)
Definition validateVC (fault : option Js.Thrown) (clock : Clock) (vcJWT : string)
    (options : VCValidationOptions) (cache : TrustAnchorCache)
  : VCValidationResult * TrustAnchorCache :=
  let optsCheckTrust := orDefault (checkTrust options) true in
  let optsCheckExpiration := orDefault (checkExpiration options) true in
  let optsCheckRevocation := orDefault (checkRevocation options) false in
  match verifyCredential clock vcJWT (trustConfig options) with
  | Return r => (r, cache)
  | Continue (vcPayload, issuerDID, vc) =>
      let errs0 := structureErrors vc in
      let warns0 := typeWarnings vc in
      let issuance := issuanceOf vcPayload vc in
      let expiration := expirationOf vcPayload vc in
      match expiryErrors optsCheckExpiration (expiryNow clock) expiration with
      | Js.Throw t => (caught t, cache)
      | Js.Normal expired =>
          let errs := errs0 ++ expired in
          let '(isTrusted, warns1, cache') :=
            if optsCheckTrust
            then
              let '(trustCheck, c) :=
                isTrustedIssuerOf fault (trustNow clock) (trustToday clock) issuerDID
                                  (trustConfig options) cache in
              (TrustResolver.trusted trustCheck,
               if TrustResolver.trusted trustCheck then warns0
               else warns0 ++ ["Issuer not in trust anchor list: "
                                 +:+ Js.strOr (reason trustCheck) "Unknown reason"],
               c)
            else (false, warns0, cache) in
          let warns :=
            if optsCheckRevocation
            then warns1 ++ ["Revocation checking not yet implemented"]
            else warns1 in
          match printedDates issuance expiration with
          | Js.Throw t => (caught t, cache')
          | Js.Normal (issuanceText, expirationText) =>
              match errs with
              | _ :: _ =>
                  ({| valid := false; errors := Some errs; warnings := Some warns;
                      issuer := Some issuerDID;
                      issuanceDate := issuanceText;
                      expirationDate := expirationText;
                      trusted := Some isTrusted; credentialSubject := None |}, cache')
              | [] =>
                  ({| valid := true; errors := None;
                      warnings := match warns with
                                  | [] => None
                                  | _ :: _ => Some warns
                                  end;
                      issuer := Some issuerDID;
                      issuanceDate := issuanceText;
                      expirationDate := expirationText;
                      trusted := Some isTrusted;
                      credentialSubject := Some (Js.getOpt vc "credentialSubject") |},
                   cache')
              end
          end
      end
  end.

End WithHost.

(** What one call of [validateVC] inside a batch finds when it runs:
    the answers of the services, the exception of its trust lookup if
    any, its readings of the clock, and the trust cache as the calls
    that reached their trust check before it left it.  [Promise.all]
    starts the calls in order and lets them interleave at every
    [await]. *)
Record BatchCall := {
  callServices : Services;
  callFault : option Js.Thrown;
  callClock : Clock;
  callCache : TrustAnchorCache
}.

Record VCBatchResult := {
  batchValid : bool;
  results : list VCValidationResult;
  allTrusted : bool
}.

(** [r.trusted === true] *)
Definition trustedIsTrue (r : VCValidationResult) : bool :=
  match trusted r with
  | Some true => true
  | _ => false
  end.

(** [validateVCBatch]; [calls i] is what the call for the [i]-th
    token finds.  No call throws ([validateVC] catches), so the
    [catch] that rethrows is never entered. *)
Definition validateVCBatch (engine : Engine) (calls : nat -> BatchCall)
    (vcJWTs : list string) (options : VCValidationOptions) : VCBatchResult :=
  let results :=
    imap (fun i vcJWT =>
            fst (validateVC engine (callServices (calls i)) (callFault (calls i))
                   (callClock (calls i)) vcJWT options (callCache (calls i))))
         vcJWTs in
  {| batchValid := forallb valid results;
     results := results;
     allTrusted := forallb trustedIsTrue results |}.

End VCValidator.

(* ================================================================== *)
(** * services/SDJWTValidator.ts                                      *)
(* ================================================================== *)

Module SDJWTValidator.
Import TrustResolver.

Record SDJWTValidationResult := {
  valid : bool;
  errors : option (list string);
  warnings : option (list string);
  issuer : option Js.Value;
  disclosedClaims : option Js.Value;
  issuanceDate : option string;
  expirationDate : option string;
  trusted : option bool;
  disclosureCount : option Z
}.

Record SDJWTValidationOptions := {
  checkTrust : option bool;
  checkExpiration : option bool;
  trustConfig : option TrustResolverConfig;
  requireMinimumDisclosures : option Z
}.

Definition rejected (errs : list string) (iss : option Js.Value) : SDJWTValidationResult :=
  {| valid := false; errors := Some errs; warnings := None; issuer := iss;
     disclosedClaims := None; issuanceDate := None; expirationDate := None;
     trusted := None; disclosureCount := None |}.

(** [extractPublicKeyFromDID] of this file: the key of the first
    assertion method when that is an embedded method with a key, else
    the key of the first verification method. *)
Definition extractPublicKeyFromDID (doc : DIDDocument) : option JWK :=
  let first :=
    match assertionMethod doc with
    | Some (inr vm :: _) => keyOf vm
    | _ => None
    end in
  match first with
  | Some k => Some k
  | None =>
      match verificationMethod doc with
      | Some (vm :: _) => keyOf vm
      | _ => None
      end
  end.

(** [parts[0]] of [sdJwtToken.split('~')] *)
Definition issuerJWTOf (sdJwtToken : string) : string :=
  match Js.splitOn "~"%char sdJwtToken with
  | x :: _ => x
  | [] => EmptyString
  end.

(** [Only ${disclosureCount} claims disclosed, required minimum: ${m}] *)
Definition msgMinimum (count m : Z) : string :=
  "Only " +:+ Js.showZ count +:+ " claims disclosed, required minimum: " +:+ Js.showZ m.

(** The warning of the minimum-disclosure policy. *)
Definition minimumWarnings (minimum : option Z) (count : Z) : list string :=
  match minimum with
  | Some m => if negb (m =? 0) && (count <? m) then [msgMinimum count m] else []
  | None => []
  end.

Section WithHost.
Context (engine : Engine) (services : Services).

(** Steps 2 and 3: the decoded token and its issuer.  Reading [jwt] or
    [payload] of a decoded value that is [undefined] or [null] throws,
    outside the inner [try]. *)
Definition decodeIssuer (sdJwtToken : string)
  : Js.Completion (Stage SDJWTValidationResult (Js.Value * Js.Value)) :=
  match sdJwtDecode services sdJwtToken with
  | Js.Throw t =>
      Js.Normal (Return
        (rejected ["Failed to decode SD-JWT: " +:+ Js.messageOr "Unknown error" t] None))
  | Js.Normal decodedSDJWT =>
      let! jwt := Js.get decodedSDJWT "jwt" in
      let jwtPayload := Js.getOpt jwt "payload" in
      let issuerDID :=
        Js.or (Js.getOpt jwtPayload "iss")
              (Js.or (Js.getOpt jwtPayload "issuer")
                     (Js.getOpt (Js.getOpt decodedSDJWT "payload") "iss")) in
      if Js.truthy issuerDID
      then Js.Normal (Continue (decodedSDJWT, issuerDID))
      else Js.Normal (Return (rejected ["Missing issuer in SD-JWT"] None))
  end.

(** Steps 4 to 6: resolution of the issuer, its key, the signature of
    the issuer-signed JWT.  Passes on the decoded token, the issuer and
    the verified payload. *)
Definition verifyToken (clock : Clock) (sdJwtToken : string)
    (config : option TrustResolverConfig)
  : Js.Completion
      (Stage SDJWTValidationResult (Js.Value * Js.Value * option Js.Value)) :=
  let! stage := decodeIssuer sdJwtToken in
  match stage with
  | Return r => Js.Normal (Return r)
  | Continue (decodedSDJWT, issuerDID) =>
      let didResolution := resolveDID services (resolveNow clock) issuerDID config in
      match success didResolution, document didResolution with
      | true, Some didDocument =>
          match extractPublicKeyFromDID didDocument with
          | None =>
              Js.Normal (Return
                (rejected ["No public key found in DID document"] (Some issuerDID)))
          | Some publicKey =>
              let issuerVerification :=
                verifyJWTWithJWK services (verifyNow clock) (issuerJWTOf sdJwtToken)
                  publicKey in
              if jwtValid issuerVerification
              then Js.Normal (Continue
                     (decodedSDJWT, issuerDID, jwtPayload issuerVerification))
              else Js.Normal (Return
                     (rejected ["Issuer JWT signature verification failed: "
                                  +:+ Js.strOr (jwtError issuerVerification) "Unknown error"]
                               (Some issuerDID)))
          end
      | _, _ =>
          Js.Normal (Return
            (rejected ["Failed to resolve issuer DID: "
                         +:+ Js.strOr (resolutionError didResolution) "Unknown error"]
                      (Some issuerDID)))
      end
  end.

(** [decodedSDJWT.disclosures || {}] *)
Definition disclosedClaimsOf (decodedSDJWT : Js.Value) : Js.Value :=
  Js.or (Js.getOpt decodedSDJWT "disclosures") (Js.Obj []).

(** [Object.keys(disclosedClaims).length] *)
Definition countOf (claims : Js.Value) : Z := Z.of_nat (length (Js.keys claims)).

(** [issuerVerification.payload || {}] *)
Definition payloadOf (p : option Js.Value) : Js.Value :=
  match p with
  | Some v => Js.or v (Js.Obj [])
  | None => Js.Obj []
  end.

(** [x ? new Date(x * 1000).toISOString() : undefined] *)
Definition isoOfSeconds (x : Js.Value) : Js.Completion (option string) :=
  if Js.truthy x
  then
    let! ms := timesThousand engine x in
    let! text := toISOString engine (Js.timeClip ms) in
    Js.Normal (Some text)
  else Js.Normal None.

(** Step 8: the two dates; a claim without a number and a date out of
    range throw. *)
Definition datesOf (payload : Js.Value) : Js.Completion (option string * option string) :=
  let! issuance := isoOfSeconds (Js.getOpt payload "iat") in
  let! expiration := isoOfSeconds (Js.getOpt payload "exp") in
  Js.Normal (issuance, expiration).

(** The error of an expired token. *)
Definition expiryErrors (doCheck : bool) (now : Z) (exp : Js.Value)
  : Js.Completion (list string) :=
  if doCheck && Js.truthy exp
  then
    let! ms := timesThousand engine exp in
    Js.Normal
      match Js.timeClip ms with
      | Some t => if t <? now then ["SD-JWT expired on " +:+ isoString engine t] else []
      | None => []
      end
  else Js.Normal [].

(** [validateSDJWT].  [fault] is the exception, if any, raised inside
    [isTrustedIssuer]; the result comes with the trust cache. *)
Definition validateSDJWT (fault : option Js.Thrown) (clock : Clock) (sdJwtToken : string)
    (options : SDJWTValidationOptions) (cache : TrustAnchorCache)
  : SDJWTValidationResult * TrustAnchorCache :=
  let optsCheckTrust := orDefault (checkTrust options) true in
  let optsCheckExpiration := orDefault (checkExpiration options) true in
  let body :=
    let! stage := verifyToken clock sdJwtToken (trustConfig options) in
    match stage with
    | Return r => Js.Normal (r, cache)
    | Continue (decodedSDJWT, issuerDID, verifiedPayload) =>
        let claims := disclosedClaimsOf decodedSDJWT in
        let count := countOf claims in
        let warns0 := minimumWarnings (requireMinimumDisclosures options) count in
        let payload := payloadOf verifiedPayload in
        let! dates := datesOf payload in
        let! errs :=
          expiryErrors optsCheckExpiration (expiryNow clock) (Js.getOpt payload "exp") in
        let '(isTrusted, warns, cache') :=
          if optsCheckTrust
          then
            let '(trustCheck, c) :=
              isTrustedIssuerOf fault (trustNow clock) (trustToday clock) issuerDID
                                (trustConfig options) cache in
            (TrustResolver.trusted trustCheck,
             if TrustResolver.trusted trustCheck then warns0
             else warns0 ++ ["Issuer not in trust anchor list: "
                               +:+ Js.strOr (reason trustCheck) "Unknown"],
             c)
          else (false, warns0, cache) in
        match errs with
        | _ :: _ =>
            Js.Normal
              ({| valid := false; errors := Some errs; warnings := Some warns;
                  issuer := Some issuerDID; disclosedClaims := None;
                  issuanceDate := None; expirationDate := None; trusted := None;
                  disclosureCount := Some count |}, cache')
        | [] =>
            Js.Normal
              ({| valid := true; errors := None;
                  warnings := match warns with
                              | [] => None
                              | _ :: _ => Some warns
                              end;
                  issuer := Some issuerDID; disclosedClaims := Some claims;
                  issuanceDate := fst dates; expirationDate := snd dates;
                  trusted := Some isTrusted; disclosureCount := Some count |}, cache')
        end
    end in
  match body with
  | Js.Normal r => r
  | Js.Throw t =>
      (rejected ["Validation error: " +:+ Js.messageOr "Unknown error" t] None, cache)
  end.

Record AgeVerification := {
  verified : bool;
  ageOver : option Z;
  error : option string
}.

(** [calculateAge]; [None] is [NaN], the age of an invalid date. *)
Definition calculateAge (today : Z) (birthDate : option Z) : option Z :=
  match birthDate with
  | Some b =>
      let age := localYear engine today - localYear engine b in
      let monthDiff := localMonth engine today - localMonth engine b in
      if (monthDiff <? 0) || ((monthDiff =? 0) && (localDay engine today <? localDay engine b))
      then Some (age - 1)
      else Some age
  | None => None
  end.

(** The loop over [Object.keys(disclosedClaims)]: the age of the first
    key [age_over_...] whose number is at least [minAge] and whose
    claim is [true]. *)
Fixpoint higherClaim (claims : Js.Value) (minAge : Z) (ks : list string) : option Z :=
  match ks with
  | [] => None
  | key :: rest =>
      if String.prefix "age_over_" key
      then
        match Js.parseInt (Js.dropString 9 key) with
        | Some claimAge =>
            if (minAge <=? claimAge) && Js.isTrue (Js.getOpt claims key)
            then Some claimAge
            else higherClaim claims minAge rest
        | None => higherClaim claims minAge rest
        end
      else higherClaim claims minAge rest
  end.

Definition showAge (age : option Z) : string :=
  match age with
  | Some a => Js.showZ a
  | None => "NaN"
  end.

(** [disclosedClaims.birth_date || disclosedClaims.birthdate] *)
Definition birthOf (claims : Js.Value) : Js.Value :=
  Js.or (Js.getOpt claims "birth_date") (Js.getOpt claims "birthdate").

(** [`Age ${age} is below minimum ${minAge}`] *)
Definition msgBelow (age : option Z) (minAge : Z) : string :=
  "Age " +:+ showAge age +:+ " is below minimum " +:+ Js.showZ minAge.

(** [`No age_over_${minAge} claim found in disclosed claims`] *)
Definition msgNoClaim (minAge : Z) : string :=
  "No age_over_" +:+ Js.showZ minAge +:+ " claim found in disclosed claims".

Definition notVerified (message : string) : AgeVerification :=
  {| verified := false; ageOver := None; error := Some message |}.

(** The end of [verifyAgeOver]: the check of a disclosed birthdate,
    and the answer when there is none.  [new Date] of a birthdate that
    is an array or an object may throw. *)
Definition ageFromBirthdate (today : Z) (claims : Js.Value) (minAge : Z)
  : Js.Completion AgeVerification :=
  let birth := birthOf claims in
  if Js.truthy birth
  then
    let! birthDate := newDate engine birth in
    let age := calculateAge today birthDate in
    match age with
    | Some a =>
        if minAge <=? a
        then Js.Normal {| verified := true; ageOver := Some a; error := None |}
        else Js.Normal (notVerified (msgBelow age minAge))
    | None => Js.Normal (notVerified (msgBelow age minAge))
    end
  else Js.Normal (notVerified (msgNoClaim minAge)).

(** The part of [verifyAgeOver] that follows a successful validation. *)
Definition ageFromClaims (today : Z) (claims : Js.Value) (minAge : Z)
  : Js.Completion AgeVerification :=
  let ageOverKey := "age_over_" +:+ Js.showZ minAge in
  if Js.isTrue (Js.getOpt claims ageOverKey)
  then Js.Normal {| verified := true; ageOver := Some minAge; error := None |}
  else
    match higherClaim claims minAge (Js.keys claims) with
    | Some claimAge =>
        Js.Normal {| verified := true; ageOver := Some claimAge; error := None |}
    | None => ageFromBirthdate today claims minAge
    end.

(** The options of the validation inside [verifyAgeOver]. *)
Definition ageOptions : SDJWTValidationOptions :=
  {| checkTrust := Some true; checkExpiration := Some true;
     trustConfig := None; requireMinimumDisclosures := None |}.

(** [validation.disclosedClaims || {}] *)
Definition claimsOf (validation : SDJWTValidationResult) : Js.Value :=
  match disclosedClaims validation with
  | Some c => Js.or c (Js.Obj [])
  | None => Js.Obj []
  end.

(** [`SD-JWT validation failed: ${validation.errors?.join(', ')}`] *)
Definition msgFailed (validation : SDJWTValidationResult) : string :=
  "SD-JWT validation failed: "
    +:+ match errors validation with
        | Some es => Js.join ", " es
        | None => "undefined"
        end.

(** [verifyAgeOver]; an exception of the birthdate check reaches the
    [catch]. *)
Definition verifyAgeOver (fault : option Js.Thrown) (clock : Clock) (sdJwtToken : string)
    (minAge : Z) (cache : TrustAnchorCache) : AgeVerification * TrustAnchorCache :=
  let '(validation, cache') := validateSDJWT fault clock sdJwtToken ageOptions cache in
  if negb (valid validation)
  then (notVerified (msgFailed validation), cache')
  else
    match ageFromClaims (ageToday clock) (claimsOf validation) minAge with
    | Js.Normal answer => (answer, cache')
    | Js.Throw t => (notVerified (Js.messageOr "Unknown error" t), cache')
    end.

(** The result of [verifySelectiveDisclosure]. *)
Record SelectiveDisclosure := {
  disclosed : bool;
  claims : option Js.Value;
  disclosureError : option string
}.

(** The options of the validation inside [verifySelectiveDisclosure]. *)
Definition disclosureOptions : SDJWTValidationOptions :=
  {| checkTrust := Some false; checkExpiration := Some false;
     trustConfig := None; requireMinimumDisclosures := None |}.

(** [verifySelectiveDisclosure].  The [catch] of its [try] is never entered:
    [validateSDJWT] catches its own exceptions, [errors] is an array of
    strings, so that [join] cannot throw, and the rest of the body only reads
    properties of the validation. *)
Definition verifySelectiveDisclosure (fault : option Js.Thrown) (clock : Clock)
    (sdJwtToken : string) (cache : TrustAnchorCache)
  : SelectiveDisclosure * TrustAnchorCache :=
  let '(validation, cache') :=
    validateSDJWT fault clock sdJwtToken disclosureOptions cache in
  if negb (valid validation)
  then
    ({| disclosed := false; claims := None;
        disclosureError := Some (msgFailed validation) |}, cache')
  else
    ({| disclosed := true; claims := Some (claimsOf validation);
        disclosureError := None |}, cache').

End WithHost.

End SDJWTValidator.

(* ================================================================== *)
(** * services/MDocDecoder.ts                                         *)
(* ================================================================== *)

Module MDocDecoder.

Record ValidityInfo := {
  signed : option Z;
  validFrom : option Z;
  validUntil : option Z
}.

Record MobileSecurityObject := {
  version : string;
  digestAlgorithm : string;
  valueDigests : Js.Value;
  deviceKeyInfo : Js.Value;
  docType : string;
  validityInfo : ValidityInfo
}.

(** The result type of [verifyMSO]: [{ valid: boolean; error?: string }]. *)
Record MSOVerification := {
  valid : bool;
  error : option string
}.

(** The lines [verifyMSO] hands to the logger are kept next to its
    result, to tell what reaches the log from what reaches the caller. *)
Inductive Level := info | warn.

Record LogLine := {
  level : Level;
  message : string
}.

Definition nonEmpty (s : string) : bool := negb (String.eqb s EmptyString).

(** [verifyMSO]; [now] is [new Date()]. *)
Definition verifyMSO (now : Z) (mso : MobileSecurityObject)
  : MSOVerification * list LogLine :=
  let log0 := [{| level := info; message := "Verifying MSO" |}] in
  if negb (nonEmpty (version mso)) || negb (nonEmpty (digestAlgorithm mso))
  then ({| valid := false; error := Some "Invalid MSO structure" |}, log0)
  else if Js.dateGt (validFrom (validityInfo mso)) (Some now)
  then ({| valid := false; error := Some "MSO not yet valid" |}, log0)
  else if Js.dateLt (validUntil (validityInfo mso)) (Some now)
  then ({| valid := false; error := Some "MSO expired" |}, log0)
  else
    ({| valid := true; error := None |},
     log0 ++ [{| level := warn;
                 message := "MSO verification incomplete - signature check not yet implemented" |}]).

(** A security object of a driving licence, valid through 2025. *)
Definition sampleMSO : MobileSecurityObject :=
  {| version := "1.0";
     digestAlgorithm := "SHA-256";
     valueDigests := Js.Obj [];
     deviceKeyInfo := Js.Obj [("deviceKey", Js.Obj [])];
     docType := "org.iso.18013.5.1.mDL";
     validityInfo := {| signed := Some 1735689600000;
                        validFrom := Some 1735689600000;
                        validUntil := Some 1767225600000 |} |}.

End MDocDecoder.

(* ================================================================== *)
(** * services/AuditLogger.ts and migrations/005_audit_hash_chain.sql *)
(* ================================================================== *)

Module AuditLogger.

Inductive AuditResult := success | failure | error.

Definition resultText (r : AuditResult) : string :=
  match r with
  | success => "success"
  | failure => "failure"
  | error => "error"
  end.

Record AuditEvent := {
  eventType : string;
  actor : option string;
  resource : option string;
  action : string;
  result : AuditResult;
  metadata : option Js.Value;
  timestamp : option Z
}.

(** A row of [audit_logs], with the two columns of migration 005. *)
Record AuditRow := {
  id : Z;
  rowTimestamp : Z;
  event_type : string;
  rowActor : option string;
  rowResource : option string;
  rowAction : string;
  rowResult : string;
  rowMetadata : option string;
  previous_hash : option string;
  current_hash : option string
}.

(** The table and the last value of its [BIGSERIAL] sequence. *)
Record AuditLog := {
  rows : list AuditRow;
  lastId : Z
}.

(** [logAuditEvent]: one [INSERT] that names the columns event_type,
    actor, resource, action, result, metadata and timestamp; the
    columns it does not name take their default, which is NULL for
    [previous_hash] and [current_hash].  [now] is [new Date()]. *)
Definition logAuditEvent (engine : Engine) (fault : option Js.Thrown) (now : Z)
    (event : AuditEvent) (log : AuditLog) : bool * AuditLog :=
  match fault with
  | Some _ => (false, log)
  | None =>
      let row :=
        {| id := lastId log + 1;
           rowTimestamp := match timestamp event with
                           | Some t => t
                           | None => now
                           end;
           event_type := eventType event;
           rowActor := actor event;
           rowResource := resource event;
           rowAction := action event;
           rowResult := resultText (result event);
           rowMetadata := match metadata event with
                          | Some m => Some (jsonStringify engine m)
                          | None => None
                          end;
           previous_hash := None;
           current_hash := None |} in
      (true, {| rows := rows log ++ [row]; lastId := lastId log + 1 |})
  end.

Definition emptyLog : AuditLog := {| rows := []; lastId := 0 |}.

Definition sampleEvent : AuditEvent :=
  {| eventType := "vp_token_received"; actor := None; resource := Some "session-1";
     action := "verify_presentation"; result := success;
     metadata := None; timestamp := Some 1767225600000 |}.

(** The log after the event is appended twice to the empty table. *)
Definition twoAppends : AuditLog :=
  snd (logAuditEvent SessionExamples.engine None 1767225600001 sampleEvent
         (snd (logAuditEvent SessionExamples.engine None 1767225600000
                 sampleEvent emptyLog))).

End AuditLogger.

(** Notions used to state the properties of the validators, and
    concrete collaborators used as inputs below. *)
Module ValidatorExamples.
Import TrustResolver.

(** The options with the trust check switched off. *)
Definition withoutTrustCheck (o : VCValidator.VCValidationOptions)
  : VCValidator.VCValidationOptions :=
  {| VCValidator.checkTrust := Some false;
     VCValidator.checkExpiration := VCValidator.checkExpiration o;
     VCValidator.checkRevocation := VCValidator.checkRevocation o;
     VCValidator.trustConfig := VCValidator.trustConfig o |}.

(** The options with the minimum-disclosure policy set or removed. *)
Definition withMinimum (m : option Z) (o : SDJWTValidator.SDJWTValidationOptions)
  : SDJWTValidator.SDJWTValidationOptions :=
  {| SDJWTValidator.checkTrust := SDJWTValidator.checkTrust o;
     SDJWTValidator.checkExpiration := SDJWTValidator.checkExpiration o;
     SDJWTValidator.trustConfig := SDJWTValidator.trustConfig o;
     SDJWTValidator.requireMinimumDisclosures := m |}.


(** The sentence of the specification on an untrusted issuer, at one
    call of [validateVC]: a credential that decodes, whose issuer
    resolves, whose signature verifies, that carries the required
    fields and is not expired, is valid under an enabled trust check
    that does not trust its issuer, and reported with [trusted:
    false]. *)
Definition untrustedIssuerSentence (engine : Engine) (services : Services)
    (fault : option Js.Thrown) (clock : Clock) (vcJWT : string)
    (options : VCValidator.VCValidationOptions) (cache : TrustAnchorCache) : Prop :=
  forall vcPayload issuerDID vc,
    orDefault (VCValidator.checkTrust options) true = true ->
    VCValidator.verifyCredential engine services clock vcJWT
      (VCValidator.trustConfig options) = Continue (vcPayload, issuerDID, vc) ->
    VCValidator.structureErrors vc = [] ->
    VCValidator.expiryErrors engine (orDefault (VCValidator.checkExpiration options) true)
      (expiryNow clock) (VCValidator.expirationOf vcPayload vc) = Js.Normal [] ->
    trusted (fst (isTrustedIssuerOf fault (trustNow clock) (trustToday clock) issuerDID
                    (VCValidator.trustConfig options) cache)) = false ->
    VCValidator.valid
      (fst (VCValidator.validateVC engine services fault clock vcJWT options cache)) = true /\
    VCValidator.trusted
      (fst (VCValidator.validateVC engine services fault clock vcJWT options cache))
      = Some false.

(** The sentence of the specification on the minimum-disclosure
    policy, at one call of [validateSDJWT]: a token that decodes,
    whose issuer resolves, whose signature verifies and that is not
    expired, is valid under a positive minimum that its disclosed
    claims do not reach. *)
Definition minimumDisclosureSentence (engine : Engine) (services : Services)
    (fault : option Js.Thrown) (clock : Clock) (token : string)
    (options : SDJWTValidator.SDJWTValidationOptions) (cache : TrustAnchorCache) : Prop :=
  forall decoded issuerDID verifiedPayload m,
    SDJWTValidator.requireMinimumDisclosures options = Some m ->
    0 < m ->
    SDJWTValidator.verifyToken services clock token (SDJWTValidator.trustConfig options)
      = Js.Normal (Continue (decoded, issuerDID, verifiedPayload)) ->
    SDJWTValidator.expiryErrors engine
      (orDefault (SDJWTValidator.checkExpiration options) true) (expiryNow clock)
      (Js.getOpt (SDJWTValidator.payloadOf verifiedPayload) "exp") = Js.Normal [] ->
    SDJWTValidator.countOf (SDJWTValidator.disclosedClaimsOf decoded) < m ->
    SDJWTValidator.valid
      (fst (SDJWTValidator.validateSDJWT engine services fault clock token options cache))
      = true.


Definition credentialPayload : Js.Value :=
  Js.Obj [("iss", Js.Str "did:example:unlisted");
          ("exp", Js.Num 1900000000);
          ("vc", Js.Obj
             [("@context", Js.Arr [Js.Str "https://www.w3.org/2018/credentials/v1"]);
              ("type", Js.Arr [Js.Str "VerifiableCredential"]);
              ("credentialSubject", Js.Obj [("id", Js.Str "did:example:holder")])])].

(** The same credential with an issuance date that is an object with a
    property [toString]. *)
Definition oddCredentialPayload : Js.Value :=
  Js.Obj [("iss", Js.Str "did:example:unlisted");
          ("exp", Js.Num 1900000000);
          ("vc", Js.Obj
             [("@context", Js.Arr [Js.Str "https://www.w3.org/2018/credentials/v1"]);
              ("type", Js.Arr [Js.Str "VerifiableCredential"]);
              ("credentialSubject", Js.Obj [("id", Js.Str "did:example:holder")]);
              ("issuanceDate", Js.Obj [("toString", Js.Num 1)])])].

(** A payload issued at 10^20 seconds, beyond the range of [Date]. *)
Definition farIssuedPayload : Js.Value :=
  Js.Obj [("iss", Js.Str "did:example:unlisted");
          ("iat", Js.Num 100000000000000000000)].

(** The proleptic Gregorian date (year, month from 0, day) of a time
    value, in UTC. *)
Definition civil (ms : Z) : Z * Z * Z :=
  let z := ms / 86400000 + 719468 in
  let era := z / 146097 in
  let doe := z - era * 146097 in
  let yoe := (doe - doe / 1460 + doe / 36524 - doe / 146096) / 365 in
  let doy := doe - (365 * yoe + yoe / 4 - yoe / 100) in
  let mp := (5 * doy + 2) / 153 in
  let m := if mp <? 10 then mp + 3 else mp - 9 in
  (yoe + era * 400 + (if m <=? 2 then 1 else 0), m - 1, doy - (153 * mp + 2) / 5 + 1).

(** An engine in the time zone UTC whose JSON parser returns [payload]
    and whose date parser knows two dates. *)
Definition engineFor (payload : Js.Value) : Engine :=
  {| jsonParse := fun _ => Js.Normal payload;
     jsonStringify := fun _ => "{}";
     dateOfValue := fun v => match v with
                             | Js.Str "2000-05-20" => Some 958780800000
                             | Js.Str "2008-01-15" => Some 1200355200000
                             | _ => None
                             end;
     isoString := fun t => Js.showZ t;
     localYear := fun t => fst (fst (civil t));
     localMonth := fun t => snd (fst (civil t));
     localDay := fun t => snd (civil t);
     base64ToUtf8 := fun s => s;
     numberOfValue := fun _ => None;
     stringOfValue := fun v => match v with
                               | Js.Str x => x
                               | Js.Num n => Js.showZ n
                               | _ => "[object Object]"
                               end |}.

Definition engine : Engine := engineFor credentialPayload.

Definition issuerKey : JWK :=
  [("kty", Js.Str "EC"); ("crv", Js.Str "P-256")].

Definition issuerDocument : DIDDocument :=
  {| didContext := Js.Str "https://www.w3.org/ns/did/v1";
     didId := "did:example:unlisted";
     verificationMethod :=
       Some [{| vmId := "did:example:unlisted#keys-1"; vmType := "JsonWebKey2020";
                controller := "did:example:unlisted";
                publicKeyJwk := Js.Present issuerKey; publicKeyMultibase := None |}];
     authentication := None;
     assertionMethod := Some [inl "did:example:unlisted#keys-1"];
     service := None |}.

(** A decoded token of the issuer with the given disclosed claims. *)
Definition tokenWith (disclosures : list (string * Js.Value)) : Js.Value :=
  Js.Obj [("jwt", Js.Obj [("payload", Js.Obj [("iss", Js.Str "did:example:unlisted")])]);
          ("disclosures", Js.Obj disclosures)].

(** A token whose only disclosed claim is [age_over_21: true]. *)
Definition decodedToken : Js.Value := tokenWith [("age_over_21", Js.Bool true)].




(** Collaborators that resolve every issuer to [issuerDocument],
    accept every signature with the payload [payload], and decode
    every token to [decoded], at any time. *)
Definition servicesFor (decoded payload : Js.Value) : Services :=
  {| resolveDID := fun _ _ _ =>
       {| success := true; document := Some issuerDocument; resolutionError := None |};
     verifyJWTWithJWK := fun _ _ _ =>
       {| jwtValid := true; jwtPayload := Some payload;
          jwtHeader := None; jwtError := None |};
     sdJwtDecode := fun _ => Js.Normal decoded |}.

Definition services : Services := servicesFor decodedToken credentialPayload.

(** The readings of the clock on 2026-01-01, a millisecond apart. *)
Definition clock : Clock :=
  {| resolveNow := 1767225599998; verifyNow := 1767225599999;
     expiryNow := 1767225600000; trustNow := 1767225600001;
     trustToday := 1767225600002; ageToday := 1767225600003 |}.

Definition credentialToken : string := "eyJhbGciOiJFUzI1NiJ9.eyJpc3MiOiJkaWQifQ.c2ln".

Definition disclosureToken : string :=
  "eyJhbGciOiJFUzI1NiJ9.eyJpc3MiOiJkaWQifQ.c2ln~WyJzYWx0IiwiYWdlX292ZXJfMjEiLHRydWVd~".

(** The validation of the credential with the default options. *)
Definition credentialRun :=
  VCValidator.validateVC engine services None clock credentialToken
    VCValidator.noOptions ∅.

(** The validation of the credential with the odd issuance date. *)
Definition oddCredentialRun :=
  VCValidator.validateVC (engineFor oddCredentialPayload)
    (servicesFor decodedToken oddCredentialPayload) None clock credentialToken
    VCValidator.noOptions ∅.

(** The validation of the token under a minimum of three disclosures. *)
Definition minimumOptions : SDJWTValidator.SDJWTValidationOptions :=
  withMinimum (Some 3) SDJWTValidator.ageOptions.

Definition disclosureRun :=
  SDJWTValidator.validateSDJWT engine services None clock disclosureToken
    minimumOptions ∅.

(** The same validation of a token whose payload was issued at 10^20
    seconds. *)
Definition farIssuedRun :=
  SDJWTValidator.validateSDJWT engine (servicesFor decodedToken farIssuedPayload) None
    clock disclosureToken minimumOptions ∅.

End ValidatorExamples.

(* ================================================================== *)
(** * The matcher on the values it is handed at run time              *)
(* ================================================================== *)

(** The types of lib/presentationDefinition.ts are erased at run time:
    the direct-post route hands [evaluatePresentationSubmission] the
    payload of the wallet's token and the definition read back from
    the database, both arbitrary JSON.  This is the same function on
    values, with every property access and method call the source
    performs, and the exceptions they raise. *)
Module RawMatcher.
Import PresentationDefinition.

(** [a === b] for values read from two different JSON documents (the
    token and the stored definition): two arrays or objects are never
    the same object.  [Array.prototype.includes] compares the same way
    on such values. *)
Definition strictEq (a b : Js.Value) : bool :=
  match a, b with
  | Js.Undefined, Js.Undefined => true
  | Js.Null, Js.Null => true
  | Js.Bool x, Js.Bool y => Bool.eqb x y
  | Js.Num x, Js.Num y => x =? y
  | Js.Str x, Js.Str y => String.eqb x y
  | _, _ => false
  end.

(** The result; a matched identifier is whatever value the descriptor
    carries as [id]. *)
Record RawEvaluation := {
  rawValid : bool;
  rawErrors : option (list string);
  rawMatched : option (list Js.Value)
}.

(** [credentials[i]] for an index [i] that is not negative (exact for
    indices below 2^53). *)
Definition elementAt (credentials : Js.Value) (i : Z) : Js.Value :=
  if i <? 0 then Js.Undefined
  else
    match credentials with
    | Js.Arr items =>
        match nth_error items (Z.to_nat i) with
        | Some c => c
        | None => Js.Undefined
        end
    | Js.Str s =>
        match String.get (Z.to_nat i) s with
        | Some c => Js.Str (String c EmptyString)
        | None => Js.Undefined
        end
    | Js.Obj props => Js.assoc (Js.showZ i) props
    | _ => Js.Undefined
    end.

(** [extractIndexFromPath(path)] on a value: [path.match] exists on
    strings only. *)
Definition pathIndex (path : Js.Value) : Js.Completion Z :=
  match path with
  | Js.Str p => Js.Normal (extractIndexFromPath p)
  | Js.Undefined =>
      Js.Throw (Js.ErrorObject "Cannot read properties of undefined (reading 'match')")
  | Js.Null =>
      Js.Throw (Js.ErrorObject "Cannot read properties of null (reading 'match')")
  | _ => Js.Throw (Js.ErrorObject "path.match is not a function")
  end.

(** The callback of [find], over the entries that are left. *)
Fixpoint findEntry (descriptor : Js.Value) (entries : list Js.Value)
  : Js.Completion Js.Value :=
  match entries with
  | [] => Js.Normal Js.Undefined
  | m :: rest =>
      let! entryId := Js.get m "id" in
      let! descriptorId := Js.get descriptor "id" in
      if strictEq entryId descriptorId then Js.Normal m else findEntry descriptor rest
  end.

(** [submission.descriptor_map.find((m) => m.id === descriptor.id)]
    for a truthy [submission]. *)
Definition findMappingRaw (submission descriptor : Js.Value) : Js.Completion Js.Value :=
  match Js.getOpt submission "descriptor_map" with
  | Js.Arr entries => findEntry descriptor entries
  | Js.Undefined =>
      Js.Throw (Js.ErrorObject "Cannot read properties of undefined (reading 'find')")
  | Js.Null =>
      Js.Throw (Js.ErrorObject "Cannot read properties of null (reading 'find')")
  | _ => Js.Throw (Js.ErrorObject "submission.descriptor_map.find is not a function")
  end.

(** [fs.some((f) => f.optional)] *)
Fixpoint someLoop (fs : list Js.Value) : Js.Completion bool :=
  match fs with
  | [] => Js.Normal false
  | f :: rest =>
      let! opt := Js.get f "optional" in
      if Js.truthy opt then Js.Normal true else someLoop rest
  end.

(** [fs.every((f) => f.optional)] *)
Fixpoint everyLoop (fs : list Js.Value) : Js.Completion bool :=
  match fs with
  | [] => Js.Normal true
  | f :: rest =>
      let! opt := Js.get f "optional" in
      if Js.truthy opt then everyLoop rest else Js.Normal false
  end.

(** [fields?.some(...)] and [fields?.every(...)] as conditions. *)
Definition viaOptional (method : string) (loop : list Js.Value -> Js.Completion bool)
    (fields : Js.Value) : Js.Completion bool :=
  match fields with
  | Js.Undefined | Js.Null => Js.Normal false
  | Js.Arr fs => loop fs
  | _ => Js.Throw (Js.ErrorObject ("descriptor.constraints.fields." +:+ method
                                     +:+ " is not a function"))
  end.

(** [descriptor.constraints.fields] *)
Definition fieldsOf (descriptor : Js.Value) : Js.Completion Js.Value :=
  let! constraints := Js.get descriptor "constraints" in
  Js.get constraints "fields".

(** The elements a [for...of] visits. *)
Definition iterate (v : Js.Value) : Js.Completion (list Js.Value) :=
  match v with
  | Js.Arr items => Js.Normal items
  | Js.Str s =>
      Js.Normal (map (fun c => Js.Str (String c EmptyString))
                     (Stdlib.Strings.String.list_ascii_of_string s))
  | _ => Js.Throw (Js.ErrorObject "pd.input_descriptors is not iterable")
  end.

Section WithEngine.
Context (engine : Engine).

(** A value inside a template literal: ToString, which throws on an
    array or object without text. *)
Definition text (v : Js.Value) : Js.Completion string :=
  match v with
  | Js.Undefined => Js.Normal "undefined"
  | Js.Null => Js.Normal "null"
  | Js.Bool true => Js.Normal "true"
  | Js.Bool false => Js.Normal "false"
  | Js.Num n => Js.Normal (Js.showZ n)
  | Js.Str s => Js.Normal s
  | _ =>
      if Js.unprintable v then Js.Throw Js.noPrimitive
      else Js.Normal (stringOfValue engine v)
  end.

(** The body of the [try] of one iteration: the index of the path,
    and either the error of a credential that is not there or the
    identifier to add to the matched ones. *)
Definition resolveMapping (credentials descriptor path : Js.Value)
  : Js.Completion (string + Js.Value) :=
  let! credentialIndex := pathIndex path in
  if (credentialIndex =? -1) || negb (Js.truthy (elementAt credentials credentialIndex))
  then
    let! pathText := text path in
    let! idText := text (Js.getOpt descriptor "id") in
    Js.Normal (inl ("Credential not found at path " +:+ pathText
                      +:+ " for descriptor " +:+ idText))
  else Js.Normal (inr (Js.getOpt descriptor "id")).

(** One iteration of the loop over [pd.input_descriptors].  The
    messages are template literals, built outside the [try] but for
    the one of a credential that is not there. *)
Definition stepRaw (submission credentials : Js.Value)
    (acc : list string * list Js.Value) (descriptor : Js.Value)
  : Js.Completion (list string * list Js.Value) :=
  let '(errs, matched) := acc in
  let! mapping := findMappingRaw submission descriptor in
  if negb (Js.truthy mapping)
  then
    let! fields := fieldsOf descriptor in
    let! someOptional := viaOptional "some" someLoop fields in
    if negb someOptional
    then
      let! idText := text (Js.getOpt descriptor "id") in
      Js.Normal (errs ++ ["No mapping found for required descriptor: " +:+ idText], matched)
    else Js.Normal (errs, matched)
  else
    let path := Js.getOpt mapping "path" in
    match resolveMapping credentials descriptor path with
    | Js.Throw t =>
        let! pathText := text path in
        Js.Normal (errs ++ ["Error evaluating path " +:+ pathText +:+ ": "
                              +:+ Js.messageOr "Unknown error" t], matched)
    | Js.Normal (inl notFound) => Js.Normal (errs ++ [notFound], matched)
    | Js.Normal (inr matchedId) => Js.Normal (errs, matched ++ [matchedId])
    end.

Fixpoint loopRaw (submission credentials : Js.Value) (descriptors : list Js.Value)
    (acc : list string * list Js.Value)
  : Js.Completion (list string * list Js.Value) :=
  match descriptors with
  | [] => Js.Normal acc
  | d :: rest =>
      let! acc' := stepRaw submission credentials acc d in
      loopRaw submission credentials rest acc'
  end.

(** The callback of [filter], over the descriptors that are left. *)
Fixpoint requiredLoop (descriptors : list Js.Value) : Js.Completion (list Js.Value) :=
  match descriptors with
  | [] => Js.Normal []
  | d :: rest =>
      let! fields := fieldsOf d in
      let! everyOptional := viaOptional "every" everyLoop fields in
      let! more := requiredLoop rest in
      Js.Normal (if negb everyOptional then d :: more else more)
  end.

(** [pd.input_descriptors.filter(...)]: only an array has [filter]. *)
Definition requiredOf (descriptors : Js.Value) : Js.Completion (list Js.Value) :=
  match descriptors with
  | Js.Arr ds => requiredLoop ds
  | _ => Js.Throw (Js.ErrorObject "pd.input_descriptors.filter is not a function")
  end.

(** [vp.verifiable_credential || vp.verifiableCredential || []] *)
Definition credentialsOfRaw (vp : Js.Value) : Js.Value :=
  Js.or (Js.getOpt vp "verifiable_credential")
        (Js.or (Js.getOpt vp "verifiableCredential") (Js.Arr [])).

(** [evaluatePresentationSubmission(vp, pd)] on values. *)
Definition rawEvaluate (vp pd : Js.Value) : Js.Completion RawEvaluation :=
  let! submission := Js.get vp "presentation_submission" in
  if negb (Js.truthy submission)
  then Js.Normal {| rawValid := false;
                    rawErrors := Some ["Missing presentation_submission in VP"];
                    rawMatched := None |}
  else
    let definitionId := Js.getOpt submission "definition_id" in
    let! expected := Js.get pd "id" in
    if negb (strictEq definitionId expected)
    then
      let! expectedText := text expected in
      let! definitionText := text definitionId in
      Js.Normal {| rawValid := false;
                   rawErrors := Some ["Definition ID mismatch: expected " +:+ expectedText
                                        +:+ ", got " +:+ definitionText];
                   rawMatched := None |}
    else
      let credentials := credentialsOfRaw vp in
      let! descriptors := iterate (Js.getOpt pd "input_descriptors") in
      let! acc := loopRaw submission credentials descriptors ([], []) in
      let! requiredDescriptors := requiredOf (Js.getOpt pd "input_descriptors") in
      let allRequiredMatched :=
        forallb (fun d => existsb (fun x => strictEq x (Js.getOpt d "id")) (snd acc))
                requiredDescriptors in
      let errs := if allRequiredMatched then fst acc else fst acc ++ [msgNotAll] in
      match errs with
      | [] => Js.Normal {| rawValid := true; rawErrors := None;
                           rawMatched := Some (snd acc) |}
      | _ :: _ => Js.Normal {| rawValid := false; rawErrors := Some errs;
                               rawMatched := Some (snd acc) |}
      end.

End WithEngine.

(** The JSON of the typed records: what [JSON.stringify] and
    [JSON.parse] make of a value of the declared type; an absent
    field is left out. *)
Fixpoint omit (entries : list (string * option Js.Value)) : list (string * Js.Value) :=
  match entries with
  | [] => []
  | (k, Some v) :: rest => (k, v) :: omit rest
  | (_, None) :: rest => omit rest
  end.

Definition fieldValue (f : Field) : Js.Value :=
  Js.Obj (omit [("path", Some (Js.Arr (map Js.Str (path f))));
                ("filter", filter f);
                ("purpose", option_map Js.Str (fieldPurpose f));
                ("predicate", option_map Js.Str (predicate f));
                ("optional", option_map Js.Bool (optional f))]).

Definition constraintsValue (c : Constraints) : Js.Value :=
  Js.Obj (omit [("fields", option_map (fun fs => Js.Arr (map fieldValue fs)) (fields c));
                ("limit_disclosure", option_map Js.Str (limit_disclosure c))]).

Definition descriptorValue (d : InputDescriptor) : Js.Value :=
  Js.Obj (omit [("id", Some (Js.Str (id d)));
                ("constraints", Some (constraintsValue (constraints d)));
                ("name", option_map Js.Str (name d));
                ("purpose", option_map Js.Str (purpose d));
                ("format", format d)]).

Definition definitionValue (pd : PresentationDefinition) : Js.Value :=
  Js.Obj (omit [("id", Some (Js.Str (pdId pd)));
                ("input_descriptors", Some (Js.Arr (map descriptorValue (input_descriptors pd))));
                ("name", option_map Js.Str (pdName pd));
                ("purpose", option_map Js.Str (pdPurpose pd));
                ("format", pdFormat pd);
                ("submission_requirements", option_map Js.Arr (submission_requirements pd))]).

Definition nestedValue (n : NestedPath) : Js.Value :=
  Js.Obj [("id", Js.Str (nestedId n)); ("format", Js.Str (nestedFormat n));
          ("path", Js.Str (nestedPath n))].

Definition entryValue (m : DescriptorMapEntry) : Js.Value :=
  Js.Obj (omit [("id", Some (Js.Str (mapId m)));
                ("format", Some (Js.Str (mapFormat m)));
                ("path", Some (Js.Str (mapPath m)));
                ("path_nested", option_map nestedValue (path_nested m))]).

Definition submissionValue (s : PresentationSubmission) : Js.Value :=
  Js.Obj [("id", Js.Str (psId s)); ("definition_id", Js.Str (definition_id s));
          ("descriptor_map", Js.Arr (map entryValue (descriptor_map s)))].

Definition presentationValue (vp : VerifiablePresentation) : Js.Value :=
  Js.Obj (omit [("presentation_submission",
                 option_map submissionValue (presentation_submission vp));
                ("verifiable_credential", option_map Js.Arr (verifiable_credential vp));
                ("verifiableCredential", option_map Js.Arr (verifiableCredential vp));
                ("@context", Some (context vp));
                ("type", Some (vpType vp));
                ("holder", option_map Js.Str (holder vp));
                ("proof", proof vp)]).

Definition evaluationValue (e : Evaluation) : RawEvaluation :=
  {| rawValid := valid e; rawErrors := errors e;
     rawMatched := option_map (map Js.Str) (matchedDescriptors e) |}.

End RawMatcher.

(* ================================================================== *)
(** * routes/directPost.ts                                            *)
(* ================================================================== *)

Module DirectPost.
Import SessionService.

(** What the route reaches outside the repository: jose's decoders
    behind [decodeJWT], and the text the database driver sends for a
    query parameter that is not a string. *)
Record Host := {
  joseDecodeJwt : Js.Value -> Js.Completion Js.Value;
  joseDecodeProtectedHeader : Js.Value -> Js.Completion Js.Value;
  parameterText : Js.Value -> string
}.

(** A query parameter as the database receives it: a string is sent
    as it is. *)
Definition parameter (host : Host) (v : Js.Value) : string :=
  match v with
  | Js.Str s => s
  | _ => parameterText host v
  end.

(** [decodeJWT] of lib/jwt.ts. *)
Definition decodeJWT (host : Host) (token : Js.Value) : JWTVerificationResult :=
  let failure t :=
    {| jwtValid := false; jwtPayload := None; jwtHeader := None;
       jwtError := Some (Js.messageOr "Unknown error" t) |} in
  match joseDecodeJwt host token with
  | Js.Throw t => failure t
  | Js.Normal decoded =>
      match joseDecodeProtectedHeader host token with
      | Js.Throw t => failure t
      | Js.Normal header =>
          {| jwtValid := true; jwtPayload := Some decoded; jwtHeader := Some header;
             jwtError := None |}
      end
  end.

(** The outcomes of the statements of one request and its readings of
    the clocks: the [SELECT] and the expiry [UPDATE] of
    [getVPSessionByState], the [UPDATE] that marks the session failed,
    the [UPDATE] of [completeVPSession]. *)
Record Run := {
  selectFault : Fault;
  expireFault : Fault;
  failFault : Fault;
  completeFault : Fault;
  readNow : Z;
  dbNow : Z
}.

(** What the route sends: the status code and the JSON body. *)
Record HttpResponse := {
  statusCode : Z;
  json : Js.Value
}.

Definition errorResponse (code : Z) (err description : string) : HttpResponse :=
  {| statusCode := code;
     json := Js.Obj [("error", Js.Str err); ("error_description", Js.Str description)] |}.

(** The answer of the outer [catch]. *)
Definition serverError : HttpResponse :=
  errorResponse 500 "server_error" "Failed to process VP token".

Definition statusText (s : Status) : string :=
  match s with
  | pending => "pending"
  | completed => "completed"
  | expired => "expired"
  | failed => "failed"
  end.

(** [errors?.join(', ')] inside a template literal. *)
Definition joined (errs : option (list string)) : string :=
  match errs with
  | Some es => Js.join ", " es
  | None => "undefined"
  end.

(** [await updateSessionStatus(session.id, 'failed')] followed by a
    400 answer. *)
Definition reject (run : Run) (session : VPSession) (err description : string)
    (t : Table) : HttpResponse * Table :=
  (errorResponse 400 err description,
   snd (updateSessionStatus (failFault run) (sId session) failed t)).

(** [decoded.valid && decoded.payload], as the payload. *)
Definition payloadOf (decoded : JWTVerificationResult) : option Js.Value :=
  if jwtValid decoded
  then match jwtPayload decoded with
       | Some p => if Js.truthy p then Some p else None
       | None => None
       end
  else None.

Section WithHost.
Context (engine : Engine) (host : Host).

(** The request parameter [presentation_submission], parsed when it
    is a string; [None] when [JSON.parse] throws. *)
Definition parseSubmission (presentation_submission : Js.Value) : option Js.Value :=
  match presentation_submission with
  | Js.Str text =>
      match jsonParse engine text with
      | Js.Normal v => Some v
      | Js.Throw _ => None
      end
  | v => Some v
  end.

(** The body of the answer 200: the redirect address when the
    session has one, built with a template literal that holds the
    parameter [state]. *)
Definition successBody (session : VPSession) (state : Js.Value) : Js.Completion Js.Value :=
  let received :=
    Js.Obj [("status", Js.Str "success");
            ("message", Js.Str "VP token received and validated successfully")] in
  match sRedirectUri session with
  | Some uri =>
      if String.eqb uri EmptyString then Js.Normal received
      else
        let! stateText := RawMatcher.text engine state in
        Js.Normal (Js.Obj [("redirect_uri", Js.Str (uri +:+ "?state=" +:+ stateText))])
  | None => Js.Normal received
  end.

(** The part of the handler that follows the lookup of a pending
    session.  An exception reaches the outer [catch]; the one of the
    redirect address is raised after the session is completed. *)
Definition present (run : Run) (session : VPSession)
    (vp_token presentation_submission state : Js.Value) (t : Table)
  : HttpResponse * Table :=
  match payloadOf (decodeJWT host vp_token) with
  | None => reject run session "invalid_vp_token" "Failed to decode VP token" t
  | Some payload =>
      let vpPayload :=
        if Js.truthy (Js.getOpt payload "vp") then Js.getOpt payload "vp" else payload in
      match parseSubmission presentation_submission with
      | None => reject run session "invalid_request" "Invalid presentation_submission JSON" t
      | Some parsed =>
          let submissionData :=
            if negb (Js.truthy parsed)
               && Js.truthy (Js.getOpt vpPayload "presentation_submission")
            then Js.getOpt vpPayload "presentation_submission"
            else parsed in
          if negb (Js.truthy submissionData)
          then reject run session "invalid_request" "Missing presentation_submission" t
          else
            match PresentationDefinition.validatePresentationSubmission submissionData with
            | Js.Throw _ => (serverError, t)
            | Js.Normal submissionValidation =>
                if negb (PresentationDefinition.schemaValid submissionValidation)
                then reject run session "invalid_presentation_submission"
                       ("Invalid presentation_submission: "
                          +:+ joined (PresentationDefinition.schemaErrors
                                        submissionValidation)) t
                else
                  match RawMatcher.rawEvaluate engine vpPayload
                          (sPresentationDefinition session) with
                  | Js.Throw _ => (serverError, t)
                  | Js.Normal evaluation =>
                      if negb (RawMatcher.rawValid evaluation)
                      then reject run session "invalid_presentation"
                             ("Presentation does not match definition: "
                                +:+ joined (RawMatcher.rawErrors evaluation)) t
                      else
                        let completion :=
                          completeVPSession engine (completeFault run) (dbNow run)
                            (sId session) (parameter host vp_token) submissionData t in
                        if negb (fst completion)
                        then (errorResponse 500 "server_error" "Failed to complete session",
                              snd completion)
                        else
                          match successBody session state with
                          | Js.Normal body =>
                              ({| statusCode := 200; json := body |}, snd completion)
                          | Js.Throw _ => (serverError, snd completion)
                          end
                  end
            end
      end
  end.

(** The handler of [POST /direct_post] on the request body; the
    answer comes with the table of sessions as the request leaves
    it. *)
Definition directPost (run : Run) (body : Js.Value) (t : Table) : HttpResponse * Table :=
  match Js.get body "vp_token" with
  | Js.Throw _ => (serverError, t)
  | Js.Normal vp_token =>
      let presentation_submission := Js.getOpt body "presentation_submission" in
      let state := Js.getOpt body "state" in
      if negb (Js.truthy vp_token)
      then (errorResponse 400 "invalid_request" "Missing vp_token parameter", t)
      else if negb (Js.truthy state)
      then (errorResponse 400 "invalid_request" "Missing state parameter", t)
      else
        let lookup :=
          getVPSessionByState engine (selectFault run) (expireFault run) (readNow run)
            (parameter host state) t in
        match fst lookup with
        | None =>
            (errorResponse 400 "invalid_request" "Invalid or expired state parameter",
             snd lookup)
        | Some session =>
            if negb (statusEqb (sStatus session) pending)
            then (errorResponse 400 "invalid_request"
                    ("Session is " +:+ statusText (sStatus session) +:+ ", expected pending"),
                  snd lookup)
            else present run session vp_token presentation_submission state (snd lookup)
        end
  end.

(** The ways the handler leaves a pending session. *)
Inductive Presented (run : Run) (session : VPSession) (vp_token : Js.Value) (t : Table)
  : HttpResponse * Table -> Prop :=
| Rejected err description :
    Presented run session vp_token t
      (errorResponse 400 err description,
       snd (updateSessionStatus (failFault run) (sId session) failed t))
| Thrown :
    Presented run session vp_token t (serverError, t)
| ThrownLate submission :
    fst (completeVPSession engine (completeFault run) (dbNow run) (sId session)
           (parameter host vp_token) submission t) = true ->
    Presented run session vp_token t
      (serverError,
       snd (completeVPSession engine (completeFault run) (dbNow run) (sId session)
              (parameter host vp_token) submission t))
| NotCompleted submission :
    fst (completeVPSession engine (completeFault run) (dbNow run) (sId session)
           (parameter host vp_token) submission t) = false ->
    Presented run session vp_token t
      (errorResponse 500 "server_error" "Failed to complete session", t)
| Completed submission payload evaluation body :
    payloadOf (decodeJWT host vp_token) = Some payload ->
    Js.truthy submission = true ->
    PresentationDefinition.validatePresentationSubmission submission =
      Js.Normal {| PresentationDefinition.schemaValid := true;
                   PresentationDefinition.schemaErrors := None |} ->
    RawMatcher.rawEvaluate engine
      (if Js.truthy (Js.getOpt payload "vp") then Js.getOpt payload "vp" else payload)
      (sPresentationDefinition session) = Js.Normal evaluation ->
    RawMatcher.rawValid evaluation = true ->
    fst (completeVPSession engine (completeFault run) (dbNow run) (sId session)
           (parameter host vp_token) submission t) = true ->
    Presented run session vp_token t
      ({| statusCode := 200; json := body |},
       snd (completeVPSession engine (completeFault run) (dbNow run) (sId session)
              (parameter host vp_token) submission t)).
End WithHost.

(** The rows of a session: those with its identifier. *)
Definition rowsOf (sessionId : string) (t : Table) : list DBRow :=
  List.filter (fun r => String.eqb (id r) sessionId) t.

End DirectPost.

(** A request to the direct-post route and the session it answers. *)
Module DirectPostExamples.
Import SessionService.
Import DirectPost.

Definition definition : Js.Value := RawMatcher.definitionValue MatcherExamples.pdScenario.

Definition presentation : Js.Value := RawMatcher.presentationValue MatcherExamples.vpScenario.

Definition submission : Js.Value :=
  RawMatcher.submissionValue
    (MatcherExamples.submission
       [MatcherExamples.entry "id_credential" "$.verifiableCredential[0]"]).

Definition host : Host :=
  {| joseDecodeJwt := fun _ => Js.Normal (Js.Obj [("vp", presentation)]);
     joseDecodeProtectedHeader := fun _ => Js.Normal (Js.Obj [("alg", Js.Str "ES256")]);
     parameterText := fun _ => "[object Object]" |}.

Definition session1 : DBRow :=
  {| id := "s1"; state := "state-1"; nonce := "nonce-1";
     presentation_definition := inr definition;
     redirect_uri := Some "https://rp.example/callback"; client_id := None;
     response_mode := Some "direct_post";
     created_at := 1000; expires_at := 901000; status := pending;
     vp_token := None; presentation_submission := None; completed_at := None |}.

Definition table : Table := [session1].

Definition run : Run :=
  {| selectFault := None; expireFault := None; failFault := None; completeFault := None;
     readNow := 7000; dbNow := 7001 |}.

Definition request : Js.Value :=
  Js.Obj [("vp_token", Js.Str "eyJhbGciOiJFUzI1NiJ9.eyJ2cCI6e319.c2ln");
          ("state", Js.Str "state-1");
          ("presentation_submission", submission)].

(** The same request with a descriptor map that is not an array. *)
Definition brokenRequest : Js.Value :=
  Js.Obj [("vp_token", Js.Str "eyJhbGciOiJFUzI1NiJ9.eyJ2cCI6e319.c2ln");
          ("state", Js.Str "state-1");
          ("presentation_submission",
           Js.Obj [("id", Js.Str "ps-1"); ("definition_id", Js.Str "pd-1");
                   ("descriptor_map", Js.Str "none")])].

(** A request whose submission names another definition. *)
Definition mismatchedRequest : Js.Value :=
  Js.Obj [("vp_token", Js.Str "eyJhbGciOiJFUzI1NiJ9.eyJ2cCI6e319.c2ln");
          ("state", Js.Str "state-1");
          ("presentation_submission",
           Js.Obj [("id", Js.Str "ps-1"); ("definition_id", Js.Str "pd-1")])].

End DirectPostExamples.

(* ================================================================== *)
(** * Properties of the presentation matcher                          *)
(* ================================================================== *)

Module JsFacts.

Example parseInt_digits : Js.parseInt "21" = Some 21.
Proof. reflexivity. Qed.

Example parseInt_stops_at_letter : Js.parseInt "21abc" = Some 21.
Proof. reflexivity. Qed.

Example parseInt_sign_and_space : Js.parseInt " -7" = Some (-7).
Proof. reflexivity. Qed.

Example parseInt_nan : Js.parseInt "abc" = None /\ Js.parseInt EmptyString = None.
Proof. split; reflexivity. Qed.

Example splitOn_three : Js.splitOn "."%char "a.b.c" = ["a"; "b"; "c"].
Proof. reflexivity. Qed.

Example splitOn_trailing : Js.splitOn "~"%char "jwt~d1~" = ["jwt"; "d1"; EmptyString].
Proof. reflexivity. Qed.

Example showZ_values : Js.showZ 0 = "0" /\ Js.showZ 18 = "18" /\ Js.showZ (-5) = "-5".
Proof. repeat split; reflexivity. Qed.

Example keys_of_array : Js.keys (Js.Arr [Js.Null; Js.Null]) = ["0"; "1"].
Proof. reflexivity. Qed.

End JsFacts.

Module PresentationDefinitionFacts.
Import PresentationDefinition.

Example extractIndex_first : extractIndexFromPath "$.verifiableCredential[0]" = 0.
Proof. reflexivity. Qed.

Example extractIndex_skips_names : extractIndexFromPath "$.vp[a].vc[12][3]" = 12.
Proof. reflexivity. Qed.

Example extractIndex_no_match :
  extractIndexFromPath "$.verifiableCredential" = -1 /\
  extractIndexFromPath "$[1" = -1 /\ extractIndexFromPath "$[]" = -1.
Proof. repeat split; reflexivity. Qed.

Example extractIndex_leading_zeros : extractIndexFromPath "[[007]" = 7.
Proof. reflexivity. Qed.

Lemma includes_In xs x : includes xs x = true <-> In x xs.
Proof.
  unfold includes. rewrite existsb_exists. split.
  - intros (y & Hy & He). apply String.eqb_eq in He. now subst.
  - intros H. exists x. split; [assumption | apply String.eqb_refl].
Qed.

Lemma stepErrors_spec s cs acc d :
  descriptorStep s cs acc d =
    (fst acc ++ stepErrors s cs d,
     snd acc ++ (if resolves s cs d then [id d] else [])).
Proof.
  destruct acc as [errs matched]. unfold descriptorStep, stepErrors, resolves. simpl.
  destruct (findMapping s d) as [m|].
  - destruct ((extractIndexFromPath (mapPath m) =? -1)
              || negb (credentialAt cs (extractIndexFromPath (mapPath m)))); simpl;
      now rewrite ?app_nil_r.
  - destruct (someOptional d); simpl; now rewrite ?app_nil_r.
Qed.

(** The loop, in closed form. *)
Lemma fold_descriptorStep s cs ds : forall errs matched,
  fold_left (descriptorStep s cs) ds (errs, matched) =
    (errs ++ flat_map (stepErrors s cs) ds,
     matched ++ map id (List.filter (resolves s cs) ds)).
Proof.
  induction ds as [|d ds IH]; intros errs matched; cbn [fold_left].
  - simpl. now rewrite !app_nil_r.
  - rewrite stepErrors_spec. cbn [fst snd]. rewrite IH. simpl.
    rewrite <- !app_assoc. destruct (resolves s cs d); reflexivity.
Qed.

Lemma evaluate_unfold vp pd s :
  presentation_submission vp = Some s ->
  definition_id s = pdId pd ->
  evaluatePresentationSubmission vp pd =
    let errs := flat_map (stepErrors s (credentialsOf vp)) (input_descriptors pd) in
    let matched := resolvedIds s (credentialsOf vp) pd in
    let errs' :=
      if forallb (fun d => includes matched (id d))
           (List.filter (fun d => negb (everyOptional d)) (input_descriptors pd))
      then errs else errs ++ [msgNotAll] in
    match errs' with
    | [] => {| valid := true; errors := None; matchedDescriptors := Some matched |}
    | _ :: _ => {| valid := false; errors := Some errs'; matchedDescriptors := Some matched |}
    end.
Proof.
  intros Hs Hid. unfold evaluatePresentationSubmission. rewrite Hs, Hid.
  rewrite String.eqb_refl. simpl negb. cbv iota.
  rewrite fold_descriptorStep. reflexivity.
Qed.

Lemma resolvedIds_In s cs pd x :
  In x (resolvedIds s cs pd) <->
  exists d, In d (input_descriptors pd) /\ resolves s cs d = true /\ id d = x.
Proof.
  unfold resolvedIds. rewrite in_map_iff. split.
  - intros (d & He & Hd). apply filter_In in Hd. destruct Hd. eauto.
  - intros (d & Hd & Hr & He). exists d. split; [assumption|].
    apply filter_In. auto.
Qed.

(** A mapping is found by identifier only: descriptors that share an
    identifier share their mapping. *)
Lemma findMapping_id s d d' : id d = id d' -> findMapping s d = findMapping s d'.
Proof. unfold findMapping. now intros ->. Qed.

Lemma resolves_id s cs d d' : id d = id d' -> resolves s cs d = resolves s cs d'.
Proof. intros H. unfold resolves. now rewrite (findMapping_id s d d' H). Qed.

Lemma flat_map_nil {A B} (f : A -> list B) (l : list A) :
  (forall x, In x l -> f x = []) -> flat_map f l = [].
Proof.
  induction l as [|a l IH]; intros H; simpl; [reflexivity|].
  rewrite (H a (or_introl eq_refl)). apply IH. intros x Hx. apply H. now right.
Qed.

Lemma required_matched_when_resolved s cs pd :
  (forall d, In d (input_descriptors pd) -> everyOptional d = false ->
             resolves s cs d = true) ->
  forallb (fun d => includes (resolvedIds s cs pd) (id d))
    (List.filter (fun d => negb (everyOptional d)) (input_descriptors pd)) = true.
Proof.
  intros H. apply forallb_forall. intros d Hd. apply filter_In in Hd.
  destruct Hd as [Hd Hreq]. apply negb_true_iff in Hreq.
  apply includes_In, resolvedIds_In. exists d. auto.
Qed.

(** The scenario of the specification evaluates to a success that
    matches the single descriptor. *)
Example scenario_matches_id_credential :
  evaluatePresentationSubmission MatcherExamples.vpScenario MatcherExamples.pdScenario =
    {| valid := true; errors := None; matchedDescriptors := Some ["id_credential"] |}.
Proof. reflexivity. Qed.

(** C2, as the specification states it, fails: with a required
    descriptor resolved and an optional descriptor mapped to a
    credential that is not in the presentation, every non-optional
    descriptor resolves and yet the evaluation is not valid. *)
Lemma satisfied_triple_sentence_fails :
  ~ satisfiedTripleSentence MatcherExamples.vpDangling MatcherExamples.pdOptional.
Proof.
  intros H.
  destruct (H (MatcherExamples.submission
                 [MatcherExamples.entry "id_credential" "$.verifiableCredential[0]";
                  MatcherExamples.entry "loyalty_card" "$.verifiableCredential[5]"])
              eq_refl eq_refl) as [Hvalid _].
  - intros d [<-|[<-|[]]] Hreq; [reflexivity | discriminate Hreq].
  - vm_compute in Hvalid. discriminate Hvalid.
Qed.

(** C2 (amended).  When the submission names the definition, every
    non-optional descriptor resolves to an existing credential, and
    every wholly optional descriptor is either mapped to an existing
    credential or unmapped with an optional field, the evaluation is
    [valid: true] without errors; [matchedDescriptors] lists, in the
    order of the definition, the descriptors whose mapping resolves.
    That list contains every non-optional identifier, and is the list
    of non-optional identifiers when no wholly optional descriptor is
    mapped. *)
Theorem evaluate_valid_when_selected_mappings_resolve vp pd s :
  presentation_submission vp = Some s ->
  definition_id s = pdId pd ->
  (forall d, In d (input_descriptors pd) -> everyOptional d = false ->
             resolves s (credentialsOf vp) d = true) ->
  (forall d, In d (input_descriptors pd) -> everyOptional d = true ->
             match findMapping s d with
             | Some _ => resolves s (credentialsOf vp) d
             | None => someOptional d
             end = true) ->
  evaluatePresentationSubmission vp pd =
    {| valid := true; errors := None;
       matchedDescriptors := Some (resolvedIds s (credentialsOf vp) pd) |} /\
  (forall x, In x (requiredIds pd) -> In x (resolvedIds s (credentialsOf vp) pd)) /\
  ((forall d, In d (input_descriptors pd) -> everyOptional d = true ->
              findMapping s d = None) ->
   resolvedIds s (credentialsOf vp) pd = requiredIds pd).
Proof.
  intros Hs Hid Hreq Hopt.
  assert (Hnil : flat_map (stepErrors s (credentialsOf vp)) (input_descriptors pd) = []).
  { apply flat_map_nil. intros d Hd. unfold stepErrors.
    destruct (everyOptional d) eqn:He.
    - specialize (Hopt d Hd He). destruct (findMapping s d); now rewrite Hopt.
    - specialize (Hreq d Hd He). rewrite Hreq.
      unfold resolves in Hreq. destruct (findMapping s d); [reflexivity | discriminate]. }
  split; [|split].
  - rewrite (evaluate_unfold vp pd s Hs Hid). cbv zeta.
    rewrite (required_matched_when_resolved _ _ _ Hreq), Hnil. reflexivity.
  - intros x Hx. unfold requiredIds in Hx. apply in_map_iff in Hx.
    destruct Hx as (d & <- & Hd). apply filter_In in Hd. destruct Hd as [Hd Hr].
    apply negb_true_iff in Hr. apply resolvedIds_In. exists d. auto.
  - intros Hunmapped. unfold resolvedIds, requiredIds. f_equal.
    apply filter_ext_in. intros d Hd. destruct (everyOptional d) eqn:He; simpl.
    + unfold resolves. now rewrite (Hunmapped d Hd He).
    + now apply Hreq.
Qed.

(** The definition with a required and an optional descriptor, the
    submission mapping the required one only: valid, one match. *)
Lemma evaluate_valid_when_selected_mappings_resolve_witness :
  evaluatePresentationSubmission MatcherExamples.vpRequiredOnly MatcherExamples.pdOptional =
    {| valid := true; errors := None; matchedDescriptors := Some ["id_credential"] |} /\
  (forall x, In x (requiredIds MatcherExamples.pdOptional) -> In x ["id_credential"]).
Proof.
  pose proof (evaluate_valid_when_selected_mappings_resolve
    MatcherExamples.vpRequiredOnly MatcherExamples.pdOptional
    (MatcherExamples.submission
       [MatcherExamples.entry "id_credential" "$.verifiableCredential[0]"])
    eq_refl eq_refl) as H.
  destruct H as (H1 & H2 & _).
  - intros d [<-|[<-|[]]] Hreq; [reflexivity | discriminate Hreq].
  - intros d [<-|[<-|[]]] Hopt; [discriminate Hopt | reflexivity].
  - split; [exact H1 | exact H2].
Defined.

(** Where the matcher agrees with the rule for a descriptor without
    an entry in the descriptor map.  When its fields are not all
    marked optional, it is unsatisfied: the evaluation is not valid,
    its errors hold the mismatch "Not all required descriptors are
    satisfied" (and "No mapping found for required descriptor" when no
    field is optional), and the descriptor is not among the matched
    ones.  When instead every field is marked optional, and there is
    one, the descriptor adds no error and is not required. *)
Lemma unmapped_descriptor_unsatisfied_unless_optional vp pd s d :
  presentation_submission vp = Some s ->
  definition_id s = pdId pd ->
  In d (input_descriptors pd) ->
  findMapping s d = None ->
  (everyOptional d = false ->
     valid (evaluatePresentationSubmission vp pd) = false /\
     (exists es, errors (evaluatePresentationSubmission vp pd) = Some es /\
                 In msgNotAll es /\
                 (someOptional d = false -> In (msgNoMapping d) es)) /\
     (exists ms, matchedDescriptors (evaluatePresentationSubmission vp pd) = Some ms /\
                 ~ In (id d) ms)) /\
  (everyOptional d = true -> fields (constraints d) <> Some [] ->
     (forall acc, descriptorStep s (credentialsOf vp) acc d = acc) /\
     ~ In d (List.filter (fun d => negb (everyOptional d)) (input_descriptors pd))).
Proof.
  intros Hs Hid Hd Hnone. split.
  - intros Hreq.
    assert (Hnot : ~ In (id d) (resolvedIds s (credentialsOf vp) pd)).
    { intros Hin. apply resolvedIds_In in Hin. destruct Hin as (d' & _ & Hr & He).
      rewrite (resolves_id s _ d' d He) in Hr. unfold resolves in Hr.
      rewrite Hnone in Hr. discriminate Hr. }
    assert (Hall : forallb (fun d0 => includes (resolvedIds s (credentialsOf vp) pd) (id d0))
              (List.filter (fun d0 => negb (everyOptional d0)) (input_descriptors pd)) = false).
    { apply not_true_is_false. intros Hall. rewrite forallb_forall in Hall.
      apply Hnot, includes_In, Hall, filter_In. split; [assumption|].
      now rewrite Hreq. }
    rewrite (evaluate_unfold vp pd s Hs Hid). cbv zeta. rewrite Hall.
    set (errs := flat_map (stepErrors s (credentialsOf vp)) (input_descriptors pd)).
    assert (Hmsg : someOptional d = false -> In (msgNoMapping d) errs).
    { intros Hsome. apply in_flat_map. exists d. split; [assumption|].
      unfold stepErrors. rewrite Hnone, Hsome. now left. }
    destruct (errs ++ [msgNotAll]) as [|e es] eqn:Heq.
    + destruct errs; discriminate Heq.
    + simpl. split; [reflexivity|]. split.
      * exists (e :: es). split; [reflexivity|]. rewrite <- Heq. split.
        -- apply in_or_app. right. now left.
        -- intros Hsome. apply in_or_app. left. now apply Hmsg.
      * exists (resolvedIds s (credentialsOf vp) pd). split; [reflexivity | exact Hnot].
  - intros Hevery Hfields.
    assert (Hsome : someOptional d = true).
    { unfold everyOptional in Hevery. unfold someOptional.
      destruct (fields (constraints d)) as [[|f fs]|]; [congruence | | discriminate].
      simpl in *. apply andb_true_iff in Hevery. destruct Hevery as [-> _]. reflexivity. }
    split.
    + intros [errs matched]. unfold descriptorStep. now rewrite Hnone, Hsome.
    + intros Hin. apply filter_In in Hin. destruct Hin as [_ Hin].
      rewrite Hevery in Hin. discriminate Hin.
Qed.

(** The same definition against an empty descriptor map: the required
    descriptor is reported under both messages. *)
Lemma unmapped_descriptor_unsatisfied_unless_optional_witness :
  everyOptional MatcherExamples.requiredDescriptor = false /\
  valid (evaluatePresentationSubmission MatcherExamples.vpEmptyMap
           MatcherExamples.pdOptional) = false /\
  (exists es, errors (evaluatePresentationSubmission MatcherExamples.vpEmptyMap
                        MatcherExamples.pdOptional) = Some es /\
              In msgNotAll es /\
              (someOptional MatcherExamples.requiredDescriptor = false ->
               In (msgNoMapping MatcherExamples.requiredDescriptor) es)).
Proof.
  destruct (unmapped_descriptor_unsatisfied_unless_optional MatcherExamples.vpEmptyMap
              MatcherExamples.pdOptional (MatcherExamples.submission [])
              MatcherExamples.requiredDescriptor eq_refl eq_refl) as [H _].
  - left. reflexivity.
  - reflexivity.
  - destruct (H eq_refl) as (Hv & He & _). split; [reflexivity|]. split; assumption.
Defined.



End PresentationDefinitionFacts.

(* ================================================================== *)
(** * Properties of the session state machine                         *)
(* ================================================================== *)

Module SessionServiceFacts.
Import SessionService.

Section WithEngine.
Context (engine : Engine).

Lemma statusEqb_eq a b : statusEqb a b = true <-> a = b.
Proof. destruct a, b; simpl; split; intros H; try reflexivity; discriminate H. Qed.

Lemma pendingWithId_spec sid r :
  pendingWithId sid r = true <-> id r = sid /\ status r = pending.
Proof.
  unfold pendingWithId. rewrite andb_true_iff, String.eqb_eq, statusEqb_eq. tauto.
Qed.

Lemma filter_nil_iff {A} (p : A -> bool) (l : list A) :
  List.filter p l = [] <-> forall x, In x l -> p x = false.
Proof.
  induction l as [|a l IH]; simpl.
  - split; [intros _ x [] | reflexivity].
  - destruct (p a) eqn:Hp.
    + split; [discriminate|]. intros H. specialize (H a (or_introl eq_refl)). congruence.
    + rewrite IH. split.
      * intros H x [<-|Hx]; auto.
      * intros H x Hx. apply H. now right.
Qed.

Lemma map_if_false {A} (p : A -> bool) (f : A -> A) (l : list A) :
  (forall x, In x l -> p x = false) ->
  map (fun x => if p x then f x else x) l = l.
Proof.
  induction l as [|a l IH]; intros H; simpl; [reflexivity|].
  rewrite (H a (or_introl eq_refl)). f_equal. apply IH. intros x Hx. apply H. now right.
Qed.

Lemma noPending_iff sid (t : Table) :
  List.filter (pendingWithId sid) t = [] <->
  forall r, In r t -> id r = sid -> status r <> pending.
Proof.
  rewrite filter_nil_iff. split; intros H r Hr.
  - intros Hid Hst. specialize (H r Hr).
    assert (pendingWithId sid r = true) by now apply pendingWithId_spec.
    congruence.
  - apply not_true_is_false. intros Hp. apply pendingWithId_spec in Hp.
    destruct Hp. eapply H; eauto.
Qed.

(** A completion succeeds exactly when the statement runs and a row
    of that identifier is pending. *)
Lemma complete_true_iff fault dbNow sid tok sub (t : Table) :
  fst (completeVPSession engine fault dbNow sid tok sub t) = true <->
  fault = None /\ exists r, In r t /\ id r = sid /\ status r = pending.
Proof.
  unfold completeVPSession. destruct fault as [e|]; simpl.
  - split; [discriminate | intros [H _]; discriminate H].
  - destruct (List.filter (pendingWithId sid) t) as [|r l] eqn:Hf; simpl.
    + split; [discriminate|]. intros [_ (r & Hr & Hid & Hst)].
      exfalso. eapply (proj1 (noPending_iff sid t) Hf); eauto.
    + split; [|reflexivity]. intros _. split; [reflexivity|].
      assert (Hin : In r (List.filter (pendingWithId sid) t)) by (rewrite Hf; now left).
      apply filter_In in Hin. destruct Hin as [Hin Hp].
      apply pendingWithId_spec in Hp. exists r. tauto.
Qed.

(** A rejected completion leaves the table as it was. *)
Lemma complete_false_unchanged fault dbNow sid tok sub (t : Table) :
  fst (completeVPSession engine fault dbNow sid tok sub t) = false ->
  snd (completeVPSession engine fault dbNow sid tok sub t) = t.
Proof.
  unfold completeVPSession. destruct fault as [e|]; simpl; [reflexivity|].
  destruct (List.filter (pendingWithId sid) t) as [|r l] eqn:Hf; simpl.
  - intros _. apply map_if_false. now apply filter_nil_iff.
  - discriminate.
Qed.

(** After a completion that ran, no row of that identifier is pending. *)
Lemma complete_leaves_none_pending dbNow sid tok sub (t : Table) r :
  In r (snd (completeVPSession engine None dbNow sid tok sub t)) ->
  id r = sid -> status r <> pending.
Proof.
  unfold completeVPSession.
  assert (Hsnd : forall (b : bool) (x y : bool * Table), snd x = snd y ->
            snd (if b then x else y) = snd x) by (intros [] ? ? ?; congruence).
  cbv zeta. rewrite Hsnd by reflexivity. simpl snd.
  intros Hin Hid Hst. apply in_map_iff in Hin. destruct Hin as (r0 & He & _).
  destruct (pendingWithId sid r0) eqn:Hp.
  - subst r. discriminate Hst.
  - subst r0. assert (pendingWithId sid r = true) by now apply pendingWithId_spec.
    congruence.
Qed.

(** What one completion does: it succeeds and leaves no pending row
    of the session, or it fails and leaves the table as it was. *)
Lemma complete_outcome fault dbNow sid tok sub (t : Table) :
  (fst (completeVPSession engine fault dbNow sid tok sub t) = true /\
   fault = None /\
   forall r, In r (snd (completeVPSession engine fault dbNow sid tok sub t)) ->
             id r = sid -> status r <> pending) \/
  (fst (completeVPSession engine fault dbNow sid tok sub t) = false /\
   snd (completeVPSession engine fault dbNow sid tok sub t) = t).
Proof.
  destruct (fst (completeVPSession engine fault dbNow sid tok sub t)) eqn:Hok.
  - left. split; [reflexivity|].
    apply complete_true_iff in Hok. destruct Hok as [-> _].
    split; [reflexivity|]. intros r. apply complete_leaves_none_pending.
  - right. split; [reflexivity|]. now apply complete_false_unchanged.
Qed.

Ltac step_completion sid a t :=
  let Hc := fresh "Hc" in
  let ok := fresh "ok" in
  let t1 := fresh "t1" in
  destruct (complete_outcome (aFault a) (aDbNow a) sid (aVpToken a) (aSubmission a) t)
    as [(Hok & Hfault & Hnone) | (Hok & Hsame)];
  destruct (completeVPSession engine (aFault a) (aDbNow a) sid (aVpToken a)
              (aSubmission a) t) as [ok t1] eqn:Hc;
  simpl in Hok; subst ok.

Lemma successes_all_false {A} (l : list A) : successes (map (fun _ => false) l) = 0%nat.
Proof. induction l; simpl; auto. Qed.

Lemma successes_cons b l :
  successes (b :: l) = ((if b then 1 else 0) + successes l)%nat.
Proof. unfold successes. simpl. now destruct b. Qed.

(** Once no row of the session is pending, every completion fails. *)
Lemma run_none_pending sid attempts : forall (t : Table),
  (forall r, In r t -> id r = sid -> status r <> pending) ->
  runCompletions engine sid attempts t = (map (fun _ => false) attempts, t).
Proof.
  induction attempts as [|a rest IH]; intros t Hnone'; simpl; [reflexivity|].
  step_completion sid a t.
  - exfalso.
    pose proof (proj1 (complete_true_iff (aFault a) (aDbNow a) sid (aVpToken a)
                         (aSubmission a) t)) as H.
    rewrite Hc in H. destruct (H eq_refl) as [_ (r & Hr & Hid & Hst)].
    eapply Hnone'; eauto.
  - simpl in Hsame. subst t1. now rewrite (IH t Hnone').
Qed.

Lemma run_at_most_one sid attempts : forall (t : Table),
  (successes (fst (runCompletions engine sid attempts t)) <= 1)%nat.
Proof.
  induction attempts as [|a rest IH]; intros t; simpl; [unfold successes; simpl; lia|].
  step_completion sid a t.
  - simpl in Hnone. rewrite (run_none_pending sid rest t1 Hnone). simpl.
    rewrite successes_cons, successes_all_false. lia.
  - simpl in Hsame. subst t1. specialize (IH t).
    destruct (runCompletions engine sid rest t) as [oks t2].
    simpl in *. now rewrite successes_cons.
Qed.

Lemma run_exactly_one sid attempts : forall (t : Table),
  (exists r, In r t /\ id r = sid /\ status r = pending) ->
  (exists a, In a attempts /\ aFault a = None) ->
  successes (fst (runCompletions engine sid attempts t)) = 1%nat.
Proof.
  induction attempts as [|a rest IH]; intros t Hp [a0 [Hin Hf]]; [destruct Hin|].
  simpl. step_completion sid a t.
  - simpl in Hnone. rewrite (run_none_pending sid rest t1 Hnone). simpl.
    now rewrite successes_cons, successes_all_false.
  - simpl in Hsame. subst t1.
    assert (Hrest : exists a1, In a1 rest /\ aFault a1 = None).
    { destruct Hin as [<-|Hin]; [|eauto]. exfalso.
      pose proof (proj2 (complete_true_iff (aFault a) (aDbNow a) sid (aVpToken a)
                          (aSubmission a) t) (conj Hf Hp)) as H.
      rewrite Hc in H. discriminate H. }
    specialize (IH t Hp Hrest). destruct (runCompletions engine sid rest t) as [oks t2].
    simpl in *. now rewrite successes_cons.
Qed.

Lemma Forall2_map_self {A} (R : A -> A -> Prop) (f : A -> A) (l : list A) :
  (forall x, R x (f x)) -> Forall2 R l (map f l).
Proof. intros H. induction l; simpl; constructor; auto. Qed.

Lemma mapRowToSession_fields row session :
  mapRowToSession engine row = Js.Normal session ->
  sId session = id row /\ sState session = state row /\
  sStatus session = status row /\ sExpiresAt session = expires_at row.
Proof.
  unfold mapRowToSession, Js.bind.
  destruct (match presentation_definition row with
            | inl text => jsonParse engine text
            | inr v => Js.Normal v
            end); [|discriminate].
  destruct (match presentation_submission row with
            | Some (inl text) =>
                if String.eqb text EmptyString
                then Js.Normal (Js.Str text) else jsonParse engine text
            | Some (inr v) => Js.Normal v
            | None => Js.Normal Js.Null
            end); [|discriminate].
  intros H. injection H as <-. simpl. auto.
Qed.

(** C1.  A completion answers [true] exactly when its statement
    runs and a row of the session is pending; its single update
    changes only rows of the session that are pending, which become
    completed; against a session that is not pending it answers
    [false] and the table is unchanged; and in every order in which
    the database runs any number of completion requests on one
    session, at most one answers [true] (exactly one when the
    session is pending and some request's statement runs). *)
Theorem completeVPSession_only_from_pending sid :
  (forall fault dbNow tok sub (t : Table),
     fst (completeVPSession engine fault dbNow sid tok sub t) = true <->
     fault = None /\ exists r, In r t /\ id r = sid /\ status r = pending) /\
  (forall fault dbNow tok sub (t : Table),
     Forall2 (fun r r' =>
                (id r = sid /\ status r = pending /\ fault = None /\
                 r' = completeRow engine tok sub dbNow r /\ status r' = completed)
                \/ r' = r)
             t (snd (completeVPSession engine fault dbNow sid tok sub t))) /\
  (forall fault dbNow tok sub (t : Table),
     (forall r, In r t -> id r = sid -> status r <> pending) ->
     completeVPSession engine fault dbNow sid tok sub t = (false, t)) /\
  (forall attempts (t : Table),
     (successes (fst (runCompletions engine sid attempts t)) <= 1)%nat) /\
  (forall attempts (t : Table),
     (exists r, In r t /\ id r = sid /\ status r = pending) ->
     (exists a, In a attempts /\ aFault a = None) ->
     successes (fst (runCompletions engine sid attempts t)) = 1%nat).
Proof.
  split; [|split; [|split; [|split]]].
  - intros. apply complete_true_iff.
  - intros fault dbNow tok sub t. unfold completeVPSession.
    destruct fault as [e|]; simpl.
    + clear. induction t; constructor; auto.
    + assert (Hsnd : forall (b : bool) (x : Table), snd (if b then (false, x) else (true, x)) = x)
        by (intros [] ?; reflexivity).
      rewrite Hsnd. apply Forall2_map_self. intros r.
      destruct (pendingWithId sid r) eqn:Hp; [|now right].
      apply pendingWithId_spec in Hp. left. tauto.
  - intros fault dbNow tok sub t Hnone.
    assert (Hf : fst (completeVPSession engine fault dbNow sid tok sub t) = false).
    { apply not_true_is_false. intros H. apply complete_true_iff in H.
      destruct H as [_ (r & Hr & Hid & Hst)]. eapply Hnone; eauto. }
    pose proof (complete_false_unchanged fault dbNow sid tok sub t Hf) as Hu.
    destruct (completeVPSession engine fault dbNow sid tok sub t) as [b t'].
    simpl in *. congruence.
  - intros. apply run_at_most_one.
  - intros. now apply run_exactly_one.
Qed.

(** C6.  When the lookup by state finds a row whose stored status is
    pending and whose expiry lies before the current time, the session
    returned to the caller has status expired; and the read's update
    statement, when it runs, stores expired in the row of that session
    and leaves every other row as it was.  A row already stored as
    expired is reported expired as well, the table untouched. *)
Theorem getVPSessionByState_expires_on_read updateFault now st (t : Table)
    row rest session :
  List.filter (fun r => String.eqb (state r) st) t = row :: rest ->
  mapRowToSession engine row = Js.Normal session ->
  (status row = pending -> expires_at row < now ->
   (exists v, fst (getVPSessionByState engine None updateFault now st t) = Some v /\
              v = setSessionStatus expired session /\
              sStatus v = expired /\ sId v = id row /\ sState v = st) /\
   (updateFault = None ->
    snd (getVPSessionByState engine None updateFault now st t) =
      map (fun r => if String.eqb (id r) (id row) then setStatus expired r else r) t /\
    exists r', In r' (snd (getVPSessionByState engine None updateFault now st t)) /\
               id r' = id row /\ state r' = st /\ status r' = expired)) /\
  (status row = expired ->
   getVPSessionByState engine None updateFault now st t = (Some session, t) /\
   sStatus session = expired).
Proof.
  intros Hsel Hmap.
  destruct (mapRowToSession_fields row session Hmap) as (Hid & Hstate & Hstatus & Hexpires).
  assert (Hrow : In row t /\ state row = st).
  { assert (Hin : In row (List.filter (fun r => String.eqb (state r) st) t))
      by (rewrite Hsel; now left).
    apply filter_In in Hin. destruct Hin as [Hin He]. apply String.eqb_eq in He. auto. }
  destruct Hrow as [Hin Hrs]. split.
  - intros Hst Hexp.
    assert (Hcond : statusEqb (sStatus session) pending && (sExpiresAt session <? now) = true).
    { rewrite Hstatus, Hst, Hexpires. simpl. now apply Z.ltb_lt. }
    unfold getVPSessionByState. rewrite Hsel, Hmap, Hcond.
    destruct (updateSessionStatus updateFault (sId session) expired t) as [b t'] eqn:Hu.
    simpl. split.
    + eexists. split; [reflexivity|]. split; [reflexivity|]. simpl. rewrite Hid, Hstate. auto.
    + intros ->. unfold updateSessionStatus in Hu. injection Hu as _ <-. rewrite Hid.
      split; [reflexivity|].
      exists (setStatus expired row). split.
      * apply in_map_iff. exists row. rewrite String.eqb_refl. auto.
      * simpl. auto.
  - intros Hst. unfold getVPSessionByState. rewrite Hsel, Hmap, Hstatus, Hst. simpl.
    split; [reflexivity | congruence].
Qed.

End WithEngine.

(** On the sample table: a completion of the completed session [s2] is
    rejected and changes nothing; of three completions of the pending
    session [s1], one succeeds. *)
Lemma completeVPSession_only_from_pending_witness :
  (forall r, In r SessionExamples.table -> SessionService.id r = "s2" ->
             status r <> pending) /\
  completeVPSession SessionExamples.engine None 2000 "s2" "tok"
                    (Js.Obj []) SessionExamples.table = (false, SessionExamples.table) /\
  successes (fst (runCompletions SessionExamples.engine "s1"
                    [SessionExamples.attempt "tok-a"; SessionExamples.attempt "tok-b";
                     SessionExamples.attempt "tok-c"] SessionExamples.table)) = 1%nat.
Proof.
  assert (Hnone : forall r, In r SessionExamples.table -> SessionService.id r = "s2" ->
                            status r <> pending).
  { intros r [<-|[<-|[<-|[]]]] Hid; simpl in *; discriminate. }
  split; [exact Hnone|]. split.
  - apply (proj1 (proj2 (proj2 (completeVPSession_only_from_pending
                                  SessionExamples.engine "s2")))).
    exact Hnone.
  - apply (proj2 (proj2 (proj2 (proj2 (completeVPSession_only_from_pending
                                          SessionExamples.engine "s1"))))).
    + exists (SessionExamples.row "s1" "state-1" pending 901000).
      split; [left; reflexivity | split; reflexivity].
    + exists (SessionExamples.attempt "tok-a"). split; [left; reflexivity | reflexivity].
Defined.

(** On the sample table: session [s3], pending and expired since 5000,
    is reported expired when read at 6000. *)
Lemma getVPSessionByState_expires_on_read_witness :
  exists v, fst (getVPSessionByState SessionExamples.engine None None 6000 "state-3"
                   SessionExamples.table) = Some v /\ sStatus v = expired.
Proof.
  destruct (getVPSessionByState_expires_on_read SessionExamples.engine None 6000
              "state-3" SessionExamples.table
              (SessionExamples.row "s3" "state-3" pending 5000) []
              {| sId := "s3"; sState := "state-3"; sNonce := "n-s3";
                 sPresentationDefinition := Js.Obj [("id", Js.Str "pd-1")];
                 sRedirectUri := None; sClientId := None;
                 sResponseMode := Some "direct_post"; sCreatedAt := 1000;
                 sExpiresAt := 5000; sStatus := pending; sVpToken := None;
                 sPresentationSubmission := Js.Null; sCompletedAt := None |})
    as [H _].
  - reflexivity.
  - reflexivity.
  - destruct H as [(v & Hv & _ & Hs & _) _].
    + reflexivity.
    + simpl. lia.
    + exists v. split; assumption.
Defined.

End SessionServiceFacts.

(* ================================================================== *)
(** * Properties of the trust resolver                                *)
(* ================================================================== *)

Module TrustResolverFacts.
Import TrustResolver.

Lemma isValidAt_spec a today : isValidAt a today = true <-> activeAndCurrent a today.
Proof.
  unfold isValidAt, activeAndCurrent. rewrite andb_true_iff.
  assert (Hact : isActive (status a) = true <-> status a = active)
    by (destruct (status a); simpl; split; intros H; try reflexivity; discriminate H).
  rewrite Hact. destruct (validUntil a) as [u|].
  - rewrite Z.ltb_lt. split.
    + intros [H1 H2]. split; [assumption|]. right. eauto.
    + intros [H1 [H2|(u' & H2 & H3)]]; [discriminate|]. injection H2 as <-. auto.
  - split; [intros [H _]; auto | intros [H _]; auto].
Qed.

(** The registry holds one anchor per identifier. *)
Lemma findMockAnchor_spec d a :
  findMockAnchor d = Some a <-> In a MOCK_TRUST_ANCHORS /\ did a = d.
Proof.
  unfold findMockAnchor. split.
  - intros H. apply find_some in H. destruct H as [Hin He].
    apply String.eqb_eq in He. auto.
  - intros [Hin <-]. simpl in Hin. destruct Hin as [<-|[<-|[]]]; reflexivity.
Qed.

Lemma freshEntry_spec cache config now d :
  match freshEntry cache config now d with
  | Some e => cache !! d = Some e /\ now - timestamp e < ttlOf config
  | None => forall e, cache !! d = Some e -> ~ now - timestamp e < ttlOf config
  end.
Proof.
  unfold freshEntry. destruct (cache !! d) as [e|].
  - destruct (now - timestamp e <? ttlOf config) eqn:Hlt.
    + apply Z.ltb_lt in Hlt. auto.
    + apply Z.ltb_ge in Hlt. intros e' He'. injection He' as <-. lia.
  - intros e He. discriminate He.
Qed.

Lemma coherent_empty : coherent ∅.
Proof. intros d e H. rewrite lookup_empty in H. discriminate H. Qed.

Lemma isTrustedIssuer_coherent fault now today d config cache :
  coherent cache -> coherent (snd (isTrustedIssuer fault now today d config cache)).
Proof.
  intros Hc. unfold isTrustedIssuer. destruct fault; [exact Hc|].
  destruct (freshEntry cache config now d); [exact Hc|].
  destruct (enableMockTrustAnchors config); [|exact Hc].
  destruct (findMockAnchor d) as [a|] eqn:Hf; [|exact Hc].
  simpl. intros d' e. rewrite lookup_insert. case_decide.
  - intros H'. injection H' as <-. simpl. now subst d'.
  - apply Hc.
Qed.

Lemma anchorFor_fresh cache config now d e a :
  freshEntry cache config now d = Some e ->
  anchorFor cache config now d a <-> anchor e = a.
Proof.
  intros Hf. pose proof (freshEntry_spec cache config now d) as Hs.
  rewrite Hf in Hs. destruct Hs as [Hl Hlt]. unfold anchorFor. split.
  - intros [(e' & He' & _ & Ha) | (Hstale & _)].
    + congruence.
    + exfalso. exact (Hstale e Hl Hlt).
  - intros Ha. left. exists e. auto.
Qed.

Lemma anchorFor_stale cache config now d a :
  freshEntry cache config now d = None ->
  anchorFor cache config now d a <->
  enableMockTrustAnchors config = true /\ findMockAnchor d = Some a.
Proof.
  intros Hf. pose proof (freshEntry_spec cache config now d) as Hs.
  rewrite Hf in Hs. unfold anchorFor. rewrite findMockAnchor_spec. split.
  - intros [(e & He & Hlt & _) | (_ & Hm & Hin)].
    + exfalso. exact (Hs e He Hlt).
    + auto.
  - intros [Hm Hin]. right. auto.
Qed.

(** C5.  [isTrustedIssuer] answers [trusted: true] exactly when the
    lookup does not throw and the anchor the resolver holds for the
    identifier (a cache entry within its time to live, else the
    registry's anchor) has status active and [validUntil] absent or
    strictly after the current date.  When the lookup throws, and when
    no anchor is held for the identifier, the answer is [trusted:
    false] with a reason; every answer carries a reason.  With the
    registry enabled and a cache the resolver filled, the answer is
    [trusted: true] exactly when the registry lists an anchor of that
    identifier that is active and current. *)
Theorem isTrustedIssuer_trusted_iff fault now today d config cache :
  (trusted (fst (isTrustedIssuer fault now today d config cache)) = true <->
   fault = None /\
   exists a, anchorFor cache config now d a /\ activeAndCurrent a today) /\
  (forall t, fault = Some t ->
     isTrustedIssuer fault now today d config cache =
       ({| trusted := false; checkedAnchor := None;
           reason := Some ("Error: " +:+ Js.messageOr "Unknown error" t) |}, cache)) /\
  (fault = None -> (forall a, ~ anchorFor cache config now d a) ->
     isTrustedIssuer fault now today d config cache =
       ({| trusted := false; checkedAnchor := None;
           reason := Some "Not in trust anchor list" |}, cache)) /\
  (exists r, reason (fst (isTrustedIssuer fault now today d config cache)) = Some r) /\
  (coherent cache -> enableMockTrustAnchors config = true ->
   (trusted (fst (isTrustedIssuer fault now today d config cache)) = true <->
    fault = None /\
    exists a, In a MOCK_TRUST_ANCHORS /\ did a = d /\ activeAndCurrent a today)).
Proof.
  assert (Hiff : trusted (fst (isTrustedIssuer fault now today d config cache)) = true <->
                 fault = None /\
                 exists a, anchorFor cache config now d a /\ activeAndCurrent a today).
  { unfold isTrustedIssuer. destruct fault as [t|].
    { simpl. split; [discriminate | intros [H _]; discriminate H]. }
    destruct (freshEntry cache config now d) as [e|] eqn:Hf.
    - simpl. rewrite isValidAt_spec. split.
      + intros H. split; [reflexivity|]. exists (anchor e). split; [|assumption].
        now apply (anchorFor_fresh cache config now d e).
      + intros [_ (a & Ha & Hv)].
        apply (anchorFor_fresh cache config now d e a Hf) in Ha. now subst a.
    - destruct (enableMockTrustAnchors config) eqn:Hm.
      + destruct (findMockAnchor d) as [m|] eqn:Hfind.
        * simpl. rewrite isValidAt_spec. split.
          -- intros H. split; [reflexivity|]. exists m. split; [|assumption].
             apply anchorFor_stale; auto.
          -- intros [_ (a & Ha & Hv)].
             apply (anchorFor_stale cache config now d a Hf) in Ha.
             destruct Ha as [_ Ha]. congruence.
        * simpl. split; [discriminate|]. intros [_ (a & Ha & _)].
          apply (anchorFor_stale cache config now d a Hf) in Ha.
          destruct Ha as [_ Ha]. congruence.
      + simpl. split; [discriminate|]. intros [_ (a & Ha & _)].
        apply (anchorFor_stale cache config now d a Hf) in Ha.
        destruct Ha as [Ha _]. congruence. }
  split; [exact Hiff|]. split; [|split; [|split]].
  - intros t ->. reflexivity.
  - intros -> Hno. unfold isTrustedIssuer.
    destruct (freshEntry cache config now d) as [e|] eqn:Hf.
    + exfalso. apply (Hno (anchor e)). now apply (anchorFor_fresh cache config now d e).
    + destruct (enableMockTrustAnchors config) eqn:Hm; [|reflexivity].
      destruct (findMockAnchor d) as [m|] eqn:Hfind; [|reflexivity].
      exfalso. apply (Hno m). apply anchorFor_stale; auto.
  - unfold isTrustedIssuer. destruct fault; [simpl; eauto|].
    destruct (freshEntry cache config now d); [simpl; eauto|].
    destruct (if enableMockTrustAnchors config then findMockAnchor d else None);
      simpl; eauto.
  - intros Hc Hm. rewrite Hiff. split.
    + intros [Hfault (a & Ha & Hv)]. split; [assumption|]. exists a.
      destruct (freshEntry cache config now d) as [e|] eqn:Hf.
      * apply (anchorFor_fresh cache config now d e a Hf) in Ha. subst a.
        pose proof (freshEntry_spec cache config now d) as Hs. rewrite Hf in Hs.
        destruct Hs as [Hl _]. specialize (Hc d e Hl).
        apply findMockAnchor_spec in Hc. tauto.
      * apply (anchorFor_stale cache config now d a Hf) in Ha.
        destruct Ha as [_ Ha]. apply findMockAnchor_spec in Ha. tauto.
    + intros [Hfault (a & Hin & Hd & Hv)]. split; [assumption|]. exists a.
      split; [|assumption].
      assert (Hfind : findMockAnchor d = Some a) by (apply findMockAnchor_spec; auto).
      destruct (freshEntry cache config now d) as [e|] eqn:Hf.
      * apply (anchorFor_fresh cache config now d e a Hf).
        pose proof (freshEntry_spec cache config now d) as Hs. rewrite Hf in Hs.
        destruct Hs as [Hl _]. specialize (Hc d e Hl). congruence.
      * apply anchorFor_stale; auto.
Qed.

(** With the default configuration and an empty cache: the anchor
    without [validUntil] is trusted; a lookup that throws is not. *)
Lemma isTrustedIssuer_trusted_iff_witness :
  trusted (fst (isTrustedIssuer None 1767225600000 1767225600001
                  "did:web:identity.foundation" defaultConfig ∅)) = true /\
  isTrustedIssuer (Some (Js.ErrorObject "registry unavailable")) 1767225600000
      1767225600001 "did:web:identity.foundation" defaultConfig ∅ =
    ({| trusted := false; checkedAnchor := None;
        reason := Some "Error: registry unavailable" |}, ∅).
Proof.
  pose proof (isTrustedIssuer_trusted_iff None 1767225600000 1767225600001
                "did:web:identity.foundation" defaultConfig ∅) as (_ & _ & _ & _ & H).
  pose proof (isTrustedIssuer_trusted_iff (Some (Js.ErrorObject "registry unavailable"))
                1767225600000 1767225600001
                "did:web:identity.foundation" defaultConfig ∅) as (_ & Hthrow & _).
  split.
  - apply (H coherent_empty eq_refl). split; [reflexivity|].
    exists {| did := "did:web:identity.foundation";
              name := "Decentralized Identity Foundation";
              trustFramework := CUSTOM; status := active;
              validFrom := 1672531200000; validUntil := None; metadata := None |}.
    split; [right; left; reflexivity|]. split; [reflexivity|].
    split; [reflexivity | left; reflexivity].
  - exact (Hthrow _ eq_refl).
Defined.

End TrustResolverFacts.

(* ================================================================== *)
(** * The mobile security object and the audit log                    *)
(* ================================================================== *)

Module MDocDecoderFacts.
Import MDocDecoder.

(** Whenever the structure and the validity window pass, the caller
    receives [{ valid: true }] and nothing else; the notice that the
    signature was not checked is a line of the log. *)
Lemma verifyMSO_structural_pass now mso :
  nonEmpty (version mso) = true ->
  nonEmpty (digestAlgorithm mso) = true ->
  Js.dateGt (validFrom (validityInfo mso)) (Some now) = false ->
  Js.dateLt (validUntil (validityInfo mso)) (Some now) = false ->
  fst (verifyMSO now mso) = {| valid := true; error := None |} /\
  In {| level := warn;
        message := "MSO verification incomplete - signature check not yet implemented" |}
     (snd (verifyMSO now mso)).
Proof.
  intros Hv Hd Hfrom Huntil. unfold verifyMSO. rewrite Hv, Hd, Hfrom, Huntil. simpl.
  split; [reflexivity | right; left; reflexivity].
Qed.

(** C7 fails on the code: for the sample security object, which has a
    version, a digest algorithm and a current validity window,
    [verifyMSO] answers a bare [{ valid: true }], with no error and no
    warning in the result; the warning goes to the logger only.  So
    does every security object that passes the structural and validity
    checks. *)
Theorem verifyMSO_returns_bare_valid :
  verifyMSO 1750000000000 sampleMSO =
    ({| valid := true; error := None |},
     [{| level := info; message := "Verifying MSO" |};
      {| level := warn;
         message := "MSO verification incomplete - signature check not yet implemented" |}]) /\
  (forall now mso,
     valid (fst (verifyMSO now mso)) = true ->
     fst (verifyMSO now mso) = {| valid := true; error := None |}).
Proof.
  split; [reflexivity|].
  intros now mso. unfold verifyMSO.
  destruct (negb (nonEmpty (version mso)) || negb (nonEmpty (digestAlgorithm mso)));
    [discriminate|].
  destruct (Js.dateGt (validFrom (validityInfo mso)) (Some now)); [discriminate|].
  destruct (Js.dateLt (validUntil (validityInfo mso)) (Some now)); [discriminate|].
  reflexivity.
Qed.

End MDocDecoderFacts.

Module AuditLoggerFacts.
Import AuditLogger.

(** Every row [logAuditEvent] appends has no hash in either column. *)
Lemma logAuditEvent_appends_without_hash engine now event log :
  exists row,
    logAuditEvent engine None now event log =
      (true, {| rows := rows log ++ [row]; lastId := lastId log + 1 |}) /\
    previous_hash row = None /\ current_hash row = None.
Proof. eexists. split; [reflexivity|]. split; reflexivity. Qed.

(** C4 fails on the code: the append operation stores the event with
    [previous_hash] and [current_hash] both NULL, on an empty log and
    on a log that already holds an entry; and every append that runs
    adds exactly one row, whose two hash columns are NULL. *)
Theorem logAuditEvent_stores_no_hash :
  map current_hash (rows twoAppends) = [None; None] /\
  map previous_hash (rows twoAppends) = [None; None] /\
  (forall engine now event log,
     exists row,
       snd (logAuditEvent engine None now event log) =
         {| rows := rows log ++ [row]; lastId := lastId log + 1 |} /\
       previous_hash row = None /\ current_hash row = None).
Proof.
  split; [reflexivity|]. split; [reflexivity|].
  intros engine now event log.
  destruct (logAuditEvent_appends_without_hash engine now event log) as (row & He & Hp & Hc).
  exists row. rewrite He. auto.
Qed.

End AuditLoggerFacts.

(* ================================================================== *)
(** * Properties of the credential validators                         *)
(* ================================================================== *)

Module VCValidatorFacts.
Import TrustResolver VCValidator.

Section WithHost.
Context (engine : Engine) (services : Services).

(** A value that has a text is printed. *)
Lemma optToString_printable name v :
  Js.unprintable v = false ->
  optToString engine name v =
    Js.Normal match v with
              | Js.Undefined | Js.Null => None
              | _ => Some (stringOfValue engine v)
              end.
Proof.
  destruct v as [| |b|n|str|items|props]; try reflexivity; intros H; unfold optToString.
  - now rewrite H.
  - cbn [Js.unprintable] in H. now rewrite H.
Qed.

(** The trust check decides neither [valid] nor [errors]. *)
Lemma validateVC_trust_not_fatal fault clock vcJWT options cache :
  valid (fst (validateVC engine services fault clock vcJWT options cache)) =
    valid (fst (validateVC engine services fault clock vcJWT
                  (ValidatorExamples.withoutTrustCheck options) cache)) /\
  errors (fst (validateVC engine services fault clock vcJWT options cache)) =
    errors (fst (validateVC engine services fault clock vcJWT
                   (ValidatorExamples.withoutTrustCheck options) cache)).
Proof.
  unfold validateVC. simpl.
  destruct (verifyCredential engine services clock vcJWT (trustConfig options))
    as [r | [[vcPayload issuerDID] vc]]; [split; reflexivity|].
  destruct (expiryErrors engine (orDefault (checkExpiration options) true)
              (expiryNow clock) (expirationOf vcPayload vc)) as [expired|t];
    [|split; reflexivity].
  destruct (orDefault (checkTrust options) true).
  - destruct (isTrustedIssuerOf fault (trustNow clock) (trustToday clock) issuerDID
                (trustConfig options) cache) as [trustCheck c].
    destruct (printedDates engine (issuanceOf vcPayload vc) (expirationOf vcPayload vc))
      as [[i e]|t]; [|split; reflexivity].
    destruct (structureErrors vc ++ expired); split; reflexivity.
  - destruct (printedDates engine (issuanceOf vcPayload vc) (expirationOf vcPayload vc))
      as [[i e]|t]; [|split; reflexivity].
    destruct (structureErrors vc ++ expired); split; reflexivity.
Qed.

Lemma structureErrors_nil vc :
  Js.truthy (Js.getOpt vc "@context") = true ->
  Js.truthy (Js.getOpt vc "type") = true ->
  Js.truthy (Js.getOpt vc "credentialSubject") = true ->
  structureErrors vc = [].
Proof. intros H1 H2 H3. unfold structureErrors. now rewrite H1, H2, H3. Qed.

(** C10, as amended.  For a credential that decodes, whose issuer
    resolves and whose signature verifies, that carries [@context],
    [type] and [credentialSubject], is not expired, and whose issuance
    and expiration dates have a text (neither is an object with a
    property [toString] nor an array that holds one), [validateVC]
    with the trust check enabled answers [valid: true] without errors
    even when the issuer is not trusted: the result has [trusted:
    false] and the warning "Issuer not in trust anchor list".  In
    general the trust check changes neither [valid] nor [errors]. *)
Theorem validateVC_untrusted_issuer_is_warning fault clock vcJWT options cache
    vcPayload issuerDID vc :
  orDefault (checkTrust options) true = true ->
  verifyCredential engine services clock vcJWT (trustConfig options)
    = Continue (vcPayload, issuerDID, vc) ->
  Js.truthy (Js.getOpt vc "@context") = true ->
  Js.truthy (Js.getOpt vc "type") = true ->
  Js.truthy (Js.getOpt vc "credentialSubject") = true ->
  expiryErrors engine (orDefault (checkExpiration options) true) (expiryNow clock)
    (expirationOf vcPayload vc) = Js.Normal [] ->
  Js.unprintable (issuanceOf vcPayload vc) = false ->
  Js.unprintable (expirationOf vcPayload vc) = false ->
  TrustResolver.trusted
    (fst (isTrustedIssuerOf fault (trustNow clock) (trustToday clock) issuerDID
            (trustConfig options) cache)) = false ->
  (valid (fst (validateVC engine services fault clock vcJWT options cache)) = true /\
   errors (fst (validateVC engine services fault clock vcJWT options cache)) = None /\
   trusted (fst (validateVC engine services fault clock vcJWT options cache)) = Some false /\
   exists ws,
     warnings (fst (validateVC engine services fault clock vcJWT options cache)) = Some ws /\
     In ("Issuer not in trust anchor list: "
           +:+ Js.strOr (reason (fst (isTrustedIssuerOf fault (trustNow clock)
                                        (trustToday clock) issuerDID
                                        (trustConfig options) cache)))
                        "Unknown reason") ws) /\
  (forall fault' clock' vcJWT' options' cache',
     valid (fst (validateVC engine services fault' clock' vcJWT' options' cache')) =
       valid (fst (validateVC engine services fault' clock' vcJWT'
                     (ValidatorExamples.withoutTrustCheck options') cache')) /\
     errors (fst (validateVC engine services fault' clock' vcJWT' options' cache')) =
       errors (fst (validateVC engine services fault' clock' vcJWT'
                      (ValidatorExamples.withoutTrustCheck options') cache'))).
Proof.
  intros Hct Hv H1 H2 H3 Hexp Hissuance Hexpiration Htrust.
  split; [|intros; apply validateVC_trust_not_fatal].
  unfold validateVC, printedDates.
  rewrite Hv, Hct, (structureErrors_nil vc H1 H2 H3), Hexp.
  rewrite (optToString_printable _ _ Hissuance), (optToString_printable _ _ Hexpiration).
  cbn [Js.bind].
  destruct (isTrustedIssuerOf fault (trustNow clock) (trustToday clock) issuerDID
              (trustConfig options) cache) as [trustCheck c].
  simpl in Htrust. rewrite Htrust. simpl.
  set (w := "Issuer not in trust anchor list: "
              +:+ Js.strOr (reason trustCheck) "Unknown reason").
  assert (Hin : In w (typeWarnings vc ++ [w])) by (apply in_or_app; right; now left).
  destruct (orDefault (checkRevocation options) false).
  - destruct ((typeWarnings vc ++ [w]) ++ ["Revocation checking not yet implemented"])
      as [|x xs] eqn:Hw.
    + destruct (typeWarnings vc); discriminate Hw.
    + simpl. repeat split; try reflexivity. exists (x :: xs). split; [reflexivity|].
      rewrite <- Hw. apply in_or_app. now left.
  - destruct (typeWarnings vc ++ [w]) as [|x xs] eqn:Hw.
    + destruct (typeWarnings vc); discriminate Hw.
    + simpl. repeat split; try reflexivity. exists (x :: xs). split; [reflexivity|].
      exact Hin.
Qed.

End WithHost.

(** The sample credential of an issuer outside the registry: valid,
    untrusted, warned. *)
Lemma validateVC_untrusted_issuer_is_warning_witness :
  valid (fst ValidatorExamples.credentialRun) = true /\
  errors (fst ValidatorExamples.credentialRun) = None /\
  trusted (fst ValidatorExamples.credentialRun) = Some false /\
  exists ws, warnings (fst ValidatorExamples.credentialRun) = Some ws /\
             In "Issuer not in trust anchor list: Not in trust anchor list" ws.
Proof.
  unfold ValidatorExamples.credentialRun.
  destruct (validateVC_untrusted_issuer_is_warning ValidatorExamples.engine
              ValidatorExamples.services None ValidatorExamples.clock
              ValidatorExamples.credentialToken noOptions ∅
              ValidatorExamples.credentialPayload (Js.Str "did:example:unlisted")
              (Js.getOpt ValidatorExamples.credentialPayload "vc"))
    as [H _]; try reflexivity.
  exact H.
Defined.

(** The sample credential with an issuance date that is an object
    with a property [toString]: it decodes, its issuer resolves, its
    signature verifies, it carries the required fields and is not
    expired, and its issuer is not trusted; the conversion of the
    issuance date throws into the outer [catch]. *)
Example validateVC_odd_credential :
  verifyCredential (ValidatorExamples.engineFor ValidatorExamples.oddCredentialPayload)
    (ValidatorExamples.servicesFor ValidatorExamples.decodedToken
       ValidatorExamples.oddCredentialPayload)
    ValidatorExamples.clock ValidatorExamples.credentialToken None
    = Continue (ValidatorExamples.oddCredentialPayload, Js.Str "did:example:unlisted",
                Js.getOpt ValidatorExamples.oddCredentialPayload "vc") /\
  fst ValidatorExamples.oddCredentialRun =
    {| valid := false;
       errors := Some ["Validation error: issuanceDate.toString is not a function"];
       warnings := None; issuer := None; issuanceDate := None; expirationDate := None;
       trusted := None; credentialSubject := None |}.
Proof. split; reflexivity. Qed.

(** C10, as the specification states it, fails: the sample credential
    with the odd issuance date meets every condition of the sentence,
    and [validateVC] answers [valid: false]. *)
Lemma untrusted_issuer_sentence_fails :
  ~ ValidatorExamples.untrustedIssuerSentence
      (ValidatorExamples.engineFor ValidatorExamples.oddCredentialPayload)
      (ValidatorExamples.servicesFor ValidatorExamples.decodedToken
         ValidatorExamples.oddCredentialPayload)
      None ValidatorExamples.clock ValidatorExamples.credentialToken noOptions ∅.
Proof.
  intros H.
  destruct (H ValidatorExamples.oddCredentialPayload (Js.Str "did:example:unlisted")
              (Js.getOpt ValidatorExamples.oddCredentialPayload "vc")
              eq_refl eq_refl eq_refl eq_refl eq_refl) as [Hvalid _].
  vm_compute in Hvalid. discriminate Hvalid.
Qed.

End VCValidatorFacts.

Module SDJWTValidatorFacts.
Import TrustResolver SDJWTValidator.

Section WithHost.
Context (engine : Engine) (services : Services).

(** The minimum-disclosure policy decides neither [valid] nor [errors]. *)
Lemma validateSDJWT_minimum_not_fatal fault clock token options cache m :
  valid (fst (validateSDJWT engine services fault clock token
                (ValidatorExamples.withMinimum m options) cache)) =
    valid (fst (validateSDJWT engine services fault clock token
                  (ValidatorExamples.withMinimum None options) cache)) /\
  errors (fst (validateSDJWT engine services fault clock token
                 (ValidatorExamples.withMinimum m options) cache)) =
    errors (fst (validateSDJWT engine services fault clock token
                   (ValidatorExamples.withMinimum None options) cache)).
Proof.
  unfold validateSDJWT, Js.bind. simpl.
  destruct (verifyToken services clock token (trustConfig options))
    as [[r | [[decoded issuerDID] verifiedPayload]] | t]; try (split; reflexivity).
  destruct (datesOf engine (payloadOf verifiedPayload)) as [dates | t];
    [|split; reflexivity].
  destruct (expiryErrors engine (orDefault (checkExpiration options) true)
              (expiryNow clock) (Js.getOpt (payloadOf verifiedPayload) "exp"))
    as [errs|t]; [|split; reflexivity].
  destruct (orDefault (checkTrust options) true).
  - destruct (isTrustedIssuerOf fault (trustNow clock) (trustToday clock) issuerDID
                (trustConfig options) cache) as [trustCheck c].
    destruct errs; split; reflexivity.
  - destruct errs; split; reflexivity.
Qed.

Lemma withMinimum_self options :
  ValidatorExamples.withMinimum (requireMinimumDisclosures options) options = options.
Proof. destruct options. reflexivity. Qed.

(** C9, as amended.  For a token that decodes, whose issuer resolves,
    whose signature verifies, whose [iat] and [exp] print as dates
    ([new Date(x * 1000).toISOString()] does not throw) and that is
    not expired, and for a positive required minimum, a count of
    disclosed claims below the minimum leaves [validateSDJWT] at
    [valid: true] without errors and adds the warning of the policy.
    In general the policy changes neither [valid] nor [errors]. *)
Theorem minimum_disclosure_is_warning_only fault clock token options cache
    decoded issuerDID verifiedPayload dates m :
  requireMinimumDisclosures options = Some m ->
  0 < m ->
  verifyToken services clock token (trustConfig options)
    = Js.Normal (Continue (decoded, issuerDID, verifiedPayload)) ->
  datesOf engine (payloadOf verifiedPayload) = Js.Normal dates ->
  expiryErrors engine (orDefault (checkExpiration options) true)
    (expiryNow clock) (Js.getOpt (payloadOf verifiedPayload) "exp") = Js.Normal [] ->
  countOf (disclosedClaimsOf decoded) < m ->
  (valid (fst (validateSDJWT engine services fault clock token options cache)) = true /\
   errors (fst (validateSDJWT engine services fault clock token options cache)) = None /\
   disclosureCount (fst (validateSDJWT engine services fault clock token options cache))
     = Some (countOf (disclosedClaimsOf decoded)) /\
   exists ws,
     warnings (fst (validateSDJWT engine services fault clock token options cache))
       = Some ws /\
     In (msgMinimum (countOf (disclosedClaimsOf decoded)) m) ws) /\
  (forall fault' clock' token' options' cache' m',
     valid (fst (validateSDJWT engine services fault' clock' token'
                   (ValidatorExamples.withMinimum m' options') cache')) =
       valid (fst (validateSDJWT engine services fault' clock' token'
                     (ValidatorExamples.withMinimum None options') cache')) /\
     errors (fst (validateSDJWT engine services fault' clock' token'
                    (ValidatorExamples.withMinimum m' options') cache')) =
       errors (fst (validateSDJWT engine services fault' clock' token'
                      (ValidatorExamples.withMinimum None options') cache'))).
Proof.
  intros Hm Hpos Hv Hd Hexp Hcount.
  split; [|intros; apply validateSDJWT_minimum_not_fatal].
  unfold validateSDJWT, Js.bind. rewrite Hv, Hd, Hexp, Hm.
  set (count := countOf (disclosedClaimsOf decoded)) in *.
  assert (Hw : minimumWarnings (Some m) count = [msgMinimum count m]).
  { unfold minimumWarnings.
    assert (Hne : (m =? 0) = false) by (apply Z.eqb_neq; lia).
    assert (Hlt : (count <? m) = true) by (apply Z.ltb_lt; lia).
    now rewrite Hne, Hlt. }
  rewrite Hw.
  destruct (orDefault (checkTrust options) true).
  - destruct (isTrustedIssuerOf fault (trustNow clock) (trustToday clock) issuerDID
                (trustConfig options) cache) as [trustCheck c].
    destruct (TrustResolver.trusted trustCheck); simpl;
      (repeat split; try reflexivity; eexists; split; [reflexivity | now left]).
  - simpl. repeat split; try reflexivity. eexists. split; [reflexivity | now left].
Qed.






End WithHost.

(** The sample token with one disclosure under a minimum of three:
    valid, warned. *)
Lemma minimum_disclosure_is_warning_only_witness :
  valid (fst ValidatorExamples.disclosureRun) = true /\
  errors (fst ValidatorExamples.disclosureRun) = None /\
  disclosureCount (fst ValidatorExamples.disclosureRun) = Some 1 /\
  exists ws, warnings (fst ValidatorExamples.disclosureRun) = Some ws /\
             In "Only 1 claims disclosed, required minimum: 3" ws.
Proof.
  unfold ValidatorExamples.disclosureRun.
  destruct (minimum_disclosure_is_warning_only ValidatorExamples.engine
              ValidatorExamples.services None ValidatorExamples.clock
              ValidatorExamples.disclosureToken ValidatorExamples.minimumOptions ∅
              ValidatorExamples.decodedToken (Js.Str "did:example:unlisted")
              (Some ValidatorExamples.credentialPayload)
              (None, Some "1900000000000") 3)
    as [H _]; try reflexivity.
  exact H.
Defined.

(** The sample token with a payload issued at 10^20 seconds: it
    decodes, its issuer resolves, its signature verifies, it carries
    no expiry, and it discloses one claim under a minimum of three;
    [new Date(iat * 1000).toISOString()] throws into the outer
    [catch]. *)
Example validateSDJWT_far_issued :
  verifyToken (ValidatorExamples.servicesFor ValidatorExamples.decodedToken
                 ValidatorExamples.farIssuedPayload)
    ValidatorExamples.clock ValidatorExamples.disclosureToken None
    = Js.Normal (Continue (ValidatorExamples.decodedToken, Js.Str "did:example:unlisted",
                           Some ValidatorExamples.farIssuedPayload)) /\
  countOf (disclosedClaimsOf ValidatorExamples.decodedToken) = 1 /\
  fst ValidatorExamples.farIssuedRun =
    {| valid := false; errors := Some ["Validation error: Invalid time value"];
       warnings := None; issuer := None; disclosedClaims := None; issuanceDate := None;
       expirationDate := None; trusted := None; disclosureCount := None |}.
Proof. repeat split; reflexivity. Qed.

(** C9, as the specification states it, fails: the sample token issued
    out of the range of [Date] meets every condition of the sentence,
    and [validateSDJWT] answers [valid: false]. *)
Lemma minimum_disclosure_sentence_fails :
  ~ ValidatorExamples.minimumDisclosureSentence ValidatorExamples.engine
      (ValidatorExamples.servicesFor ValidatorExamples.decodedToken
         ValidatorExamples.farIssuedPayload)
      None ValidatorExamples.clock ValidatorExamples.disclosureToken
      ValidatorExamples.minimumOptions ∅.
Proof.
  intros H.
  pose proof (H ValidatorExamples.decodedToken (Js.Str "did:example:unlisted")
                (Some ValidatorExamples.farIssuedPayload) 3
                eq_refl eq_refl eq_refl eq_refl eq_refl) as Hvalid.
  vm_compute in Hvalid. discriminate Hvalid.
Qed.

(** The scenario of the specification: no [age_over_18], [age_over_21:
    true], threshold 18. *)
Example scenario_age_over_21 :
  fst (verifyAgeOver ValidatorExamples.engine ValidatorExamples.services None
         ValidatorExamples.clock ValidatorExamples.disclosureToken 18 ∅) =
    {| verified := true; ageOver := Some 21; error := None |}.
Proof. reflexivity. Qed.

(** The calendar of the sample engine. *)
Example civil_dates :
  ValidatorExamples.civil 958780800000 = (2000, 4, 20) /\
  ValidatorExamples.civil 1200355200000 = (2008, 0, 15) /\
  ValidatorExamples.civil 1767225600003 = (2026, 0, 1) /\
  ValidatorExamples.civil 951782400000 = (2000, 1, 29) /\
  ValidatorExamples.civil (-1) = (1969, 11, 31).
Proof. repeat split; reflexivity. Qed.


End SDJWTValidatorFacts.

(* ================================================================== *)
(** * The life of a session: creation, lookup, status, cleanup        *)
(* ================================================================== *)

Module SessionLifecycleFacts.
Import SessionService.

Lemma clashes_false_iff row (t : Table) :
  clashes row t = false <->
  forall r, In r t -> id r <> id row /\ state r <> state row.
Proof.
  unfold clashes. split.
  - intros H r Hr.
    assert (Hf : String.eqb (id r) (id row) || String.eqb (state r) (state row) = false).
    { apply not_true_is_false. intros Ht.
      assert (He : existsb (fun r0 => String.eqb (id r0) (id row)
                                      || String.eqb (state r0) (state row)) t = true)
        by (apply existsb_exists; eauto).
      congruence. }
    apply orb_false_iff in Hf. destruct Hf as [H1 H2].
    apply String.eqb_neq in H1, H2. auto.
  - intros H. apply not_true_is_false. intros Ht. apply existsb_exists in Ht.
    destruct Ht as (r & Hr & Ho). destruct (H r Hr) as [H1 H2].
    apply orb_true_iff in Ho. destruct Ho as [Ho|Ho]; apply String.eqb_eq in Ho; congruence.
Qed.

Lemma filter_app_last {A} (p : A -> bool) (l : list A) (x : A) :
  (forall y, In y l -> p y = false) -> p x = true ->
  List.filter p (l ++ [x]) = [x].
Proof.
  intros Hl Hx. rewrite List.filter_app. simpl. rewrite Hx.
  rewrite (proj2 (SessionServiceFacts.filter_nil_iff p l) Hl). reflexivity.
Qed.

(** What a successful creation returns, and what the table holds. *)
Lemma createVPSession_success engine newId dbNow now st nc params (t : Table) session t' :
  createVPSession engine None newId dbNow now st nc params t = (Js.Normal session, t') ->
  let row := newRow engine newId dbNow st nc (now + minutesOf params * 60 * 1000) params in
  t' = t ++ [row] /\
  mapRowToSession engine row = Js.Normal session /\
  clashes row t = false /\
  Z.abs (now + minutesOf params * 60 * 1000) <= Js.maxTime.
Proof.
  unfold createVPSession, Js.timeClip.
  destruct (Z.abs (now + minutesOf params * 60 * 1000) <=? Js.maxTime) eqn:Hclip;
    [|intros H; discriminate H].
  apply Z.leb_le in Hclip.
  set (row := newRow engine newId dbNow st nc (now + minutesOf params * 60 * 1000) params).
  destruct (clashes row t) eqn:Hcl; [intros H; discriminate H|].
  destruct (mapRowToSession engine row) as [v|e] eqn:Hmap; [|intros H; discriminate H].
  intros H. injection H as <- <-. auto.
Qed.

(** X1.  A session that [createVPSession] returns is pending, carries
    the two random draws, and expires [expiresInMinutes] minutes (15
    when absent or zero) after the current time; the table holds it as
    a new last row; and looking it up by its state at any time up to
    its expiry returns that very session and leaves the table as it
    is. *)
Theorem createVPSession_then_lookup engine newId dbNow now st nc params (t : Table)
    session t' updateFault now' :
  createVPSession engine None newId dbNow now st nc params t = (Js.Normal session, t') ->
  now' <= sExpiresAt session ->
  sStatus session = pending /\
  sState session = st /\ sNonce session = nc /\
  sExpiresAt session = now + minutesOf params * 60000 /\
  length t' = S (length t) /\
  getVPSessionByState engine None updateFault now' st t' = (Some session, t').
Proof.
  intros Hc Hle.
  destruct (createVPSession_success engine newId dbNow now st nc params t session t' Hc)
    as (Ht' & Hmap & Hcl & _).
  set (row := newRow engine newId dbNow st nc (now + minutesOf params * 60 * 1000) params) in *.
  destruct (SessionServiceFacts.mapRowToSession_fields engine row session Hmap)
    as (Hid & Hstate & Hstatus & Hexp).
  assert (Hnonce : sNonce session = nc).
  { revert Hmap. unfold mapRowToSession, Js.bind. simpl.
    destruct (jsonParse engine (jsonStringify engine (pPresentationDefinition params)));
      [|discriminate].
    intros H. injection H as <-. reflexivity. }
  simpl in Hstate, Hstatus, Hexp.
  split; [exact Hstatus|]. split; [exact Hstate|]. split; [exact Hnonce|].
  split; [rewrite Hexp; lia|]. split; [rewrite Ht', length_app; simpl; lia|].
  unfold getVPSessionByState. rewrite Ht'.
  rewrite filter_app_last.
  - fold row. rewrite Hmap, Hstatus. simpl.
    assert (Hnot : (sExpiresAt session <? now') = false) by (apply Z.ltb_ge; lia).
    rewrite Hnot. reflexivity.
  - intros r Hr. apply String.eqb_neq.
    destruct (proj1 (clashes_false_iff row t) Hcl r Hr) as [_ H]. exact H.
  - simpl. apply String.eqb_refl.
Qed.

(** The sample table, a fresh identifier and state, the default
    lifetime: the session expires 900000 ms after its creation and is
    found at that very instant. *)
Lemma createVPSession_then_lookup_witness :
  exists session t',
    createVPSession SessionExamples.engine None "s4" 7000 7000 "state-4" "nonce-4"
      SessionExamples.params SessionExamples.table = (Js.Normal session, t') /\
    sExpiresAt session = 907000 /\
    getVPSessionByState SessionExamples.engine None None 907000 "state-4" t'
      = (Some session, t').
Proof.
  eexists. eexists. split; [reflexivity|].
  destruct (createVPSession_then_lookup SessionExamples.engine "s4" 7000 7000 "state-4"
              "nonce-4" SessionExamples.params SessionExamples.table _ _ None 907000
              eq_refl) as (_ & _ & _ & He & _ & Hl).
  - apply Z.leb_le. reflexivity.
  - split; [exact He | exact Hl].
Defined.

(** X2.  [createVPSession] fails, with the single message 'Failed to
    create VP session', exactly when the query rejects, the identifier
    or the state is already in the table, the expiry is not a date, or
    the stored definition does not parse back; in the first three cases
    the table is untouched. *)
Theorem createVPSession_failure engine fault newId dbNow now st nc params (t : Table) :
  let row := newRow engine newId dbNow st nc (now + minutesOf params * 60 * 1000) params in
  let run := createVPSession engine fault newId dbNow now st nc params t in
  ((exists e, fst run = Js.Throw e) <->
   (fault <> None \/ clashes row t = true \/
    Js.maxTime < Z.abs (now + minutesOf params * 60 * 1000) \/
    exists e, mapRowToSession engine row = Js.Throw e)) /\
  (forall e, fst run = Js.Throw e -> e = Js.ErrorObject "Failed to create VP session") /\
  (fault <> None \/ clashes row t = true \/
   Js.maxTime < Z.abs (now + minutesOf params * 60 * 1000) -> snd run = t).
Proof.
  intros row run. subst run. unfold createVPSession, Js.timeClip.
  destruct (Z.abs (now + minutesOf params * 60 * 1000) <=? Js.maxTime) eqn:Hclip.
  - apply Z.leb_le in Hclip. fold row.
    destruct fault as [f|].
    + simpl. split; [|split].
      * split; [intros _; left; discriminate | eauto].
      * intros e H. now injection H as <-.
      * reflexivity.
    + destruct (clashes row t) eqn:Hcl.
      * simpl. split; [|split].
        -- split; [intros _; right; left; reflexivity | eauto].
        -- intros e H. now injection H as <-.
        -- reflexivity.
      * destruct (mapRowToSession engine row) as [v|e] eqn:Hmap; simpl.
        -- split; [|split].
           ++ split; [intros [e H]; discriminate H|].
              intros [H|[H|[H|[e H]]]]; [congruence | discriminate | lia | discriminate].
           ++ intros e H. discriminate H.
           ++ intros [H|[H|H]]; [congruence | discriminate | lia].
        -- split; [|split].
           ++ split; [intros _; right; right; right; eauto | eauto].
           ++ intros e' H. now injection H as <-.
           ++ intros [H|[H|H]]; [congruence | discriminate | lia].
  - apply Z.leb_gt in Hclip. simpl. split; [|split].
    + split; [intros _; right; right; left; exact Hclip | eauto].
    + intros e H. now injection H as <-.
    + reflexivity.
Qed.

Lemma pendingExpired_spec dbNow r :
  pendingExpired dbNow r = true <-> status r = pending /\ expires_at r < dbNow.
Proof.
  unfold pendingExpired.
  rewrite andb_true_iff, SessionServiceFacts.statusEqb_eq, Z.ltb_lt. tauto.
Qed.

Lemma filter_length_split {A} (p : A -> bool) (l : list A) :
  length l = (length (List.filter p l) + length (List.filter (fun x => negb (p x)) l))%nat.
Proof.
  induction l as [|a l IH]; simpl; [reflexivity|].
  destruct (p a); simpl; lia.
Qed.

(** X3.  [cleanupExpiredSessions] removes exactly the rows that are
    pending with an expiry before the database's current time and
    returns their number; every other row stays, in its place in the
    order; sessions that are completed, failed or already marked
    expired are never removed; a second run at the same time removes
    nothing; and a query that rejects removes nothing and answers 0. *)
Theorem cleanupExpiredSessions_removes_expired_pending dbNow (t : Table) :
  Z.of_nat (length t) =
    fst (cleanupExpiredSessions None dbNow t)
    + Z.of_nat (length (snd (cleanupExpiredSessions None dbNow t))) /\
  (forall r, In r (snd (cleanupExpiredSessions None dbNow t)) <->
             In r t /\ ~ (status r = pending /\ expires_at r < dbNow)) /\
  (forall r, In r t -> status r <> pending ->
             In r (snd (cleanupExpiredSessions None dbNow t))) /\
  cleanupExpiredSessions None dbNow (snd (cleanupExpiredSessions None dbNow t)) =
    (0, snd (cleanupExpiredSessions None dbNow t)) /\
  (forall e, cleanupExpiredSessions (Some e) dbNow t = (0, t)).
Proof.
  unfold cleanupExpiredSessions. simpl.
  assert (Hin : forall r, In r (List.filter (fun r0 => negb (pendingExpired dbNow r0)) t) <->
                          In r t /\ ~ (status r = pending /\ expires_at r < dbNow)).
  { intros r. rewrite filter_In, negb_true_iff, <- pendingExpired_spec.
    destruct (pendingExpired dbNow r); split; intros [H1 H2]; split; auto; congruence. }
  split; [|split; [|split; [|split]]].
  - rewrite (filter_length_split (pendingExpired dbNow) t) at 1. lia.
  - exact Hin.
  - intros r Hr Hst. apply Hin. split; [assumption|]. intros [H _]. contradiction.
  - f_equal.
    + assert (Hnil : List.filter (pendingExpired dbNow)
                       (List.filter (fun r => negb (pendingExpired dbNow r)) t) = []).
      { apply SessionServiceFacts.filter_nil_iff. intros r Hr. apply filter_In in Hr.
        destruct Hr as [_ Hr]. now apply negb_true_iff in Hr. }
      now rewrite Hnil.
    + clear Hin. induction t as [|a t IH]; simpl; [reflexivity|].
      destruct (pendingExpired dbNow a) eqn:Hp; simpl; [exact IH|].
      rewrite Hp. simpl. now rewrite IH.
  - reflexivity.
Qed.

(** X4.  Reading and cleaning agree on expiry, and a read shields a
    session from the cleanup: for a pending row found by its state, the
    read at time [now] reports expired exactly when a cleanup at that
    time would delete the row; and once the read has stored expired,
    no later cleanup deletes the row. *)
Theorem read_and_cleanup_agree engine now st (t : Table) row rest session later :
  List.filter (fun r => String.eqb (state r) st) t = row :: rest ->
  mapRowToSession engine row = Js.Normal session ->
  status row = pending ->
  ((exists v, fst (getVPSessionByState engine None None now st t) = Some v /\
              sStatus v = expired) <->
   ~ In row (snd (cleanupExpiredSessions None now t))) /\
  (expires_at row < now ->
   In (setStatus expired row)
      (snd (cleanupExpiredSessions None later
              (snd (getVPSessionByState engine None None now st t))))).
Proof.
  intros Hsel Hmap Hst.
  destruct (SessionServiceFacts.mapRowToSession_fields engine row session Hmap)
    as (Hid & Hstate & Hstatus & Hexp).
  assert (Hin : In row t).
  { assert (H : In row (List.filter (fun r => String.eqb (state r) st) t))
      by (rewrite Hsel; now left).
    apply filter_In in H. tauto. }
  unfold getVPSessionByState. rewrite Hsel, Hmap, Hstatus, Hst, Hexp. simpl statusEqb.
  cbv iota. simpl andb.
  destruct (expires_at row <? now) eqn:Hlt.
  - apply Z.ltb_lt in Hlt. simpl. split.
    + split.
      * intros _ Hr. apply filter_In in Hr. destruct Hr as [_ Hr].
        apply negb_true_iff in Hr.
        assert (pendingExpired now row = true) by (apply pendingExpired_spec; auto).
        congruence.
      * intros _. eexists. split; reflexivity.
    + intros _. apply filter_In. split; [|reflexivity].
      apply in_map_iff. exists row. rewrite Hid, String.eqb_refl. auto.
  - apply Z.ltb_ge in Hlt. simpl. split.
    + split.
      * intros (v & Hv & Hs). injection Hv as <-. congruence.
      * intros Hnot. exfalso. apply Hnot. apply filter_In. split; [assumption|].
        apply negb_true_iff, not_true_is_false. intros Hp.
        apply pendingExpired_spec in Hp. lia.
    + intros H. lia.
Qed.

(** On the sample table, session [s3] (pending, expired since 5000):
    read at 6000, then cleaned at 9000, it is still there, expired. *)
Lemma read_and_cleanup_agree_witness :
  In (setStatus expired (SessionExamples.row "s3" "state-3" pending 5000))
     (snd (cleanupExpiredSessions None 9000
             (snd (getVPSessionByState SessionExamples.engine None None 6000 "state-3"
                     SessionExamples.table)))).
Proof.
  destruct (read_and_cleanup_agree SessionExamples.engine 6000 "state-3"
              SessionExamples.table (SessionExamples.row "s3" "state-3" pending 5000) []
              {| sId := "s3"; sState := "state-3"; sNonce := "n-s3";
                 sPresentationDefinition := Js.Obj [("id", Js.Str "pd-1")];
                 sRedirectUri := None; sClientId := None;
                 sResponseMode := Some "direct_post"; sCreatedAt := 1000;
                 sExpiresAt := 5000; sStatus := pending; sVpToken := None;
                 sPresentationSubmission := Js.Null; sCompletedAt := None |}
              9000 eq_refl eq_refl eq_refl) as [_ H].
  apply H. apply Z.ltb_lt. reflexivity.
Defined.

(** X5.  [updateSessionStatus] is not conditioned on the current
    status: when its statement runs, every row of the session takes the
    given status whatever it was (a completed session can be set back
    to pending or to failed), no other row changes, and the answer
    tells whether the session exists; when the query rejects, the
    answer is [false] and nothing changes. *)
Theorem updateSessionStatus_overwrites sid st (t : Table) :
  (fst (updateSessionStatus None sid st t) = true <-> exists r, In r t /\ id r = sid) /\
  Forall2 (fun r r' => (id r = sid /\ r' = setStatus st r /\ status r' = st) \/
                       (id r <> sid /\ r' = r))
          t (snd (updateSessionStatus None sid st t)) /\
  (forall e, updateSessionStatus (Some e) sid st t = (false, t)).
Proof.
  unfold updateSessionStatus. simpl. split; [|split].
  - rewrite negb_true_iff. split.
    + intros H.
      destruct (List.filter (fun r => String.eqb (id r) sid) t) as [|r l] eqn:Hf;
        [discriminate H|].
      assert (Hin : In r (List.filter (fun r => String.eqb (id r) sid) t))
        by (rewrite Hf; now left).
      apply filter_In in Hin. destruct Hin as [Hin He]. apply String.eqb_eq in He. eauto.
    + intros (r & Hr & Hid).
      destruct (List.filter (fun r => String.eqb (id r) sid) t) as [|r0 l] eqn:Hf;
        [|reflexivity].
      exfalso. pose proof (proj1 (SessionServiceFacts.filter_nil_iff _ t) Hf r Hr) as H.
      simpl in H. rewrite Hid, String.eqb_refl in H. discriminate H.
  - apply SessionServiceFacts.Forall2_map_self. intros r.
    destruct (String.eqb (id r) sid) eqn:He.
    + apply String.eqb_eq in He. left. auto.
    + apply String.eqb_neq in He. right. auto.
  - reflexivity.
Qed.

(** A lookup rewrites statuses only: the keys of the table stay. *)
Lemma getVPSessionByState_keys engine selectFault updateFault now st (t : Table) :
  map id (snd (getVPSessionByState engine selectFault updateFault now st t)) = map id t /\
  map state (snd (getVPSessionByState engine selectFault updateFault now st t)) = map state t.
Proof.
  unfold getVPSessionByState.
  destruct selectFault; [simpl; auto|].
  destruct (List.filter (fun r => String.eqb (state r) st) t) as [|row rest];
    [simpl; auto|].
  destruct (mapRowToSession engine row) as [session|e]; [|simpl; auto].
  destruct (statusEqb (sStatus session) pending && (sExpiresAt session <? now));
    [|simpl; auto].
  unfold updateSessionStatus. destruct updateFault; simpl; [auto|].
  rewrite !map_map.
  split; apply map_ext; intros r; destruct (String.eqb (id r) (sId session)); reflexivity.
Qed.

(** X6.  Whatever the table and the faults, [getVPSessionByState]
    answers with a session of the requested state that is never both
    pending and past its expiry, or with no session; it never adds or
    removes a row; and when it answers with no session the table is
    untouched. *)
Theorem getVPSessionByState_answers engine selectFault updateFault now st (t : Table) :
  match fst (getVPSessionByState engine selectFault updateFault now st t) with
  | Some v => sState v = st /\ ~ (sStatus v = pending /\ sExpiresAt v < now)
  | None => snd (getVPSessionByState engine selectFault updateFault now st t) = t
  end /\
  length (snd (getVPSessionByState engine selectFault updateFault now st t)) = length t /\
  map id (snd (getVPSessionByState engine selectFault updateFault now st t)) = map id t /\
  map state (snd (getVPSessionByState engine selectFault updateFault now st t)) = map state t.
Proof.
  unfold getVPSessionByState.
  destruct selectFault; [simpl; auto|].
  destruct (List.filter (fun r => String.eqb (state r) st) t) as [|row rest] eqn:Hsel;
    [simpl; auto|].
  destruct (mapRowToSession engine row) as [session|e] eqn:Hmap; [|simpl; auto].
  destruct (SessionServiceFacts.mapRowToSession_fields engine row session Hmap)
    as (Hid & Hstate & Hstatus & Hexp).
  assert (Hrs : state row = st).
  { assert (H : In row (List.filter (fun r => String.eqb (state r) st) t))
      by (rewrite Hsel; now left).
    apply filter_In in H. destruct H as [_ H]. now apply String.eqb_eq in H. }
  destruct (statusEqb (sStatus session) pending && (sExpiresAt session <? now)) eqn:Hc.
  - unfold updateSessionStatus. destruct updateFault; simpl.
    + split; [split; [congruence | intros [H _]; discriminate H] | auto].
    + split; [split; [congruence | intros [H _]; discriminate H]|].
      rewrite length_map, !map_map. split; [reflexivity|].
      split; apply map_ext; intros r; destruct (String.eqb (id r) (sId session));
        reflexivity.
  - simpl. split; [|auto]. split; [congruence|].
    intros [Hp Hlt]. rewrite Hp in Hc. simpl in Hc. apply Z.ltb_ge in Hc. lia.
Qed.

Lemma NoDup_map_filter {A B} (f : A -> B) (p : A -> bool) (l : list A) :
  List.NoDup (map f l) -> List.NoDup (map f (List.filter p l)).
Proof.
  induction l as [|a l IH]; simpl; intros H; [constructor|].
  apply List.NoDup_cons_iff in H. destruct H as [Hn Hd].
  destruct (p a); simpl; [|now apply IH].
  apply List.NoDup_cons_iff. split; [|now apply IH].
  intros Hin. apply Hn. apply in_map_iff in Hin. destruct Hin as (x & He & Hx).
  apply filter_In in Hx. apply in_map_iff. exists x. tauto.
Qed.

Lemma map_key_if {B} (key : DBRow -> B) (p : DBRow -> bool) (f : DBRow -> DBRow)
    (t : Table) :
  (forall r, key (f r) = key r) ->
  map key (map (fun r => if p r then f r else r) t) = map key t.
Proof.
  intros H. rewrite map_map. apply map_ext. intros r. destruct (p r); auto.
Qed.

(** X7.  The two uniqueness constraints of the table, on [id] and on
    [state], hold after every operation of the session service when
    they hold before it: creation, lookup with its expiry update,
    status update, completion and cleanup. *)
Theorem wellKeyed_preserved engine (t : Table) :
  wellKeyed t ->
  (forall fault newId dbNow now st nc params,
     wellKeyed (snd (createVPSession engine fault newId dbNow now st nc params t))) /\
  (forall selectFault updateFault now st,
     wellKeyed (snd (getVPSessionByState engine selectFault updateFault now st t))) /\
  (forall fault sid st, wellKeyed (snd (updateSessionStatus fault sid st t))) /\
  (forall fault dbNow sid tok sub,
     wellKeyed (snd (completeVPSession engine fault dbNow sid tok sub t))) /\
  (forall fault dbNow, wellKeyed (snd (cleanupExpiredSessions fault dbNow t))).
Proof.
  intros [Hid Hst]. split; [|split; [|split; [|split]]].
  - intros fault newId dbNow now st nc params. unfold createVPSession.
    destruct (Js.timeClip (Some (now + minutesOf params * 60 * 1000))) as [ex|];
      [|split; assumption].
    destruct fault; [split; assumption|].
    destruct (clashes (newRow engine newId dbNow st nc ex params) t) eqn:Hcl;
      [split; assumption|].
    pose proof (proj1 (clashes_false_iff _ t) Hcl) as Hfresh.
    assert (Hwk : wellKeyed (t ++ [newRow engine newId dbNow st nc ex params])).
    { split; rewrite map_app; simpl;
        (apply List.NoDup_app;
         [assumption | constructor; [intros [] | constructor] |]);
        intros x Hx [<-|[]]; apply in_map_iff in Hx; destruct Hx as (r & He & Hr);
        destruct (Hfresh r Hr) as [H1 H2]; simpl in *; congruence. }
    destruct (mapRowToSession engine (newRow engine newId dbNow st nc ex params));
      exact Hwk.
  - intros selectFault updateFault now st.
    destruct (getVPSessionByState_keys engine selectFault updateFault now st t)
      as (Hi & Hs).
    split; [now rewrite Hi | now rewrite Hs].
  - intros fault sid st. unfold updateSessionStatus. destruct fault; [split; assumption|].
    simpl. split; rewrite map_key_if; auto.
  - intros fault dbNow sid tok sub. unfold completeVPSession.
    destruct fault; [split; assumption|].
    assert (Hsnd : forall (b : bool) (x : Table),
               snd (if b then (false, x) else (true, x)) = x) by (intros [] ?; reflexivity).
    cbv zeta. rewrite Hsnd. split; rewrite map_key_if; auto.
  - intros fault dbNow. unfold cleanupExpiredSessions. destruct fault; [split; assumption|].
    simpl. split; now apply NoDup_map_filter.
Qed.

Lemma wellKeyed_preserved_witness :
  wellKeyed SessionExamples.table /\
  wellKeyed (snd (createVPSession SessionExamples.engine None "s4" 7000 7000 "state-4"
                    "nonce-4" SessionExamples.params SessionExamples.table)).
Proof.
  assert (Hwk : wellKeyed SessionExamples.table).
  { split; simpl; repeat (apply List.NoDup_cons; [simpl; intuition discriminate|]);
      constructor. }
  split; [exact Hwk|].
  apply (proj1 (wellKeyed_preserved SessionExamples.engine SessionExamples.table Hwk)).
Defined.

End SessionLifecycleFacts.

(* ================================================================== *)
(** * Further properties of lib/presentationDefinition.ts             *)
(* ================================================================== *)

Module MatcherFacts.
Import PresentationDefinition.
Import PresentationDefinitionFacts.

Lemma find_app {A} (p : A -> bool) (l l' : list A) :
  find p (l ++ l') = match find p l with
                     | Some x => Some x
                     | None => find p l'
                     end.
Proof.
  induction l as [|a l IH]; simpl; [reflexivity|].
  destruct (p a); [reflexivity | apply IH].
Qed.

Lemma stepErrors_nil s cs d :
  stepErrors s cs d = [] <->
  match findMapping s d with
  | Some _ => resolves s cs d = true
  | None => someOptional d = true
  end.
Proof.
  unfold stepErrors. destruct (findMapping s d) as [m|].
  - destruct (resolves s cs d); split; intros H; try reflexivity; discriminate H.
  - destruct (someOptional d); split; intros H; try reflexivity; discriminate H.
Qed.

Lemma flat_map_nil_iff {A B} (f : A -> list B) (l : list A) :
  flat_map f l = [] <-> forall x, In x l -> f x = [].
Proof.
  split; [|apply flat_map_nil].
  induction l as [|a l IH]; simpl; intros H x Hx; [destruct Hx|].
  apply app_eq_nil in H. destruct H as [Ha Hl].
  destruct Hx as [<-|Hx]; [assumption | now apply IH].
Qed.

Lemma resolves_mapped s cs d : resolves s cs d = true -> findMapping s d <> None.
Proof. unfold resolves. destruct (findMapping s d); [discriminate | intros H; discriminate H]. Qed.

Lemma required_matched_iff s cs pd :
  forallb (fun d => includes (resolvedIds s cs pd) (id d))
    (List.filter (fun d => negb (everyOptional d)) (input_descriptors pd)) = true <->
  forall d, In d (input_descriptors pd) -> everyOptional d = false ->
            resolves s cs d = true.
Proof.
  split; [|apply required_matched_when_resolved].
  intros H d Hd Hreq.
  assert (Hin : In d (List.filter (fun d => negb (everyOptional d)) (input_descriptors pd))).
  { apply filter_In. split; [assumption|]. now rewrite Hreq. }
  pose proof (proj1 (forallb_forall _ _) H d Hin) as Hm.
  apply (proj1 (includes_In _ _)) in Hm.
  apply (proj1 (resolvedIds_In _ _ _ _)) in Hm.
  destruct Hm as (d' & _ & Hr & He). now rewrite (resolves_id s cs d d' (eq_sym He)).
Qed.

(** The validity of an evaluation, on its two ingredients. *)
Lemma evaluate_valid_true vp pd s :
  presentation_submission vp = Some s ->
  definition_id s = pdId pd ->
  valid (evaluatePresentationSubmission vp pd) = true <->
  flat_map (stepErrors s (credentialsOf vp)) (input_descriptors pd) = [] /\
  forallb (fun d => includes (resolvedIds s (credentialsOf vp) pd) (id d))
    (List.filter (fun d => negb (everyOptional d)) (input_descriptors pd)) = true.
Proof.
  intros Hs Hid. rewrite (evaluate_unfold vp pd s Hs Hid). cbv zeta.
  destruct (forallb _ _).
  - destruct (flat_map _ _) as [|e es]; simpl; split; intros H;
      try (split; reflexivity); try discriminate H.
    destruct H as [H _]. discriminate H.
  - destruct (flat_map _ _ ++ [msgNotAll]) eqn:E; simpl.
    + apply app_eq_nil in E. destruct E as [_ E]. discriminate E.
    + split; intros H; [discriminate H | destruct H as [_ H]; discriminate H].
Qed.

(** X8.  An evaluation is valid exactly when the presentation carries
    a submission that names the definition and, for every input
    descriptor, either the first map entry with its identifier selects
    an existing credential, or there is no such entry and the
    descriptor has fields that are all optional. *)
Theorem evaluate_valid_iff vp pd :
  valid (evaluatePresentationSubmission vp pd) = true <->
  exists s,
    presentation_submission vp = Some s /\
    definition_id s = pdId pd /\
    forall d, In d (input_descriptors pd) ->
      match findMapping s d with
      | Some _ => resolves s (credentialsOf vp) d = true
      | None => someOptional d = true /\ everyOptional d = true
      end.
Proof.
  split.
  - intros Hv. unfold evaluatePresentationSubmission in Hv.
    destruct (presentation_submission vp) as [s|] eqn:Hs; [|discriminate Hv].
    destruct (String.eqb (definition_id s) (pdId pd)) eqn:Hid; [|discriminate Hv].
    apply String.eqb_eq in Hid.
    assert (Hv' : valid (evaluatePresentationSubmission vp pd) = true).
    { unfold evaluatePresentationSubmission. rewrite Hs, Hid, String.eqb_refl. exact Hv. }
    exists s. split; [reflexivity|]. split; [assumption|].
    apply (proj1 (evaluate_valid_true vp pd s Hs Hid)) in Hv'.
    destruct Hv' as [He Hr].
    pose proof (proj1 (flat_map_nil_iff _ _) He) as He'.
    pose proof (proj1 (required_matched_iff _ _ _) Hr) as Hr'.
    intros d Hd. specialize (He' d Hd). specialize (Hr' d Hd).
    apply (proj1 (stepErrors_nil _ _ _)) in He'.
    destruct (findMapping s d) eqn:Hm; [assumption|].
    split; [assumption|].
    destruct (everyOptional d); [reflexivity|].
    specialize (Hr' eq_refl). apply resolves_mapped in Hr'. now rewrite Hm in Hr'.
  - intros (s & Hs & Hid & H).
    apply (proj2 (evaluate_valid_true vp pd s Hs Hid)). split.
    + apply flat_map_nil. intros d Hd. apply (proj2 (stepErrors_nil _ _ _)).
      specialize (H d Hd). destruct (findMapping s d); [assumption | apply H].
    + apply required_matched_when_resolved. intros d Hd Hreq.
      specialize (H d Hd). destruct (findMapping s d); [assumption|].
      destruct H as [_ H]. rewrite Hreq in H. discriminate H.
Qed.

(** X9.  The shape of every answer of the matcher: it is valid exactly
    when it carries no error list; an invalid answer carries at least
    one error; the matched identifiers, when reported, are the
    identifiers of the descriptors whose map entry selects an existing
    credential, in the order of the definition, so there are at most
    as many as descriptors; and they are left out exactly when the
    submission is missing or names another definition. *)
Theorem evaluate_result_shape vp pd :
  let r := evaluatePresentationSubmission vp pd in
  (valid r = true <-> errors r = None) /\
  (valid r = false -> exists e es, errors r = Some (e :: es)) /\
  (forall ms, matchedDescriptors r = Some ms ->
     exists s, presentation_submission vp = Some s /\
               ms = resolvedIds s (credentialsOf vp) pd /\
               (length ms <= length (input_descriptors pd))%nat) /\
  (matchedDescriptors r = None <->
     match presentation_submission vp with
     | Some s => definition_id s <> pdId pd
     | None => True
     end).
Proof.
  cbv zeta. unfold evaluatePresentationSubmission.
  destruct (presentation_submission vp) as [s|] eqn:Hs.
  2:{ simpl. repeat split; try discriminate; eauto. }
  destruct (String.eqb (definition_id s) (pdId pd)) eqn:Hid; simpl negb; cbv iota.
  2:{ simpl. apply String.eqb_neq in Hid. repeat split; try discriminate; eauto. }
  apply String.eqb_eq in Hid.
  rewrite fold_descriptorStep. cbn [app].
  fold (resolvedIds s (credentialsOf vp) pd).
  assert (Hlen : (length (resolvedIds s (credentialsOf vp) pd)
                  <= length (input_descriptors pd))%nat).
  { unfold resolvedIds. rewrite length_map. apply List.filter_length_le. }
  destruct (if forallb _ _ then _ else _) as [|e es]; simpl.
  - split; [tauto|]. split; [discriminate|]. split.
    + intros ms [= <-]. exists s. auto.
    + split; [discriminate | intros H; now destruct H].
  - split; [split; discriminate|]. split; [eauto|]. split.
    + intros ms [= <-]. exists s. auto.
    + split; [discriminate | intros H; now destruct H].
Qed.

Lemma flat_map_ext_in' {A B} (f g : A -> list B) (l : list A) :
  (forall x, In x l -> f x = g x) -> flat_map f l = flat_map g l.
Proof.
  induction l as [|a l IH]; intros H; simpl; [reflexivity|].
  rewrite (H a (or_introl eq_refl)). f_equal. apply IH. intros x Hx. apply H. now right.
Qed.

Lemma filter_ext_in' {A} (f g : A -> bool) (l : list A) :
  (forall x, In x l -> f x = g x) -> List.filter f l = List.filter g l.
Proof.
  induction l as [|a l IH]; intros H; simpl; [reflexivity|].
  rewrite (H a (or_introl eq_refl)). rewrite IH; [reflexivity|].
  intros x Hx. apply H. now right.
Qed.

(** The matcher reads a submission through [findMapping] only. *)
Lemma evaluate_ext vp vp' pd s s' :
  presentation_submission vp = Some s ->
  presentation_submission vp' = Some s' ->
  definition_id s = definition_id s' ->
  credentialsOf vp = credentialsOf vp' ->
  (forall d, In d (input_descriptors pd) -> findMapping s d = findMapping s' d) ->
  evaluatePresentationSubmission vp pd = evaluatePresentationSubmission vp' pd.
Proof.
  intros Hs Hs' Hid Hc Hf. unfold evaluatePresentationSubmission.
  rewrite Hs, Hs', <- Hid, <- Hc.
  destruct (negb (String.eqb (definition_id s) (pdId pd))).
  - reflexivity.
  - rewrite !fold_descriptorStep. cbn [app].
    assert (Hr : forall d, In d (input_descriptors pd) ->
                 resolves s (credentialsOf vp) d = resolves s' (credentialsOf vp) d).
    { intros d Hd. unfold resolves. now rewrite (Hf d Hd). }
    assert (He : forall d, In d (input_descriptors pd) ->
                 stepErrors s (credentialsOf vp) d = stepErrors s' (credentialsOf vp) d).
    { intros d Hd. unfold stepErrors. now rewrite (Hf d Hd), (Hr d Hd). }
    rewrite (flat_map_ext_in' _ _ _ He), (filter_ext_in' _ _ _ Hr). reflexivity.
Qed.

(** X10.  The first map entry of an identifier decides: entries added
    at the end of the descriptor map whose identifier already occurs
    in the map, or is the identifier of no input descriptor, do not
    change the answer of the matcher. *)
Theorem evaluate_ignores_later_entries vp pd s extra :
  presentation_submission vp = Some s ->
  (forall e, In e extra ->
     (exists m, In m (descriptor_map s) /\ mapId m = mapId e) \/
     (forall d, In d (input_descriptors pd) -> id d <> mapId e)) ->
  evaluatePresentationSubmission (withMoreEntries extra vp) pd =
  evaluatePresentationSubmission vp pd.
Proof.
  intros Hs Hextra.
  apply (evaluate_ext (withMoreEntries extra vp) vp pd
           {| psId := psId s; definition_id := definition_id s;
              descriptor_map := descriptor_map s ++ extra |} s).
  - unfold withMoreEntries. simpl. now rewrite Hs.
  - assumption.
  - reflexivity.
  - reflexivity.
  - intros d Hd. unfold findMapping. simpl. rewrite find_app.
    destruct (find _ (descriptor_map s)) eqn:Hf; [reflexivity|].
    destruct (find (fun m => String.eqb (mapId m) (id d)) extra) as [e|] eqn:He;
      [|reflexivity].
    exfalso. apply find_some in He. destruct He as [Hin Heq].
    apply String.eqb_eq in Heq.
    destruct (Hextra e Hin) as [(m & Hm & Hme)|Hno].
    + pose proof (find_none _ _ Hf m Hm) as Hn. simpl in Hn.
      rewrite Hme, Heq, String.eqb_refl in Hn. discriminate Hn.
    + apply (Hno d Hd). now symmetry.
Qed.

Lemma evaluate_ignores_later_entries_witness :
  evaluatePresentationSubmission
    (withMoreEntries [MatcherExamples.entry "id_credential" "$.verifiableCredential[9]";
                      MatcherExamples.entry "unknown" "$"]
       MatcherExamples.vpScenario) MatcherExamples.pdScenario =
  evaluatePresentationSubmission MatcherExamples.vpScenario MatcherExamples.pdScenario.
Proof.
  apply (evaluate_ignores_later_entries MatcherExamples.vpScenario MatcherExamples.pdScenario
           (MatcherExamples.submission
              [MatcherExamples.entry "id_credential" "$.verifiableCredential[0]"])).
  - reflexivity.
  - intros e [<-|[<-|[]]].
    + left. eexists. split; [left; reflexivity | reflexivity].
    + right. intros d [<-|[]]. discriminate.
Defined.

Lemma evaluate_matched vp pd s :
  presentation_submission vp = Some s ->
  definition_id s = pdId pd ->
  matchedDescriptors (evaluatePresentationSubmission vp pd) =
    Some (resolvedIds s (credentialsOf vp) pd).
Proof.
  intros Hs Hid. rewrite (evaluate_unfold vp pd s Hs Hid). cbv zeta.
  destruct (if forallb _ _ then _ else _); reflexivity.
Qed.

Lemma everyOptional_created spec : everyOptional (descriptorOfSpec spec) = false.
Proof. reflexivity. Qed.

(** X11.  A definition made by [createPresentationDefinition] has no
    optional descriptor, whatever [optional] flags its field
    specifications carry: every descriptor is required, and a
    presentation that names the definition is valid exactly when every
    descriptor resolves to an existing credential, in which case all
    identifiers are matched, in order. *)
Theorem created_definition_requires_every_descriptor i specs vp s :
  presentation_submission vp = Some s ->
  definition_id s = i ->
  let pd := createPresentationDefinition i specs in
  requiredIds pd = map dsId specs /\
  (valid (evaluatePresentationSubmission vp pd) = true <->
   forall spec, In spec specs ->
     resolves s (credentialsOf vp) (descriptorOfSpec spec) = true) /\
  (valid (evaluatePresentationSubmission vp pd) = true ->
   matchedDescriptors (evaluatePresentationSubmission vp pd) = Some (map dsId specs)).
Proof.
  intros Hs Hid pd.
  assert (Hreq : List.filter (fun d => negb (everyOptional d)) (input_descriptors pd)
                 = input_descriptors pd).
  { unfold pd. simpl. induction specs as [|x xs IH]; simpl; [reflexivity | now rewrite IH]. }
  assert (Hiff : valid (evaluatePresentationSubmission vp pd) = true <->
                 forall spec, In spec specs ->
                   resolves s (credentialsOf vp) (descriptorOfSpec spec) = true).
  { rewrite (evaluate_valid_true vp pd s Hs Hid), required_matched_iff. split.
    - intros [_ H] spec Hspec. apply H; [|apply everyOptional_created].
      unfold pd. simpl. now apply in_map.
    - intros H.
      assert (Hall : forall d, In d (input_descriptors pd) ->
                               resolves s (credentialsOf vp) d = true).
      { intros d Hd. unfold pd in Hd. simpl in Hd. apply in_map_iff in Hd.
        destruct Hd as (spec & <- & Hspec). now apply H. }
      split; [|auto].
      apply flat_map_nil. intros d Hd. apply (proj2 (stepErrors_nil _ _ _)).
      pose proof (resolves_mapped _ _ _ (Hall d Hd)) as Hm.
      destruct (findMapping s d); [now apply Hall | now destruct Hm]. }
  split; [|split].
  - unfold requiredIds. rewrite Hreq. unfold pd. simpl. rewrite map_map. reflexivity.
  - exact Hiff.
  - intros Hv. pose proof (proj1 Hiff Hv) as Hall.
    rewrite (evaluate_matched vp pd s Hs Hid). f_equal.
    unfold resolvedIds. rewrite (filter_ext_in' _ (fun _ => true)).
    + unfold pd. cbn [input_descriptors createPresentationDefinition]. clear.
      induction specs as [|x xs IH]; simpl; [reflexivity|]. now f_equal.
    + intros d Hd. unfold pd in Hd. simpl in Hd. apply in_map_iff in Hd.
      destruct Hd as (spec & <- & Hspec). now apply Hall.
Qed.

Lemma created_definition_requires_every_descriptor_witness :
  requiredIds (createPresentationDefinition "pd-1" MatcherExamples.specs)
    = map dsId MatcherExamples.specs /\
  (valid (evaluatePresentationSubmission MatcherExamples.vpRequiredOnly
            (createPresentationDefinition "pd-1" MatcherExamples.specs)) = true <->
   forall spec, In spec MatcherExamples.specs ->
     resolves (MatcherExamples.submission
                 [MatcherExamples.entry "id_credential" "$.verifiableCredential[0]"])
       (credentialsOf MatcherExamples.vpRequiredOnly) (descriptorOfSpec spec) = true) /\
  (valid (evaluatePresentationSubmission MatcherExamples.vpRequiredOnly
            (createPresentationDefinition "pd-1" MatcherExamples.specs)) = true ->
   matchedDescriptors (evaluatePresentationSubmission MatcherExamples.vpRequiredOnly
            (createPresentationDefinition "pd-1" MatcherExamples.specs))
     = Some (map dsId MatcherExamples.specs)).
Proof.
  exact (created_definition_requires_every_descriptor "pd-1" MatcherExamples.specs
           MatcherExamples.vpRequiredOnly
           (MatcherExamples.submission
              [MatcherExamples.entry "id_credential" "$.verifiableCredential[0]"])
           eq_refl eq_refl).
Defined.

Lemma bind_normal_inv {A B} (c : Js.Completion A) (k : A -> Js.Completion B) b :
  Js.bind c k = Js.Normal b <-> exists a, c = Js.Normal a /\ k a = Js.Normal b.
Proof.
  destruct c as [a|t]; simpl; split.
  - eauto.
  - intros (a' & [= <-] & H). exact H.
  - discriminate.
  - intros (a' & H & _). discriminate H.
Qed.

Lemma hasFields_get names v :
  hasFields names v <->
  nullish v = false /\ forall n, In n names -> Js.truthy (Js.getOpt v n) = true.
Proof.
  unfold hasFields. split.
  - intros (Hu & Hn & H). split; [|assumption].
    destruct v; try reflexivity; [now destruct Hu | now destruct Hn].
  - intros (Hn & H). split; [|split]; try assumption; intros ->; discriminate Hn.
Qed.

Lemma get_nullish v key :
  Js.get v key = if nullish v
                 then Js.Throw (Js.ErrorObject "Cannot read properties of undefined or null")
                 else Js.Normal (Js.getOpt v key).
Proof. destruct v; reflexivity. Qed.

Lemma descriptorSchemaErrors_cases items : forall index,
  match descriptorSchemaErrors index items with
  | Js.Normal errs =>
      existsb nullish items = false /\
      (errs = [] <-> Forall (hasFields ["id"; "constraints"]) items)
  | Js.Throw _ => existsb nullish items = true
  end.
Proof.
  induction items as [|d rest IH]; intros index; cbn [descriptorSchemaErrors].
  - split; [reflexivity|]. split; auto.
  - rewrite get_nullish. cbn [existsb]. destruct (nullish d) eqn:Hn; simpl; [reflexivity|].
    specialize (IH (S index)).
    destruct (descriptorSchemaErrors (S index) rest) as [more|t]; simpl; [|assumption].
    destruct IH as [Hex IH]. split; [assumption|].
    rewrite Forall_cons_iff, hasFields_get, <- IH. split.
    + intros H. apply app_eq_nil in H. destruct H as [H ->].
      apply app_eq_nil in H. destruct H as [H1 H2].
      split; [|reflexivity]. split; [assumption|].
      intros n [<-|[<-|[]]].
      * destruct (Js.truthy (Js.getOpt d "id")); [reflexivity | discriminate H1].
      * destruct (Js.truthy (Js.getOpt d "constraints")); [reflexivity | discriminate H2].
    + intros [[_ H] ->].
      rewrite (H "id"), (H "constraints"); simpl; auto.
Qed.

Lemma mapSchemaErrors_cases items : forall index,
  match mapSchemaErrors index items with
  | Js.Normal errs =>
      existsb nullish items = false /\
      (errs = [] <-> Forall (hasFields ["id"; "format"; "path"]) items)
  | Js.Throw _ => existsb nullish items = true
  end.
Proof.
  induction items as [|d rest IH]; intros index; cbn [mapSchemaErrors].
  - split; [reflexivity|]. split; auto.
  - rewrite get_nullish. cbn [existsb]. destruct (nullish d) eqn:Hn; simpl; [reflexivity|].
    specialize (IH (S index)).
    destruct (mapSchemaErrors (S index) rest) as [more|t]; simpl; [|assumption].
    destruct IH as [Hex IH]. split; [assumption|].
    rewrite Forall_cons_iff, hasFields_get, <- IH. split.
    + intros H. apply app_eq_nil in H. destruct H as [H ->].
      apply app_eq_nil in H. destruct H as [H1 H].
      apply app_eq_nil in H. destruct H as [H2 H3].
      split; [|reflexivity]. split; [assumption|].
      intros n [<-|[<-|[<-|[]]]].
      * destruct (Js.truthy (Js.getOpt d "id")); [reflexivity | discriminate H1].
      * destruct (Js.truthy (Js.getOpt d "format")); [reflexivity | discriminate H2].
      * destruct (Js.truthy (Js.getOpt d "path")); [reflexivity | discriminate H3].
    + intros [[_ H] ->].
      rewrite (H "id"), (H "format"), (H "path"); simpl; auto.
Qed.

Lemma schemaResult_accepts errs :
  schemaResult errs = {| schemaValid := true; schemaErrors := None |} <-> errs = [].
Proof. destruct errs; simpl; split; intros H; try reflexivity; discriminate H. Qed.

Lemma schemaResult_shape errs :
  let r := schemaResult errs in
  (schemaValid r = true /\ schemaErrors r = None) \/
  (schemaValid r = false /\ exists e es, schemaErrors r = Some (e :: es)).
Proof. destruct errs; simpl; [left | right]; eauto. Qed.

Lemma validatePresentationDefinition_object props :
  validatePresentationDefinition (Js.Obj props) =
    let e1 := if Js.truthy (Js.assoc "id" props) then []
              else ["Missing required field: id"] in
    match Js.assoc "input_descriptors" props with
    | Js.Arr items =>
        let! e3 := descriptorSchemaErrors 0 items in
        Js.Normal (schemaResult (e1 ++ e3))
    | other =>
        if Js.truthy other
        then Js.Throw (Js.ErrorObject "definition.input_descriptors.forEach is not a function")
        else Js.Normal (schemaResult
               (e1 ++ ["Missing or invalid required field: input_descriptors"]))
    end.
Proof.
  unfold validatePresentationDefinition. cbn [Js.truthy isObject negb orb Js.getOpt].
  destruct (Js.assoc "input_descriptors" props) as [| |b|n|str|items|ps];
    cbn [Js.truthy isArray negb orb forEach Js.bind app]; try reflexivity.
  - destruct b; reflexivity.
  - destruct (n =? 0); reflexivity.
  - destruct (String.eqb str EmptyString); reflexivity.
Qed.

(** X12.  [validatePresentationDefinition] has three outcomes.  It
    accepts exactly the objects with a truthy [id] whose
    [input_descriptors] is an array of objects that each have a truthy
    [id] and truthy [constraints] (an empty array is accepted, and
    nothing inside [constraints] is inspected).  It throws, instead of
    reporting, exactly when [input_descriptors] is a truthy value that
    is not an array or an array with an [undefined] or [null] element.
    In every other case it reports at least one error. *)
Theorem validatePresentationDefinition_outcomes pd :
  (validatePresentationDefinition pd
     = Js.Normal {| schemaValid := true; schemaErrors := None |} <->
   exists props items,
     pd = Js.Obj props /\
     Js.truthy (Js.assoc "id" props) = true /\
     Js.assoc "input_descriptors" props = Js.Arr items /\
     Forall (hasFields ["id"; "constraints"]) items) /\
  ((exists t, validatePresentationDefinition pd = Js.Throw t) <->
   breaksForEach (Js.getOpt pd "input_descriptors") = true) /\
  (forall r, validatePresentationDefinition pd = Js.Normal r ->
     (schemaValid r = true /\ schemaErrors r = None) \/
     (schemaValid r = false /\ exists e es, schemaErrors r = Some (e :: es))).
Proof.
  destruct pd as [| |b|n|str|elems|props].
  1-6: unfold validatePresentationDefinition;
    cbn [Js.truthy isObject negb orb Js.getOpt isArray Js.bind app breaksForEach schemaResult].
  3: destruct b; cbn [negb orb].
  5: destruct (n =? 0); cbn [negb orb].
  7: destruct (String.eqb str EmptyString); cbn [negb orb].
  1-8: (split; [split; [discriminate | intros (p & i & H & _); discriminate H]
              | split; [split; [intros [t H]; discriminate H | discriminate]
                       | intros r [= <-]; right; simpl; eauto]]).
  - split; [split; [discriminate | intros (p & i & H & _); discriminate H]|].
    split; [split; [intros [t H]; discriminate H | discriminate]|].
    intros r [= <-]. right; simpl; eauto.
  - rewrite validatePresentationDefinition_object. cbn [Js.getOpt].
    destruct (Js.assoc "input_descriptors" props) as [| |b|n|str|items|ps] eqn:Hd.
    6:{ pose proof (descriptorSchemaErrors_cases items 0%nat) as Hc. cbn [breaksForEach].
        destruct (descriptorSchemaErrors 0 items) as [errs|t]; simpl.
        - destruct Hc as [Hex Hc]. split; [|split].
          + split.
            * intros H. injection H as H. apply (proj1 (schemaResult_accepts _)) in H.
              apply app_eq_nil in H. destruct H as [H1 H2].
              exists props, items. split; [reflexivity|].
              split; [destruct (Js.truthy (Js.assoc "id" props));
                        [reflexivity | discriminate H1]|].
              split; [assumption|]. now apply Hc.
            * intros (p & i & [= <-] & Hid & Hi & Hall).
              rewrite Hd in Hi. injection Hi as <-.
              rewrite Hid. simpl. now rewrite (proj2 Hc Hall).
          + rewrite Hex. split; [intros [t H]; discriminate H | discriminate].
          + intros r [= <-]. apply schemaResult_shape.
        - split; [|split].
          + split; [discriminate|].
            intros (p & i & [= <-] & _ & Hi & Hall).
            rewrite Hd in Hi. injection Hi as <-.
            assert (existsb nullish items = false) as Hno;
              [|rewrite Hno in Hc; discriminate Hc].
            clear - Hall. induction Hall as [|x l Hx _ IH]; simpl; [reflexivity|].
            rewrite IH, orb_false_r. now apply hasFields_get in Hx.
          + split; [intros _; assumption | eauto].
          + discriminate. }
    all: cbn [breaksForEach]; destruct (Js.truthy _) eqn:Ht in |- *.
    all: (split; [split; [try discriminate
                         | intros (p & i & [= <-] & _ & H & _); rewrite Hd in H; discriminate H]
                 | split; [split; [try (intros [t H]; discriminate H); try reflexivity
                                  | try discriminate; eauto]
                          | try discriminate; intros r [= <-]; apply schemaResult_shape]]).
    all: intros H; injection H as H; apply (proj1 (schemaResult_accepts _)) in H;
      apply app_eq_nil in H; destruct H as [_ H]; discriminate H.
Qed.

Lemma validatePresentationSubmission_object props :
  validatePresentationSubmission (Js.Obj props) =
    let e1 := (if Js.truthy (Js.assoc "id" props) then []
               else ["Missing required field: id"]) ++
              (if Js.truthy (Js.assoc "definition_id" props) then []
               else ["Missing required field: definition_id"]) in
    match Js.assoc "descriptor_map" props with
    | Js.Arr items =>
        let! e4 := mapSchemaErrors 0 items in
        Js.Normal (schemaResult (e1 ++ e4))
    | other =>
        if Js.truthy other
        then Js.Throw (Js.ErrorObject "submission.descriptor_map.forEach is not a function")
        else Js.Normal (schemaResult
               (e1 ++ ["Missing or invalid required field: descriptor_map"]))
    end.
Proof.
  unfold validatePresentationSubmission. cbn [Js.truthy isObject negb orb Js.getOpt].
  destruct (Js.assoc "descriptor_map" props) as [| |b|n|str|items|ps];
    cbn [Js.truthy isArray negb orb forEach Js.bind app]; cbv zeta;
    destruct (Js.truthy (Js.assoc "id" props)),
             (Js.truthy (Js.assoc "definition_id" props));
    try reflexivity.
  all: try (destruct b; reflexivity).
  all: try (destruct (n =? 0); reflexivity).
  all: try (destruct (String.eqb str EmptyString); reflexivity).
  all: destruct (mapSchemaErrors 0 items); reflexivity.
Qed.

(** A result of [validatePresentationSubmission] is an acceptance
    without errors or a rejection with at least one. *)
Lemma validatePresentationSubmission_shape ps r :
  validatePresentationSubmission ps = Js.Normal r ->
  (schemaValid r = true /\ schemaErrors r = None) \/
  (schemaValid r = false /\ exists e es, schemaErrors r = Some (e :: es)).
Proof.
  destruct ps as [| |b|n|str|elems|props].
  1-6: unfold validatePresentationSubmission;
    cbn [Js.truthy isObject negb orb Js.getOpt isArray Js.bind app breaksForEach schemaResult].
  3: destruct b; cbn [negb orb].
  5: destruct (n =? 0); cbn [negb orb].
  7: destruct (String.eqb str EmptyString); cbn [negb orb].
  1-9: (intros [= <-]; right; simpl; eauto).
  rewrite validatePresentationSubmission_object. cbv zeta.
  destruct (Js.assoc "descriptor_map" props) as [| |b|n|str|items|ps].
  6:{ destruct (mapSchemaErrors 0 items); simpl; [|discriminate].
      intros [= <-]. apply schemaResult_shape. }
  all: destruct (Js.truthy _); [discriminate | intros [= <-]; apply schemaResult_shape].
Qed.

(** A descriptor map that is no array, or holds [undefined] or
    [null], makes [validatePresentationSubmission] throw. *)
Lemma validatePresentationSubmission_throws props :
  breaksForEach (Js.assoc "descriptor_map" props) = true ->
  exists t, validatePresentationSubmission (Js.Obj props) = Js.Throw t.
Proof.
  rewrite validatePresentationSubmission_object. cbv zeta.
  destruct (Js.assoc "descriptor_map" props) as [| |b|n|str|items|ps]; cbn [breaksForEach];
    try discriminate.
  - intros ->. eauto.
  - intros ->. eauto.
  - intros ->. eauto.
  - intros Hex. pose proof (mapSchemaErrors_cases items 0%nat) as Hc.
    destruct (mapSchemaErrors 0 items) as [errs|t]; [|simpl; eauto].
    destruct Hc as [Hno _]. rewrite Hno in Hex. discriminate Hex.
  - eauto.
Qed.

(** X13.  [validatePresentationSubmission] has three outcomes.  It
    accepts exactly the objects with truthy [id] and [definition_id]
    whose [descriptor_map] is an array of objects that each have
    truthy [id], [format] and [path] (an empty map is accepted, and a
    path need not be a string).  It throws exactly when
    [descriptor_map] is a truthy value that is not an array or an
    array with an [undefined] or [null] element.  In every other case
    it reports at least one error. *)
Theorem validatePresentationSubmission_outcomes ps :
  (validatePresentationSubmission ps
     = Js.Normal {| schemaValid := true; schemaErrors := None |} <->
   exists props items,
     ps = Js.Obj props /\
     Js.truthy (Js.assoc "id" props) = true /\
     Js.truthy (Js.assoc "definition_id" props) = true /\
     Js.assoc "descriptor_map" props = Js.Arr items /\
     Forall (hasFields ["id"; "format"; "path"]) items) /\
  ((exists t, validatePresentationSubmission ps = Js.Throw t) <->
   breaksForEach (Js.getOpt ps "descriptor_map") = true) /\
  (forall r, validatePresentationSubmission ps = Js.Normal r ->
     (schemaValid r = true /\ schemaErrors r = None) \/
     (schemaValid r = false /\ exists e es, schemaErrors r = Some (e :: es))).
Proof.
  destruct ps as [| |b|n|str|elems|props].
  1-6: unfold validatePresentationSubmission;
    cbn [Js.truthy isObject negb orb Js.getOpt isArray Js.bind app breaksForEach schemaResult].
  3: destruct b; cbn [negb orb].
  5: destruct (n =? 0); cbn [negb orb].
  7: destruct (String.eqb str EmptyString); cbn [negb orb].
  1-9: (split; [split; [discriminate | intros (p & i & H & _); discriminate H]
              | split; [split; [intros [t H]; discriminate H | discriminate]
                       | intros r [= <-]; right; simpl; eauto]]).
  rewrite validatePresentationSubmission_object. cbn [Js.getOpt].
  destruct (Js.assoc "descriptor_map" props) as [| |b|n|str|items|ps] eqn:Hd.
  6:{ pose proof (mapSchemaErrors_cases items 0%nat) as Hc. cbn [breaksForEach].
      destruct (mapSchemaErrors 0 items) as [errs|t]; simpl.
      - destruct Hc as [Hex Hc]. split; [|split].
        + split.
          * intros H. injection H as H. apply (proj1 (schemaResult_accepts _)) in H.
            apply app_eq_nil in H. destruct H as [H1 H3].
            apply app_eq_nil in H1. destruct H1 as [H1 H2].
            exists props, items. split; [reflexivity|].
            split; [destruct (Js.truthy (Js.assoc "id" props));
                      [reflexivity | discriminate H1]|].
            split; [destruct (Js.truthy (Js.assoc "definition_id" props));
                      [reflexivity | discriminate H2]|].
            split; [assumption|]. now apply Hc.
          * intros (p & i & [= <-] & Hid & Hdef & Hi & Hall).
            rewrite Hd in Hi. injection Hi as <-.
            rewrite Hid, Hdef. simpl. now rewrite (proj2 Hc Hall).
        + rewrite Hex. split; [intros [t H]; discriminate H | discriminate].
        + intros r [= <-]. apply schemaResult_shape.
      - split; [|split].
        + split; [discriminate|].
          intros (p & i & [= <-] & _ & _ & Hi & Hall).
          rewrite Hd in Hi. injection Hi as <-.
          assert (existsb nullish items = false) as Hno;
            [|rewrite Hno in Hc; discriminate Hc].
          clear - Hall. induction Hall as [|x l Hx _ IH]; simpl; [reflexivity|].
          rewrite IH, orb_false_r. now apply hasFields_get in Hx.
        + split; [intros _; assumption | eauto].
        + discriminate. }
  all: cbn [breaksForEach]; destruct (Js.truthy _) eqn:Ht in |- *.
  all: (split; [split; [try discriminate
                       | intros (p & i & [= <-] & _ & _ & H & _); rewrite Hd in H; discriminate H]
               | split; [split; [try (intros [t H]; discriminate H); try reflexivity
                                | try discriminate; eauto]
                        | try discriminate; intros r [= <-]; apply schemaResult_shape]]).
  all: intros H; injection H as H; apply (proj1 (schemaResult_accepts _)) in H;
    apply app_eq_nil in H; destruct H as [_ H]; discriminate H.
Qed.

(** Decimal numerals, as [showZ] prints them and [parseInt] reads them. *)
Lemma digitsValueFrom_numeral d : forall acc,
  Js.digitsValueFrom (Z.pos acc) (NilEmpty.string_of_uint d) = Z.pos (Pos.of_uint_acc d acc).
Proof.
  induction d; intros acc; cbn [NilEmpty.string_of_uint Js.digitsValueFrom Pos.of_uint_acc];
    [reflexivity | rewrite <- IHd; f_equal ..].
  all: match goal with
       | |- context [Js.digitValue ?c] =>
           let v := eval vm_compute in (Js.digitValue c) in
           change (Js.digitValue c) with v
       end; lia.
Qed.

Lemma digitsValue_numeral d :
  Js.digitsValue (NilEmpty.string_of_uint d) = Z.of_N (Pos.of_uint d).
Proof.
  unfold Js.digitsValue.
  induction d; cbn [NilEmpty.string_of_uint Js.digitsValueFrom Pos.of_uint];
    [reflexivity | exact IHd | apply (digitsValueFrom_numeral d) ..].
Qed.

Lemma takeDigits_numeral d rest :
  Js.takeDigits (NilEmpty.string_of_uint d +:+ String "]" rest)
    = (NilEmpty.string_of_uint d, String "]" rest).
Proof.
  induction d; cbn [NilEmpty.string_of_uint String.append Js.takeDigits];
    [reflexivity | cbn [String.app]; simpl; rewrite IHd; reflexivity ..].
Qed.

Lemma showZ_numeral (n : nat) :
  exists d, Js.showZ (Z.of_nat n) = NilEmpty.string_of_uint d /\
            d <> Decimal.Nil /\ Z.of_N (Pos.of_uint d) = Z.of_nat n.
Proof.
  unfold Js.showZ. destruct (Z.of_nat n) as [|p|p] eqn:E; try lia.
  - exists (Decimal.D0 Decimal.Nil). repeat split. discriminate.
  - exists (Pos.to_uint p). simpl.
    pose proof (DecimalPos.Unsigned.to_uint_nonnil p) as Hn.
    split; [|split; [assumption | now rewrite DecimalPos.Unsigned.of_to]].
    unfold NilZero.string_of_uint. destruct (Pos.to_uint p); [now destruct Hn | reflexivity ..].
Qed.

Lemma matchBracketIndex_bracketFree p : bracketFree p = true -> matchBracketIndex p = None.
Proof.
  induction p as [|c p IH]; simpl; [reflexivity|].
  destruct (Ascii.eqb c "["); simpl; [discriminate | exact IH].
Qed.

Lemma digitsValueFrom_bounds ds : forall acc, 0 <= acc ->
  (forall c, In c (Stdlib.Strings.String.list_ascii_of_string ds) -> Js.isDigit c = true) ->
  0 <= Js.digitsValueFrom acc ds.
Proof.
  induction ds as [|c ds IH]; intros acc Hacc Hd; simpl; [assumption|].
  apply IH.
  - assert (Hc : Js.isDigit c = true) by (apply Hd; now left).
    unfold Js.isDigit in Hc. apply andb_true_iff in Hc. destruct Hc as [Hc _].
    apply Nat.leb_le in Hc. unfold Js.digitValue. lia.
  - intros x Hx. apply Hd. now right.
Qed.

Lemma takeDigits_digits s :
  forall c, In c (Stdlib.Strings.String.list_ascii_of_string (fst (Js.takeDigits s))) -> Js.isDigit c = true.
Proof.
  induction s as [|a s IH]; simpl; [intros c []|].
  destruct (Js.isDigit a) eqn:Ha; [|intros c []].
  destruct (Js.takeDigits s) as [ds tl]. simpl in *.
  intros c [<-|Hc]; [assumption | now apply IH].
Qed.

Lemma matchBracketIndex_digits p ds :
  matchBracketIndex p = Some ds ->
  forall c, In c (Stdlib.Strings.String.list_ascii_of_string ds) -> Js.isDigit c = true.
Proof.
  induction p as [|a p IH]; simpl; [discriminate|].
  destruct (Ascii.eqb a "["); [|exact IH].
  pose proof (takeDigits_digits p) as Hd.
  destruct (Js.takeDigits p) as [[|d ds'] tl]; [exact IH|].
  destruct tl as [|b tl]; [exact IH|].
  destruct (Ascii.eqb b "]") eqn:Hb.
  - apply Ascii.eqb_eq in Hb. subst b. intros [= <-]. exact Hd.
  - destruct b as [[] [] [] [] [] [] [] []]; try exact IH; discriminate Hb.
Qed.

(** X14.  [extractIndexFromPath] reads back the index a path was
    built with: after a prefix without an opening bracket, the decimal
    numeral of an index [n] up to 2^53 (the integers that [parseInt]
    returns exactly) between brackets is read as [n], whatever
    follows.  The answer is never below -1, and it is -1 for every
    path without an opening bracket, for which the matcher then
    reports the credential as not found. *)
Theorem extractIndexFromPath_round_trip :
  (forall pre post (n : nat),
     bracketFree pre = true ->
     Z.of_nat n <= Js.maxExact ->
     extractIndexFromPath (pre +:+ "[" +:+ Js.showZ (Z.of_nat n) +:+ "]" +:+ post)
       = Z.of_nat n) /\
  (forall p, -1 <= extractIndexFromPath p) /\
  (forall p, bracketFree p = true -> extractIndexFromPath p = -1).
Proof.
  split; [|split].
  - intros pre post n Hpre _. unfold extractIndexFromPath.
    destruct (showZ_numeral n) as (d & -> & Hd & Hv).
    assert (Hm : matchBracketIndex
                   (pre +:+ "[" +:+ NilEmpty.string_of_uint d +:+ "]" +:+ post)
                 = Some (NilEmpty.string_of_uint d)).
    { induction pre as [|c pre IH].
      - change (matchBracketIndex
                  (String "[" (NilEmpty.string_of_uint d +:+ String "]" post))
                = Some (NilEmpty.string_of_uint d)).
        cbn [matchBracketIndex]. rewrite takeDigits_numeral.
        change (Ascii.eqb "[" "[") with true. cbv iota.
        destruct d; [now destruct Hd | reflexivity ..].
      - simpl in Hpre. apply andb_true_iff in Hpre. destruct Hpre as [Hc Hpre].
        change (matchBracketIndex
                  (String c (pre +:+ "[" +:+ NilEmpty.string_of_uint d +:+ "]" +:+ post))
                = Some (NilEmpty.string_of_uint d)).
        cbn [matchBracketIndex].
        apply negb_true_iff in Hc. rewrite Hc. now apply IH. }
    rewrite Hm, digitsValue_numeral. exact Hv.
  - intros p. unfold extractIndexFromPath.
    destruct (matchBracketIndex p) as [ds|] eqn:Hm; [|lia].
    pose proof (digitsValueFrom_bounds ds 0 (Z.le_refl 0) (matchBracketIndex_digits p ds Hm)).
    unfold Js.digitsValue. lia.
  - intros p Hp. unfold extractIndexFromPath.
    now rewrite (matchBracketIndex_bracketFree p Hp).
Qed.
End MatcherFacts.

(* ================================================================== *)
(** * Further properties of services/TrustResolver.ts                 *)
(* ================================================================== *)

Module DIDResolverFacts.
Import TrustResolver.
Import DIDResolver.

Lemma freshDocument_spec cache config now d :
  match freshDocument cache config now d with
  | Some e => cache !! d = Some e /\ now - cachedAt e < ttlOf config
  | None => forall e, cache !! d = Some e -> ~ now - cachedAt e < ttlOf config
  end.
Proof.
  unfold freshDocument. destruct (cache !! d) as [e|].
  - destruct (now - cachedAt e <? ttlOf config) eqn:Hlt.
    + apply Z.ltb_lt in Hlt. auto.
    + apply Z.ltb_ge in Hlt. intros e' He'. injection He' as <-. lia.
  - intros e He. discriminate He.
Qed.

Lemma freshDocument_hit cache config now d e :
  cache !! d = Some e -> now - cachedAt e < ttlOf config ->
  freshDocument cache config now d = Some e.
Proof.
  intros Hl Hlt. unfold freshDocument. rewrite Hl.
  apply Z.ltb_lt in Hlt. now rewrite Hlt.
Qed.

Lemma resolved_some r doc :
  resolved r = Some doc <-> success r = true /\ document r = Some doc.
Proof.
  unfold resolved. destruct (success r); split.
  - auto.
  - intros [_ H]. exact H.
  - discriminate.
  - intros [H _]. discriminate H.
Qed.

(** The answers of the two network resolvers are well formed. *)
Lemma fetchDocument_shape net url statusError :
  let r := fetchDocument net url statusError in
  (success r = true /\ resolutionError r = None) \/
  (success r = false /\ document r = None /\ exists e, resolutionError r = Some e).
Proof.
  cbv zeta. unfold fetchDocument, failed.
  destruct (fetch net url) as [response|t]; simpl; [|right; eauto].
  destruct (ok response); simpl; [|right; eauto].
  destruct (json response); simpl; [left | right]; eauto.
Qed.

Lemma resolved_answer r doc :
  ((success r = true /\ resolutionError r = None) \/
   (success r = false /\ document r = None /\ exists e, resolutionError r = Some e)) ->
  resolved r = Some doc ->
  r = {| success := true; document := Some doc; resolutionError := None |}.
Proof.
  intros Hshape Hr. apply resolved_some in Hr. destruct Hr as [Hs Hd].
  destruct r as [s dc e]. simpl in *. subst.
  destruct Hshape as [[_ ->]|[H _]]; [reflexivity | discriminate H].
Qed.

Lemma isMethod_true name method : isMethod name method = true <-> method = Some name.
Proof.
  unfold isMethod. destruct method as [m|]; split; intros H; try discriminate H.
  - apply String.eqb_eq in H. now subst.
  - injection H as ->. apply String.eqb_refl.
Qed.

Lemma append_assoc (a b c : string) : (a +:+ b) +:+ c = a +:+ (b +:+ c).
Proof.
  induction a as [|x a IH]; [reflexivity|].
  change (String x ((a +:+ b) +:+ c) = String x (a +:+ (b +:+ c))). now f_equal.
Qed.

Lemma resolveWebDID_urls net d url :
  In url (snd (resolveWebDID net d)) -> wellKnownURL url.
Proof.
  unfold resolveWebDID. destruct (length (Js.splitOn ":" d) <? 3)%nat; simpl; [intros []|].
  intros [<-|[]]. unfold wellKnownURL.
  exists (nth 2 (Js.splitOn ":" d) EmptyString
            +:+ (if String.eqb (Js.join "/" (skipn 3 (Js.splitOn ":" d))) EmptyString
                 then EmptyString
                 else "/" +:+ Js.join "/" (skipn 3 (Js.splitOn ":" d)))).
  now rewrite append_assoc.
Qed.

Lemma resolveWebDID_shape net d :
  let r := fst (resolveWebDID net d) in
  ((success r = true /\ resolutionError r = None) \/
   (success r = false /\ document r = None /\ exists e, resolutionError r = Some e)) /\
  (length (snd (resolveWebDID net d)) <= 1)%nat /\
  (success r = true -> exists url, snd (resolveWebDID net d) = [url]).
Proof.
  cbv zeta. unfold resolveWebDID.
  destruct (length (Js.splitOn ":" d) <? 3)%nat; cbn [fst snd].
  - split; [right; simpl; eauto|]. split; [simpl; lia | discriminate].
  - split; [apply fetchDocument_shape|]. split; [simpl; lia | eauto].
Qed.

Lemma resolveDID_outcome net now d config cache :
  Outcome net now d config cache (resolveDID net now d config cache).
Proof.
  unfold resolveDID.
  pose proof (freshDocument_spec cache config now d) as Hfresh.
  destruct (freshDocument cache config now d) as [e|] eqn:Hf.
  { destruct Hfresh. now apply FromCache. }
  clear Hfresh.
  destruct (if enableMockTrustAnchors config then lookupMockDocument d else None)
    as [doc|] eqn:Hm.
  { destruct (enableMockTrustAnchors config) eqn:Hmock; [|discriminate Hm].
    now apply FromMock. }
  assert (Hmock : enableMockTrustAnchors config = true -> lookupMockDocument d = None).
  { intros Hen. now rewrite Hen in Hm. }
  clear Hm. cbv zeta.
  destruct (enableEBSI config && isMethod "ebsi" (nth_error (Js.splitOn ":" d) 1)) eqn:He.
  - apply andb_true_iff in He. destruct He as [He Hmeth].
    apply (proj1 (isMethod_true _ _)) in Hmeth.
    unfold resolveEBSIDID. cbv zeta.
    destruct (encodeURIComponent net d) as [encoded|t] eqn:Henc; cbn [Js.bind fst snd].
    2: { now apply Malformed. }
    match goal with
    | |- context [fetchDocument net ?u ?f] =>
        pose proof (fetchDocument_shape net u f) as Hshape; cbv zeta in Hshape;
        destruct (resolved (fetchDocument net u f)) as [doc|] eqn:Hr
    end.
    + rewrite (resolved_answer _ doc Hshape Hr). apply FromNetwork; [assumption ..|].
      left. eauto.
    + rewrite Hmeth. cbn [isMethod]. change (String.eqb "ebsi" "web") with false.
      cbv iota. rewrite <- Hmeth. apply NotResolved; [assumption .. | simpl; lia |].
      intros url _. left. auto.
  - cbn [fst snd]. change (resolved (failed EmptyString)) with (@None DIDDocument).
    cbv iota.
    destruct (isMethod "web" (nth_error (Js.splitOn ":" d) 1)) eqn:Hw.
    + apply (proj1 (isMethod_true _ _)) in Hw.
      pose proof (resolveWebDID_shape net d) as Hshape. cbv zeta in Hshape.
      destruct Hshape as (Hshape & Hlen & Hurl).
      pose proof (resolveWebDID_urls net d) as Hwk.
      destruct (resolved (fst (resolveWebDID net d))) as [doc|] eqn:Hr.
      * pose proof (resolved_answer _ doc Hshape Hr) as Hans. rewrite Hans.
        assert (Hs : success (fst (resolveWebDID net d)) = true) by now rewrite Hans.
        destruct (Hurl Hs) as [url Hu]. rewrite Hu in *.
        apply FromNetwork; [assumption ..|]. right. split; [assumption|].
        apply Hwk. now left.
      * apply NotResolved; [assumption .. | exact Hlen |].
        intros url Hin. right. auto.
    + apply NotResolved; [assumption .. | simpl; lia | intros url []].
Qed.

(** X15.  A successful resolution is a cache entry: whenever
    [resolveDID] succeeds, its answer carries a document and no error,
    the cache holds that document under the DID, and every later
    resolution of the DID within the time to live of that entry
    returns the same answer from the cache, whatever the network and
    the configuration then are, without any request and without
    touching the cache. *)
Theorem resolveDID_success_is_cached net now d config cache r cache' urls :
  resolveDID net now d config cache = (r, cache', urls) ->
  success r = true ->
  exists doc ts,
    r = {| success := true; document := Some doc; resolutionError := None |} /\
    cache' !! d = Some {| cachedDocument := doc; cachedAt := ts |} /\
    (ts = now \/ cache' = cache) /\
    forall net' config' now',
      now' - ts < ttlOf config' ->
      resolveDID net' now' d config' cache' = (r, cache', []).
Proof.
  intros Hrun Hs. pose proof (resolveDID_outcome net now d config cache) as Ho.
  rewrite Hrun in Ho.
  assert (Hlater : forall doc ts (c : DidCache),
            c !! d = Some {| cachedDocument := doc; cachedAt := ts |} ->
            forall net' config' now', now' - ts < ttlOf config' ->
              resolveDID net' now' d config' c =
                ({| success := true; document := Some doc; resolutionError := None |},
                 c, [])).
  { intros doc ts c Hl net' config' now' Hlt. unfold resolveDID.
    now rewrite (freshDocument_hit c config' now' d _ Hl Hlt). }
  inversion Ho as [e Hl Hlt Heq | doc Hf Hm Hd Heq | doc url Hf Hno Hu Heq
                   | us Hf Hno Hlen Hus Heq | t Hf Hno He Hmeth Henc Heq];
    subst.
  - destruct e as [doc ts]. exists doc, ts. simpl in *.
    split; [reflexivity|]. split; [assumption|]. split; [now right|].
    now apply Hlater.
  - exists doc, now. split; [reflexivity|].
    assert (Hl : <[d := {| cachedDocument := doc; cachedAt := now |}]> cache !! d
                 = Some {| cachedDocument := doc; cachedAt := now |}).
    { rewrite lookup_insert. now case_decide. }
    split; [assumption|]. split; [now left|]. now apply Hlater.
  - exists doc, now. split; [reflexivity|].
    assert (Hl : <[d := {| cachedDocument := doc; cachedAt := now |}]> cache !! d
                 = Some {| cachedDocument := doc; cachedAt := now |}).
    { rewrite lookup_insert. now case_decide. }
    split; [assumption|]. split; [now left|]. now apply Hlater.
  - discriminate Hs.
  - discriminate Hs.
Qed.

(** X16.  A failed resolution leaves no trace: the answer of
    [resolveDID] succeeds exactly when it carries a document and
    exactly when it carries no error; a failure carries the error
    'Unsupported DID method or DID not found: <method>' (with
    'undefined' for a DID without a colon; the error of a network
    resolver is dropped), or, when the URI encoder throws on an EBSI
    identifier, the message of that exception; it leaves the cache as
    it was, so that the next call tries again; and a call changes the
    cache at no other key than the DID. *)
Theorem resolveDID_failure_is_not_cached net now d config cache :
  let r := fst (fst (resolveDID net now d config cache)) in
  let cache' := snd (fst (resolveDID net now d config cache)) in
  (success r = true <-> document r <> None) /\
  (success r = true <-> resolutionError r = None) /\
  (success r = false ->
     (r = unsupported (nth_error (Js.splitOn ":"%char d) 1) \/
      exists t,
        enableEBSI config = true /\
        nth_error (Js.splitOn ":"%char d) 1 = Some "ebsi" /\
        encodeURIComponent net d = Js.Throw t /\
        r = failed (Js.messageOr "Unknown error" t)) /\
     cache' = cache) /\
  ((forall t, encodeURIComponent net d <> Js.Throw t) ->
   success r = false -> r = unsupported (nth_error (Js.splitOn ":"%char d) 1)) /\
  (forall d', d' <> d -> cache' !! d' = cache !! d').
Proof.
  cbv zeta. pose proof (resolveDID_outcome net now d config cache) as Ho.
  destruct (resolveDID net now d config cache) as [[r cache'] urls].
  assert (Hins : forall doc d', d' <> d ->
            <[d := {| cachedDocument := doc; cachedAt := now |}]> cache !! d' = cache !! d').
  { intros doc d' Hd'. rewrite lookup_insert. case_decide; [congruence | reflexivity]. }
  inversion Ho as [e Hl Hlt Heq | doc Hf Hm Hd Heq | doc url Hf Hno Hu Heq
                   | us Hf Hno Hlen Hus Heq | t Hf Hno He Hmeth Henc Heq];
    subst; cbn [fst snd success document resolutionError unsupported failed].
  - split; [split; [discriminate | reflexivity]|].
    split; [split; reflexivity|]. split; [discriminate|].
    split; [discriminate | reflexivity].
  - split; [split; [discriminate | reflexivity]|].
    split; [split; reflexivity|]. split; [discriminate|].
    split; [discriminate | apply Hins].
  - split; [split; [discriminate | reflexivity]|].
    split; [split; reflexivity|]. split; [discriminate|].
    split; [discriminate | apply Hins].
  - split; [split; [discriminate | intros H; now destruct H]|].
    split; [split; discriminate|]. split; [auto|].
    split; [reflexivity | reflexivity].
  - split; [split; [discriminate | intros H; now destruct H]|].
    split; [split; discriminate|]. split.
    + intros _. split; [|reflexivity]. right. exists t. auto.
    + split; [|reflexivity]. intros Hnot. now destruct (Hnot t).
Qed.

(** X17.  What [resolveDID] asks of the network: at most one request
    per call; none when a young cache entry or the mock registry
    answers; a request goes either to the EBSI registry (only when
    EBSI is enabled and the method is 'ebsi', to
    '<endpoint>/<encoded DID>') or, for the method 'web', to an
    'https://' URL that ends in '/.well-known/did.json', also for a
    DID with a path; a DID of any other method is never looked up on
    the network. *)
Theorem resolveDID_requests net now d config cache :
  let urls := snd (resolveDID net now d config cache) in
  (length urls <= 1)%nat /\
  (forall url, In url urls ->
     (enableEBSI config = true /\
      nth_error (Js.splitOn ":"%char d) 1 = Some "ebsi") \/
     (nth_error (Js.splitOn ":"%char d) 1 = Some "web" /\ wellKnownURL url)) /\
  (freshDocument cache config now d <> None -> urls = []) /\
  (enableMockTrustAnchors config = true -> lookupMockDocument d <> None -> urls = []) /\
  (nth_error (Js.splitOn ":"%char d) 1 <> Some "ebsi" ->
   nth_error (Js.splitOn ":"%char d) 1 <> Some "web" -> urls = []).
Proof.
  cbv zeta. pose proof (resolveDID_outcome net now d config cache) as Ho.
  destruct (resolveDID net now d config cache) as [[r cache'] urls].
  inversion Ho as [e Hl Hlt Heq | doc Hf Hm Hd Heq | doc url Hf Hno Hu Heq
                   | us Hf Hno Hlen Hus Heq | t Hf Hno He Hmeth Henc Heq];
    subst; cbn [snd].
  - split; [simpl; lia|]. split; [intros url []|]. auto.
  - split; [simpl; lia|]. split; [intros url []|]. auto.
  - split; [simpl; lia|]. split.
    { intros u [<-|[]]. destruct Hu as [(He & Hm & _)|Hw]; auto. }
    split; [intros H; now destruct H|].
    split; [intros Hen Hdoc; now destruct (Hdoc (Hno Hen))|].
    intros Hne Hnw. destruct Hu as [(_ & Hm & _)|[Hw _]]; contradiction.
  - split; [assumption|]. split; [assumption|].
    split; [intros H; now destruct H|].
    split; [intros Hen Hdoc; now destruct (Hdoc (Hno Hen))|].
    intros Hne Hnw. destruct urls as [|u us]; [reflexivity|].
    destruct (Hus u (or_introl eq_refl)) as [[_ Hm]|[Hw _]]; contradiction.
  - split; [simpl; lia|]. split; [intros url []|]. auto.
Qed.

Example resolveDID_alice :
  ResolverExamples.aliceRun =
    ({| success := true; document := Some ResolverExamples.aliceDocument;
        resolutionError := None |},
     <["did:web:example.com:user:alice" :=
         {| cachedDocument := ResolverExamples.aliceDocument;
            cachedAt := 1767225600000 |}]> ∅,
     ["https://example.com/user/alice/.well-known/did.json"]).
Proof. reflexivity. Qed.

Lemma resolveDID_success_is_cached_witness :
  exists doc ts,
    fst (fst ResolverExamples.aliceRun) =
      {| success := true; document := Some doc; resolutionError := None |} /\
    snd (fst ResolverExamples.aliceRun) !! "did:web:example.com:user:alice" =
      Some {| cachedDocument := doc; cachedAt := ts |} /\
    (ts = 1767225600000 \/ snd (fst ResolverExamples.aliceRun) = ∅) /\
    forall net' config' now',
      now' - ts < ttlOf config' ->
      resolveDID net' now' "did:web:example.com:user:alice" config'
        (snd (fst ResolverExamples.aliceRun)) =
      (fst (fst ResolverExamples.aliceRun), snd (fst ResolverExamples.aliceRun), []).
Proof.
  apply (resolveDID_success_is_cached ResolverExamples.web 1767225600000
           "did:web:example.com:user:alice" defaultConfig ∅
           (fst (fst ResolverExamples.aliceRun)) (snd (fst ResolverExamples.aliceRun))
           (snd ResolverExamples.aliceRun)).
  - reflexivity.
  - reflexivity.
Defined.
End DIDResolverFacts.

Module TrustCacheFacts.
Import TrustResolver.
Import TrustResolverFacts.

Lemma freshEntry_hit cache config now d e :
  cache !! d = Some e -> now - timestamp e < ttlOf config ->
  freshEntry cache config now d = Some e.
Proof.
  intros Hl Hlt. unfold freshEntry. rewrite Hl.
  apply Z.ltb_lt in Hlt. now rewrite Hlt.
Qed.

(** X18.  A registry hit is a cache entry: when [isTrustedIssuer]
    answers with an anchor that it did not take from the cache, the
    cache then holds that anchor under the DID with the time of the
    call, and every later call for the DID within the time to live
    answers from the cache with that anchor, even under a
    configuration that disables the registry; the validity of the
    anchor is judged again at the date of the later call. *)
Theorem isTrustedIssuer_registry_hit_is_cached now today d config cache a :
  freshEntry cache config now d = None ->
  checkedAnchor (fst (isTrustedIssuer None now today d config cache)) = Some a ->
  let cache' := snd (isTrustedIssuer None now today d config cache) in
  cache' !! d = Some {| anchor := a; timestamp := now |} /\
  did a = d /\
  forall config' now' today',
    now' - now < ttlOf config' ->
    isTrustedIssuer None now' today' d config' cache' =
      ({| trusted := isValidAt a today'; checkedAnchor := Some a;
          reason := Some (if isValidAt a today' then "Trusted anchor (cached)"
                          else "Anchor expired or revoked") |}, cache').
Proof.
  intros Hf. unfold isTrustedIssuer at 1 2. rewrite Hf.
  destruct (enableMockTrustAnchors config); [|discriminate].
  destruct (findMockAnchor d) as [m|] eqn:Hm; [|discriminate].
  cbn [fst snd checkedAnchor]. intros [= ->]. cbv zeta.
  assert (Hl : <[d := {| anchor := a; timestamp := now |}]> cache !! d
               = Some {| anchor := a; timestamp := now |}).
  { rewrite lookup_insert. now case_decide. }
  split; [assumption|]. split; [now apply (proj1 (findMockAnchor_spec d a))|].
  intros config' now' today' Hlt. unfold isTrustedIssuer.
  rewrite (freshEntry_hit _ config' now' d _ Hl Hlt). reflexivity.
Qed.

Lemma isTrustedIssuer_registry_hit_is_cached_witness :
  snd (isTrustedIssuer None 1767225600000 1767225600001
         "did:ebsi:znxntxQrN3Xqe7RGTd3KQJ4" defaultConfig ∅)
    !! "did:ebsi:znxntxQrN3Xqe7RGTd3KQJ4" <> None /\
  forall now' today',
    now' - 1767225600000 < 3600000 ->
    trusted (fst (isTrustedIssuer None now' today' "did:ebsi:znxntxQrN3Xqe7RGTd3KQJ4"
                    ResolverExamples.registryOff
                    (snd (isTrustedIssuer None 1767225600000 1767225600001
                            "did:ebsi:znxntxQrN3Xqe7RGTd3KQJ4" defaultConfig ∅))))
    = (today' <? 1893369600000).
Proof.
  assert (Hstale : freshEntry ∅ defaultConfig 1767225600000
                     "did:ebsi:znxntxQrN3Xqe7RGTd3KQJ4" = None) by reflexivity.
  destruct (isTrustedIssuer_registry_hit_is_cached 1767225600000 1767225600001
              "did:ebsi:znxntxQrN3Xqe7RGTd3KQJ4" defaultConfig ∅
              {| did := "did:ebsi:znxntxQrN3Xqe7RGTd3KQJ4";
                 name := "European Commission - EBSI Root";
                 trustFramework := EBSI; status := active;
                 validFrom := 1704067200000; validUntil := Some 1893369600000;
                 metadata := Some (Js.Obj [("country", Js.Str "EU");
                                           ("type", Js.Str "root_ca")]) |}
              Hstale) as (Hl & _ & Hlater); [reflexivity|].
  split.
  - rewrite Hl. discriminate.
  - intros now' today' Hlt.
    now rewrite (Hlater ResolverExamples.registryOff now' today' Hlt).
Defined.

(** X19.  What [isTrustedIssuer] never caches: an answer without an
    anchor (an unknown DID, a disabled registry, an exception) and an
    answer taken from the cache leave the cache exactly as it was, so
    an unknown issuer is looked up again at every call; whatever the
    answer, no entry of another DID changes, and an entry written
    under the DID holds the registry's anchor for that DID. *)
Theorem isTrustedIssuer_cache_footprint fault now today d config cache :
  let answer := fst (isTrustedIssuer fault now today d config cache) in
  let cache' := snd (isTrustedIssuer fault now today d config cache) in
  (checkedAnchor answer = None -> trusted answer = false /\ cache' = cache) /\
  (freshEntry cache config now d <> None -> cache' = cache) /\
  (forall d', d' <> d -> cache' !! d' = cache !! d') /\
  (cache' = cache \/
   exists a, findMockAnchor d = Some a /\ enableMockTrustAnchors config = true /\
             fault = None /\
             cache' = <[d := {| anchor := a; timestamp := now |}]> cache).
Proof.
  cbv zeta. unfold isTrustedIssuer.
  destruct fault as [t|]; [simpl; auto|].
  destruct (freshEntry cache config now d) as [e|] eqn:Hf.
  { simpl. split; [discriminate|]. auto. }
  destruct (enableMockTrustAnchors config) eqn:Hen.
  - destruct (findMockAnchor d) as [a|] eqn:Hm; cbn [fst snd checkedAnchor trusted].
    + split; [discriminate|]. split; [intros H; now destruct H|]. split.
      * intros d' Hd'. rewrite lookup_insert. case_decide; [congruence | reflexivity].
      * right. exists a. auto.
    + split; [auto|]. split; [auto|]. split; [auto|]. now left.
  - cbn [fst snd checkedAnchor trusted]. split; [auto|]. split; [auto|]. split; [auto|].
    now left.
Qed.

End TrustCacheFacts.

(* ================================================================== *)
(** * Further properties of the credential validators                 *)
(* ================================================================== *)

Module VCValidatorShape.
Import TrustResolver.
Import VCValidator.

Section WithHost.
Context (engine : Engine) (services : Services).

Lemma decodeIssuer_return vcJWT r :
  decodeIssuer engine vcJWT = Return r -> exists e, r = rejected [e] None.
Proof.
  unfold decodeIssuer.
  destruct (Js.splitOn "." vcJWT) as [|a [|b [|c [|x l]]]]; try (intros [= <-]; eauto).
  destruct (jsonParse engine (base64ToUtf8 engine b)) as [p|t]; simpl;
    [|intros [= <-]; eauto].
  destruct (Js.get p "iss") as [iss|t]; simpl; [|intros [= <-]; eauto].
  destruct (Js.truthy _); [discriminate | intros [= <-]; eauto].
Qed.

(** The early returns of [validateVC] carry one error and nothing on
    trust. *)
Lemma verifyCredential_return clock vcJWT config r :
  verifyCredential engine services clock vcJWT config = Return r ->
  exists e iss, r = rejected [e] iss.
Proof.
  unfold verifyCredential.
  destruct (decodeIssuer engine vcJWT) as [r0|[p i]] eqn:Hd.
  { intros [= <-]. destruct (decodeIssuer_return _ _ Hd) as [e ->]. eauto. }
  destruct (success (resolveDID services (resolveNow clock) i config));
    [|intros [= <-]; eauto].
  destruct (document (resolveDID services (resolveNow clock) i config)) as [doc|];
    [|intros [= <-]; eauto].
  destruct (extractPublicKeyFromDID doc) as [k|]; [|intros [= <-]; eauto].
  destruct (jwtValid (verifyJWTWithJWK services (verifyNow clock) vcJWT k));
    [|intros [= <-]; eauto].
  destruct (Js.truthy _); [discriminate | intros [= <-]; eauto].
Qed.

(** [validateVC], by the outcome of its steps. *)
Lemma validateVC_cases fault clock vcJWT options cache :
  let run := validateVC engine services fault clock vcJWT options cache in
  match verifyCredential engine services clock vcJWT (trustConfig options) with
  | Return r => run = (r, cache) /\ exists e iss, r = rejected [e] iss
  | Continue (vcPayload, issuerDID, vc) =>
      match expiryErrors engine (orDefault (checkExpiration options) true)
              (expiryNow clock) (expirationOf vcPayload vc) with
      | Js.Throw t => run = (caught t, cache)
      | Js.Normal expired =>
          snd run =
            (if orDefault (checkTrust options) true
             then snd (isTrustedIssuerOf fault (trustNow clock) (trustToday clock)
                         issuerDID (trustConfig options) cache)
             else cache) /\
          match printedDates engine (issuanceOf vcPayload vc)
                  (expirationOf vcPayload vc) with
          | Js.Throw t => fst run = caught t
          | Js.Normal dates =>
              issuer (fst run) = Some issuerDID /\
              trusted (fst run) =
                Some (orDefault (checkTrust options) true &&
                      TrustResolver.trusted
                        (fst (isTrustedIssuerOf fault (trustNow clock) (trustToday clock)
                                issuerDID (trustConfig options) cache))) /\
              issuanceDate (fst run) = fst dates /\
              expirationDate (fst run) = snd dates /\
              match structureErrors vc ++ expired with
              | [] => valid (fst run) = true /\ errors (fst run) = None /\
                      credentialSubject (fst run) = Some (Js.getOpt vc "credentialSubject")
              | e :: es => valid (fst run) = false /\ errors (fst run) = Some (e :: es) /\
                           credentialSubject (fst run) = None
              end
          end
      end
  end.
Proof.
  cbv zeta. unfold validateVC.
  destruct (verifyCredential engine services clock vcJWT (trustConfig options))
    as [r|[[p i] vc]] eqn:Hv.
  - split; [reflexivity|]. exact (verifyCredential_return _ _ _ _ Hv).
  - cbv zeta.
    destruct (expiryErrors engine _ _ _) as [expired|t]; [|reflexivity].
    destruct (orDefault (checkTrust options) true); cbn [andb].
    + destruct (isTrustedIssuerOf fault (trustNow clock) (trustToday clock) i
                  (trustConfig options) cache) as [tc c].
      cbn [fst snd].
      destruct (printedDates engine _ _) as [[it et]|t]; [|split; reflexivity].
      destruct (structureErrors vc ++ expired); simpl; auto 10.
    + destruct (printedDates engine _ _) as [[it et]|t]; [|split; reflexivity].
      destruct (structureErrors vc ++ expired); simpl; auto 10.
Qed.

(** Where [trusted: true] comes from. *)
Lemma validateVC_trusted_true fault clock vcJWT options cache :
  trusted (fst (validateVC engine services fault clock vcJWT options cache)) = Some true ->
  orDefault (checkTrust options) true = true /\
  exists i, issuer (fst (validateVC engine services fault clock vcJWT options cache)) = Some i /\
    TrustResolver.trusted
      (fst (isTrustedIssuerOf fault (trustNow clock) (trustToday clock) i
              (trustConfig options) cache)) = true.
Proof.
  pose proof (validateVC_cases fault clock vcJWT options cache) as Hc. cbv zeta in Hc.
  destruct (verifyCredential engine services clock vcJWT (trustConfig options))
    as [r|[[p i] vc]].
  - destruct Hc as (-> & e & iss & ->). discriminate.
  - destruct (expiryErrors engine _ _ _) as [expired|t]; [|rewrite Hc; discriminate].
    destruct Hc as [_ Hc].
    destruct (printedDates engine _ _) as [dates|t]; [|rewrite Hc; discriminate].
    destruct Hc as (Hi & Ht & _). rewrite Ht, Hi.
    intros [= Hb]. apply andb_true_iff in Hb. destruct Hb. eauto.
Qed.

(** X20.  The shape of every answer of [validateVC]: it is valid
    exactly when it carries no error list, and an invalid answer
    carries at least one error; the credential subject is handed out
    only with a valid answer; [trusted: true] is reported only when
    the trust check is enabled and [isTrustedIssuer] trusts the issuer
    the answer names; an answer without [trusted] is an early
    rejection or the answer of the outer [catch]: it is invalid and
    carries no warnings, no dates and no subject, and it leaves the
    trust cache untouched, unless it is the answer of the [catch]
    after an enabled trust check, when the cache is as
    [isTrustedIssuer] left it. *)
Theorem validateVC_result_shape fault clock vcJWT options cache :
  let r := fst (validateVC engine services fault clock vcJWT options cache) in
  (valid r = true <-> errors r = None) /\
  (valid r = false -> exists e es, errors r = Some (e :: es)) /\
  (credentialSubject r <> None -> valid r = true) /\
  (trusted r = Some true ->
     orDefault (checkTrust options) true = true /\
     exists i, issuer r = Some i /\
       TrustResolver.trusted
         (fst (isTrustedIssuerOf fault (trustNow clock) (trustToday clock) i
                 (trustConfig options) cache)) = true) /\
  (trusted r = None ->
     valid r = false /\ warnings r = None /\ issuanceDate r = None /\
     expirationDate r = None /\ credentialSubject r = None /\
     (snd (validateVC engine services fault clock vcJWT options cache) = cache \/
      exists t i,
        r = caught t /\
        orDefault (checkTrust options) true = true /\
        snd (validateVC engine services fault clock vcJWT options cache) =
          snd (isTrustedIssuerOf fault (trustNow clock) (trustToday clock) i
                 (trustConfig options) cache))).
Proof.
  cbv zeta. pose proof (validateVC_cases fault clock vcJWT options cache) as Hc.
  cbv zeta in Hc.
  assert (Hrej : forall e iss,
            let r := rejected [e] iss in
            (valid r = true <-> errors r = None) /\
            (valid r = false -> exists e es, errors r = Some (e :: es)) /\
            (credentialSubject r <> None -> valid r = true) /\
            (trusted r = Some true ->
               orDefault (checkTrust options) true = true /\
               exists i, issuer r = Some i /\
                 TrustResolver.trusted
                   (fst (isTrustedIssuerOf fault (trustNow clock) (trustToday clock) i
                           (trustConfig options) cache)) = true)).
  { intros e iss. simpl. split; [split; discriminate|]. split; [eauto|].
    split; [intros H; now destruct H | discriminate]. }
  destruct (verifyCredential engine services clock vcJWT (trustConfig options))
    as [r|[[p i] vc]].
  - destruct Hc as (-> & e & iss & ->). cbn [fst snd].
    destruct (Hrej e iss) as (H1 & H2 & H3 & H4).
    repeat (split; [assumption|]). intros _. simpl. auto 10.
  - destruct (expiryErrors engine _ _ _) as [expired|t].
    2: { rewrite Hc. cbn [fst snd]. unfold caught.
         destruct (Hrej ("Validation error: " +:+ Js.messageOr "Unknown error" t) None)
           as (H1 & H2 & H3 & H4).
         repeat (split; [assumption|]). intros _. simpl. auto 10. }
    destruct Hc as [Hcache Hc].
    destruct (printedDates engine _ _) as [dates|t].
    2: { rewrite Hc. unfold caught.
         destruct (Hrej ("Validation error: " +:+ Js.messageOr "Unknown error" t) None)
           as (H1 & H2 & H3 & H4).
         repeat (split; [assumption|]). intros _. simpl.
         repeat (split; [reflexivity|]).
         destruct (orDefault (checkTrust options) true); [|now left].
         right. exists t, i. auto. }
    destruct Hc as (Hi & Ht & _ & _ & He). rewrite Ht.
    destruct (structureErrors vc ++ expired) as [|e es];
      destruct He as (Hv & Herr & Hs); rewrite Hv, Herr, Hs.
    + split; [tauto|]. split; [discriminate|]. split; [reflexivity|].
      split; [|discriminate].
      intros [= Hb]. apply andb_true_iff in Hb. destruct Hb. eauto.
    + split; [split; discriminate|]. split; [eauto|].
      split; [intros H; now destruct H|]. split; [|discriminate].
      intros [= Hb]. apply andb_true_iff in Hb. destruct Hb. eauto.
Qed.

End WithHost.

Lemma batch_nil engine calls options :
  validateVCBatch engine calls [] options =
    {| batchValid := true; results := []; allTrusted := true |}.
Proof. reflexivity. Qed.

Lemma batch_cons engine calls x l options :
  validateVCBatch engine calls (x :: l) options =
    let r := fst (validateVC engine (callServices (calls 0%nat)) (callFault (calls 0%nat))
                    (callClock (calls 0%nat)) x options (callCache (calls 0%nat))) in
    let rest := validateVCBatch engine (fun i => calls (S i)) l options in
    {| batchValid := valid r && batchValid rest;
       results := r :: results rest;
       allTrusted := trustedIsTrue r && allTrusted rest |}.
Proof. reflexivity. Qed.

(** X21.  [validateVCBatch] answers with one result per token; the
    batch is valid exactly when every result is; it is all trusted
    exactly when every result reports [trusted: true], and every such
    result names its issuer; the empty batch is valid and all trusted;
    and with the trust check disabled no batch but the empty one is
    all trusted. *)
Theorem validateVCBatch_summary engine calls vcJWTs options :
  let b := validateVCBatch engine calls vcJWTs options in
  length (results b) = length vcJWTs /\
  (batchValid b = true <-> Forall (fun r => valid r = true) (results b)) /\
  (allTrusted b = true <->
   Forall (fun r => trusted r = Some true /\ exists i, issuer r = Some i) (results b)) /\
  (vcJWTs = [] -> batchValid b = true /\ allTrusted b = true) /\
  (checkTrust options = Some false -> vcJWTs <> [] -> allTrusted b = false).
Proof.
  cbv zeta. revert calls.
  induction vcJWTs as [|x l IH]; intros calls.
  - rewrite batch_nil. simpl. repeat split; auto. intros _ H. now destruct H.
  - rewrite batch_cons. cbv zeta. cbn [batchValid results allTrusted length].
    destruct (IH (fun i => calls (S i))) as (Hlen & Hvalid & Htrust & _ & Hoff).
    set (svc := callServices (calls 0%nat)).
    set (r := fst (validateVC engine svc (callFault (calls 0%nat)) (callClock (calls 0%nat))
                     x options (callCache (calls 0%nat)))).
    pose proof (validateVC_trusted_true engine svc (callFault (calls 0%nat))
                  (callClock (calls 0%nat)) x options (callCache (calls 0%nat)))
      as Htrue.
    fold r in Htrue.
    split; [now rewrite Hlen|]. split; [|split; [|split]].
    + rewrite andb_true_iff, Forall_cons_iff, Hvalid. reflexivity.
    + rewrite andb_true_iff, Forall_cons_iff, Htrust.
      assert (Hone : trustedIsTrue r = true <->
                     trusted r = Some true /\ exists i, issuer r = Some i).
      { unfold trustedIsTrue. split.
        - destruct (trusted r) as [[|]|] eqn:Ht; try discriminate. intros _.
          split; [reflexivity|]. destruct (Htrue eq_refl) as (_ & i & Hi & _). eauto.
        - intros [-> _]. reflexivity. }
      now rewrite Hone.
    + discriminate.
    + intros Hoffopt _. apply andb_false_iff. left.
      unfold trustedIsTrue. destruct (trusted r) as [[|]|] eqn:Ht; try reflexivity.
      destruct (Htrue eq_refl) as (Hon & _). rewrite Hoffopt in Hon. discriminate Hon.
Qed.

End VCValidatorShape.

Module SDJWTValidatorShape.
Import TrustResolver.
Import SDJWTValidator.

Section WithHost.
Context (engine : Engine) (services : Services).

Lemma decodeIssuer_rejects token r :
  decodeIssuer services token = Js.Normal (Return r) -> exists e, r = rejected [e] None.
Proof.
  unfold decodeIssuer.
  destruct (sdJwtDecode services token) as [decoded|t]; [|intros [= <-]; eauto].
  destruct (Js.get decoded "jwt") as [jwt|t]; simpl; [|discriminate].
  destruct (Js.truthy _); [discriminate | intros [= <-]; eauto].
Qed.

Lemma verifyToken_return clock token config r :
  verifyToken services clock token config = Js.Normal (Return r) ->
  exists e iss, r = rejected [e] iss.
Proof.
  unfold verifyToken.
  destruct (decodeIssuer services token) as [[r0|[decoded i]]|t] eqn:Hd; simpl;
    [| |discriminate].
  { intros [= <-]. destruct (decodeIssuer_rejects _ _ Hd) as [e ->]. eauto. }
  destruct (success (resolveDID services (resolveNow clock) i config));
    [|intros [= <-]; eauto].
  destruct (document (resolveDID services (resolveNow clock) i config)) as [doc|];
    [|intros [= <-]; eauto].
  destruct (extractPublicKeyFromDID doc) as [k|]; [|intros [= <-]; eauto].
  destruct (jwtValid (verifyJWTWithJWK services (verifyNow clock) (issuerJWTOf token) k));
    [discriminate | intros [= <-]; eauto].
Qed.

(** The first steps read the clock through the collaborators only. *)
Lemma verifyToken_clock clock clock' token config :
  resolveNow clock' = resolveNow clock -> verifyNow clock' = verifyNow clock ->
  verifyToken services clock' token config = verifyToken services clock token config.
Proof. intros Hr Hv. unfold verifyToken. now rewrite Hr, Hv. Qed.

(** [validateSDJWT], by the outcome of its steps. *)
Lemma validateSDJWT_cases fault clock token options cache :
  let run := validateSDJWT engine services fault clock token options cache in
  match verifyToken services clock token (trustConfig options) with
  | Js.Throw t =>
      run = (rejected ["Validation error: " +:+ Js.messageOr "Unknown error" t] None, cache)
  | Js.Normal (Return r) => run = (r, cache) /\ exists e iss, r = rejected [e] iss
  | Js.Normal (Continue (decoded, issuerDID, verifiedPayload)) =>
      match datesOf engine (payloadOf verifiedPayload) with
      | Js.Throw t =>
          run = (rejected ["Validation error: " +:+ Js.messageOr "Unknown error" t] None,
                 cache)
      | Js.Normal dates =>
          match expiryErrors engine (orDefault (checkExpiration options) true)
                  (expiryNow clock) (Js.getOpt (payloadOf verifiedPayload) "exp") with
          | Js.Throw t =>
              run = (rejected ["Validation error: " +:+ Js.messageOr "Unknown error" t]
                              None, cache)
          | Js.Normal [] =>
              issuer (fst run) = Some issuerDID /\
              disclosureCount (fst run) = Some (countOf (disclosedClaimsOf decoded)) /\
              valid (fst run) = true /\ errors (fst run) = None /\
              disclosedClaims (fst run) = Some (disclosedClaimsOf decoded) /\
              trusted (fst run) =
                Some (orDefault (checkTrust options) true &&
                      TrustResolver.trusted
                        (fst (isTrustedIssuerOf fault (trustNow clock) (trustToday clock)
                                issuerDID (trustConfig options) cache))) /\
              (orDefault (checkTrust options) true = false -> snd run = cache)
          | Js.Normal (e :: es) =>
              issuer (fst run) = Some issuerDID /\
              disclosureCount (fst run) = Some (countOf (disclosedClaimsOf decoded)) /\
              valid (fst run) = false /\ errors (fst run) = Some (e :: es) /\
              disclosedClaims (fst run) = None /\ trusted (fst run) = None
          end
      end
  end.
Proof.
  cbv zeta. unfold validateSDJWT.
  destruct (verifyToken services clock token (trustConfig options))
    as [[r|[[decoded i] vp]]|t] eqn:Hv; simpl Js.bind; cbv iota beta.
  - split; [reflexivity|]. exact (verifyToken_return _ _ _ _ Hv).
  - destruct (datesOf engine (payloadOf vp)) as [dates|t]; simpl Js.bind; cbv iota beta;
      [|reflexivity].
    destruct (expiryErrors engine _ _ _) as [errs|t]; simpl Js.bind; cbv iota beta;
      [|reflexivity].
    destruct (orDefault (checkTrust options) true); cbn [andb].
    + destruct (isTrustedIssuerOf fault (trustNow clock) (trustToday clock) i
                  (trustConfig options) cache) as [tc c].
      cbn [fst].
      destruct errs; simpl; repeat split; auto; discriminate.
    + destruct errs; simpl; repeat split; auto.
  - reflexivity.
Qed.

(** X22.  The shape of every answer of [validateSDJWT]: it is valid
    exactly when it carries no error list, and an invalid answer
    carries at least one error; the disclosed claims, and the trust
    verdict, are reported with a valid answer only (an expired token
    of a trusted issuer is reported without [trusted], unlike an
    expired credential by [validateVC]); [trusted: true] is reported
    only when the trust check is enabled and [isTrustedIssuer] trusts
    the issuer the answer names. *)
Theorem validateSDJWT_result_shape fault clock token options cache :
  let r := fst (validateSDJWT engine services fault clock token options cache) in
  (valid r = true <-> errors r = None) /\
  (valid r = false -> exists e es, errors r = Some (e :: es)) /\
  (valid r = true <-> disclosedClaims r <> None) /\
  (valid r = true <-> trusted r <> None) /\
  (trusted r = Some true ->
     orDefault (checkTrust options) true = true /\
     exists i, issuer r = Some i /\
       TrustResolver.trusted
         (fst (isTrustedIssuerOf fault (trustNow clock) (trustToday clock) i
                 (trustConfig options) cache)) = true).
Proof.
  cbv zeta. pose proof (validateSDJWT_cases fault clock token options cache) as Hc.
  cbv zeta in Hc.
  assert (Hrej : forall e iss,
            validateSDJWT engine services fault clock token options cache
              = (rejected [e] iss, cache) ->
            let r := fst (validateSDJWT engine services fault clock token options cache) in
            (valid r = true <-> errors r = None) /\
            (valid r = false -> exists e es, errors r = Some (e :: es)) /\
            (valid r = true <-> disclosedClaims r <> None) /\
            (valid r = true <-> trusted r <> None) /\
            (trusted r = Some true ->
               orDefault (checkTrust options) true = true /\
               exists i, issuer r = Some i /\
                 TrustResolver.trusted
                   (fst (isTrustedIssuerOf fault (trustNow clock) (trustToday clock) i
                           (trustConfig options) cache)) = true)).
  { intros e iss ->. simpl.
    split; [split; discriminate|]. split; [eauto|].
    split; [split; [discriminate | intros H; now destruct H]|].
    split; [split; [discriminate | intros H; now destruct H] | discriminate]. }
  destruct (verifyToken services clock token (trustConfig options))
    as [[r|[[decoded i] vp]]|t].
  - destruct Hc as (Hrun & e & iss & ->). exact (Hrej _ _ Hrun).
  - destruct (datesOf engine (payloadOf vp)) as [dates|t]; [|exact (Hrej _ _ Hc)].
    destruct (expiryErrors engine _ _ _) as [[|e es]|t]; [| |exact (Hrej _ _ Hc)].
    + destruct Hc as (Hi & _ & Hv & He & Hd & Ht & _). rewrite Hv, He, Hd, Ht.
      split; [tauto|]. split; [discriminate|].
      split; [split; [discriminate | reflexivity]|].
      split; [split; [discriminate | reflexivity]|].
      intros [= Hb]. apply andb_true_iff in Hb. destruct Hb. eauto.
    + destruct Hc as (Hi & _ & Hv & He & Hd & Ht). rewrite Hv, He, Hd, Ht.
      split; [split; discriminate|]. split; [eauto|].
      split; [split; [discriminate | intros H; now destruct H]|].
      split; [split; [discriminate | intros H; now destruct H] | discriminate].
  - exact (Hrej _ _ Hc).
Qed.

Lemma disclosedClaimsOf_or decoded :
  Js.or (disclosedClaimsOf decoded) (Js.Obj []) = disclosedClaimsOf decoded.
Proof.
  unfold disclosedClaimsOf, Js.or.
  destruct (Js.truthy (Js.getOpt decoded "disclosures")) eqn:Ht; [now rewrite Ht | reflexivity].
Qed.

Lemma expiryErrors_off now exp : expiryErrors engine false now exp = Js.Normal [].
Proof. reflexivity. Qed.

(** Once the dates are printed, the expiry check does not throw. *)
Lemma expiryErrors_after_dates doCheck now payload dates :
  datesOf engine payload = Js.Normal dates ->
  exists errs, expiryErrors engine doCheck now (Js.getOpt payload "exp") = Js.Normal errs.
Proof.
  unfold datesOf, expiryErrors. intros Hd.
  destruct (doCheck && Js.truthy (Js.getOpt payload "exp")) eqn:Hc; [|eauto].
  apply andb_true_iff in Hc. destruct Hc as [_ Ht].
  destruct (isoOfSeconds engine (Js.getOpt payload "iat")) as [i|t]; [|discriminate Hd].
  cbn [Js.bind] in Hd. unfold isoOfSeconds in Hd. rewrite Ht in Hd.
  destruct (timesThousand engine (Js.getOpt payload "exp")) as [ms|t];
    [|discriminate Hd].
  cbn [Js.bind]. eauto.
Qed.

(** The validation behind [verifySelectiveDisclosure]. *)
Lemma disclosure_validation fault clock token cache :
  let run := validateSDJWT engine services fault clock token disclosureOptions cache in
  snd run = cache /\
  match verifyToken services clock token None with
  | Js.Normal (Continue (decoded, issuerDID, verifiedPayload)) =>
      match datesOf engine (payloadOf verifiedPayload) with
      | Js.Normal _ =>
          valid (fst run) = true /\
          disclosedClaims (fst run) = Some (disclosedClaimsOf decoded)
      | Js.Throw _ => valid (fst run) = false
      end
  | _ => valid (fst run) = false
  end.
Proof.
  cbv zeta. pose proof (validateSDJWT_cases fault clock token disclosureOptions cache) as Hc.
  cbv zeta in Hc. change (trustConfig disclosureOptions) with (@None TrustResolverConfig) in Hc.
  destruct (verifyToken services clock token None) as [[r|[[decoded i] vp]]|t].
  - destruct Hc as (-> & e & iss & ->). auto.
  - destruct (datesOf engine (payloadOf vp)) as [dates|t]; [|rewrite Hc; auto].
    change (orDefault (checkExpiration disclosureOptions) true) with false in Hc.
    rewrite expiryErrors_off in Hc. destruct Hc as (_ & _ & Hv & _ & Hd & _ & Hs).
    split; [now apply Hs | auto].
  - rewrite Hc. auto.
Qed.

(** A valid answer of [validateSDJWT] carries the disclosed claims. *)
Lemma validateSDJWT_valid_claims fault clock token options cache :
  valid (fst (validateSDJWT engine services fault clock token options cache)) = true ->
  exists cs,
    disclosedClaims (fst (validateSDJWT engine services fault clock token options cache))
      = Some cs.
Proof.
  pose proof (validateSDJWT_cases fault clock token options cache) as Hc. cbv zeta in Hc.
  destruct (verifyToken services clock token (trustConfig options))
    as [[r|[[decoded i] vp]]|t].
  - destruct Hc as (-> & e & iss & ->). discriminate.
  - destruct (datesOf engine (payloadOf vp)) as [dates|t]; [|rewrite Hc; discriminate].
    destruct (expiryErrors engine _ _ _) as [[|e es]|t]; [| |rewrite Hc; discriminate].
    + destruct Hc as (_ & _ & _ & _ & Hd & _). eauto.
    + destruct Hc as (_ & _ & Hv & _). rewrite Hv. discriminate.
  - rewrite Hc. discriminate.
Qed.

(** The claims a validation reports are the claims
    [verifySelectiveDisclosure] hands out, when both find the same
    answers of the collaborators. *)
Lemma disclosure_of_accepted fault clock token cache options fault' clock' cache' cs :
  resolveNow clock' = resolveNow clock -> verifyNow clock' = verifyNow clock ->
  trustConfig options = None ->
  disclosedClaims
    (fst (validateSDJWT engine services fault' clock' token options cache')) = Some cs ->
  valid (fst (validateSDJWT engine services fault clock token disclosureOptions cache))
    = true /\
  disclosedClaims
    (fst (validateSDJWT engine services fault clock token disclosureOptions cache))
    = Some cs.
Proof.
  intros Hr Hn Hcfg Hcs.
  pose proof (disclosure_validation fault clock token cache) as Hd. cbv zeta in Hd.
  destruct Hd as [_ Hd].
  pose proof (validateSDJWT_cases fault' clock' token options cache') as Hc.
  cbv zeta in Hc. rewrite Hcfg, (verifyToken_clock clock clock' token None Hr Hn) in Hc.
  destruct (verifyToken services clock token None) as [[r|[[decoded i] vp]]|t].
  - destruct Hc as (Hrun & e & iss & ->). rewrite Hrun in Hcs. discriminate Hcs.
  - destruct (datesOf engine (payloadOf vp)) as [dates|t];
      [|rewrite Hc in Hcs; discriminate Hcs].
    destruct Hd as [Hv Hdc].
    destruct (expiryErrors engine _ _ _) as [[|e es]|t];
      [| |rewrite Hc in Hcs; discriminate Hcs].
    + destruct Hc as (_ & _ & _ & _ & Hdc' & _). rewrite Hdc' in Hcs.
      injection Hcs as <-. auto.
    + destruct Hc as (_ & _ & _ & _ & Hdc' & _). rewrite Hdc' in Hcs. discriminate Hcs.
  - rewrite Hc in Hcs. discriminate Hcs.
Qed.

Lemma verifySelectiveDisclosure_unfold f c k token :
  verifySelectiveDisclosure engine services f c token k =
    (let v := fst (validateSDJWT engine services f c token disclosureOptions k) in
     if negb (valid v)
     then {| disclosed := false; claims := None;
             disclosureError := Some (msgFailed v) |}
     else {| disclosed := true; claims := Some (claimsOf v); disclosureError := None |},
     snd (validateSDJWT engine services f c token disclosureOptions k)).
Proof.
  unfold verifySelectiveDisclosure.
  destruct (validateSDJWT engine services f c token disclosureOptions k) as [v k'].
  cbn [fst snd]. destruct (negb (valid v)); reflexivity.
Qed.

(** X23.  [verifySelectiveDisclosure] never consults nor changes the
    trust cache, and it reads the clock only through its
    collaborators ([resolveDID], and jose's verification, which
    compares [exp] with the current time): its answer is the same
    whatever the trust cache holds, whatever the trust lookup would
    raise and whatever the validator's own readings of the clock are.
    It succeeds exactly when the error is absent and exactly when
    claims are handed out; and when [validateSDJWT] reports claims
    under any options with the default trust configuration, given the
    same answers of the collaborators, [verifySelectiveDisclosure]
    hands out those same claims. *)
Theorem verifySelectiveDisclosure_footprint fault clock token cache :
  let answer := fst (verifySelectiveDisclosure engine services fault clock token cache) in
  snd (verifySelectiveDisclosure engine services fault clock token cache) = cache /\
  (forall fault' clock' cache',
     resolveNow clock' = resolveNow clock -> verifyNow clock' = verifyNow clock ->
     fst (verifySelectiveDisclosure engine services fault' clock' token cache') = answer) /\
  (disclosed answer = true <-> disclosureError answer = None) /\
  (disclosed answer = true <-> claims answer <> None) /\
  (forall options fault' clock' cache' cs,
     resolveNow clock' = resolveNow clock -> verifyNow clock' = verifyNow clock ->
     trustConfig options = None ->
     disclosedClaims
       (fst (validateSDJWT engine services fault' clock' token options cache')) = Some cs ->
     disclosed answer = true /\ claims answer = Some cs).
Proof.
  cbv zeta.
  assert (Hindep : forall f c k f' c' k',
            resolveNow c' = resolveNow c -> verifyNow c' = verifyNow c ->
            fst (validateSDJWT engine services f' c' token disclosureOptions k') =
            fst (validateSDJWT engine services f c token disclosureOptions k)).
  { intros f c k f' c' k' Hr Hn. unfold validateSDJWT.
    change (trustConfig disclosureOptions) with (@None TrustResolverConfig).
    rewrite (verifyToken_clock c c' token None Hr Hn).
    destruct (verifyToken services c token None) as [[r|[[decoded i] vp]]|t];
      simpl Js.bind; cbv iota beta; try reflexivity.
    destruct (datesOf engine (payloadOf vp)) as [dates|t]; reflexivity. }
  pose proof (disclosure_validation fault clock token cache) as Hd. cbv zeta in Hd.
  destruct Hd as [Hcache _].
  rewrite !verifySelectiveDisclosure_unfold. cbn [fst snd]. split; [exact Hcache|]. split.
  { intros f' c' k' Hr Hn. rewrite verifySelectiveDisclosure_unfold. cbn [fst].
    now rewrite (Hindep fault clock cache f' c' k' Hr Hn). }
  cbv zeta.
  destruct (valid (fst (validateSDJWT engine services fault clock token
                          disclosureOptions cache))) eqn:Hv; cbn [negb].
  - cbn [disclosed claims disclosureError].
    split; [tauto|]. split; [split; [discriminate | reflexivity]|].
    intros options f' c' k' cs Hr Hn Hcfg Hcs.
    destruct (disclosure_of_accepted fault clock token cache options f' c' k' cs
                Hr Hn Hcfg Hcs) as [_ Hdc].
    unfold claimsOf. rewrite Hdc.
    split; [reflexivity|].
    pose proof (validateSDJWT_cases f' c' token options k') as Hc. cbv zeta in Hc.
    destruct (verifyToken services c' token (trustConfig options))
      as [[r|[[decoded i] vp]]|t].
    + destruct Hc as (Hrun & e & iss & ->). rewrite Hrun in Hcs. discriminate Hcs.
    + destruct (datesOf engine (payloadOf vp)) as [dates|t];
        [|rewrite Hc in Hcs; discriminate Hcs].
      destruct (expiryErrors engine _ _ _) as [[|e es]|t];
        [| |rewrite Hc in Hcs; discriminate Hcs].
      * destruct Hc as (_ & _ & _ & _ & Hdc' & _). rewrite Hdc' in Hcs. injection Hcs as <-.
        now rewrite disclosedClaimsOf_or.
      * destruct Hc as (_ & _ & _ & _ & Hdc' & _). rewrite Hdc' in Hcs. discriminate Hcs.
    + rewrite Hc in Hcs. discriminate Hcs.
  - cbn [disclosed claims disclosureError].
    split; [split; discriminate|]. split; [split; [discriminate | intros H; now destruct H]|].
    intros options f' c' k' cs Hr Hn Hcfg Hcs.
    destruct (disclosure_of_accepted fault clock token cache options f' c' k' cs
                Hr Hn Hcfg Hcs) as [H _].
    rewrite Hv in H. discriminate H.
Qed.

Lemma higherClaim_bound cs minAge ks m :
  higherClaim cs minAge ks = Some m ->
  minAge <= m /\ exists key, In key ks /\ Js.isTrue (Js.getOpt cs key) = true.
Proof.
  induction ks as [|key rest IH]; cbn [higherClaim]; [discriminate|].
  assert (Hrest : higherClaim cs minAge rest = Some m ->
                  minAge <= m /\
                  exists k, In k (key :: rest) /\ Js.isTrue (Js.getOpt cs k) = true).
  { intros H. destruct (IH H) as (Hle & k & Hk & Ht). split; [assumption|].
    exists k. split; [now right | assumption]. }
  destruct (String.prefix "age_over_" key); [|exact Hrest].
  destruct (Js.parseInt (Js.dropString 9 key)) as [claimAge|]; [|exact Hrest].
  destruct ((minAge <=? claimAge) && Js.isTrue (Js.getOpt cs key)) eqn:Hc; [|exact Hrest].
  apply andb_true_iff in Hc. destruct Hc as [Hle Ht]. apply Z.leb_le in Hle.
  intros [= <-]. split; [assumption|]. exists key. split; [now left | assumption].
Qed.

Lemma ageFromClaims_sound today cs minAge a :
  ageFromClaims engine today cs minAge = Js.Normal a ->
  (verified a = true -> exists n, ageOver a = Some n /\ minAge <= n /\ error a = None) /\
  (verified a = false -> ageOver a = None /\ exists e, error a = Some e).
Proof.
  unfold ageFromClaims.
  destruct (Js.isTrue (Js.getOpt cs ("age_over_" +:+ Js.showZ minAge))).
  { intros [= <-]. simpl. split; [intros _; exists minAge; repeat split; lia | discriminate]. }
  destruct (higherClaim cs minAge (Js.keys cs)) as [m|] eqn:Hh.
  { intros [= <-]. simpl. destruct (higherClaim_bound _ _ _ _ Hh) as [Hle _].
    split; [intros _; exists m; auto | discriminate]. }
  unfold ageFromBirthdate, notVerified.
  destruct (Js.truthy _); [|intros [= <-]; simpl; split; [discriminate | eauto]].
  destruct (newDate engine _) as [birthDate|t]; [|discriminate]. cbn [Js.bind].
  destruct (calculateAge engine today birthDate) as [age|];
    [|intros [= <-]; simpl; split; [discriminate | eauto]].
  destruct (minAge <=? age) eqn:Hle; intros [= <-]; simpl.
  - apply Z.leb_le in Hle. split; [intros _; exists age; auto | discriminate].
  - split; [discriminate | eauto].
Qed.

(** X24.  [verifyAgeOver] is sound for its threshold: whenever it
    answers [verified: true] the token passed [validateSDJWT] with the
    trust and expiry checks enabled, the reported [ageOver] is present
    and at least [minAge], and no error is reported; whenever it
    answers [verified: false] no age is reported and an error is; and
    a token whose age is verified always discloses its claims to
    [verifySelectiveDisclosure]. *)
Theorem verifyAgeOver_sound fault clock token minAge cache :
  let a := fst (verifyAgeOver engine services fault clock token minAge cache) in
  (verified a = true ->
     valid (fst (validateSDJWT engine services fault clock token ageOptions cache)) = true /\
     (exists n, ageOver a = Some n /\ minAge <= n /\ error a = None) /\
     disclosed (fst (verifySelectiveDisclosure engine services fault clock token cache))
       = true) /\
  (verified a = false -> ageOver a = None /\ exists e, error a = Some e) /\
  snd (verifyAgeOver engine services fault clock token minAge cache) =
    snd (validateSDJWT engine services fault clock token ageOptions cache).
Proof.
  cbv zeta. unfold verifyAgeOver.
  destruct (validateSDJWT engine services fault clock token ageOptions cache)
    as [v c] eqn:Hrun.
  cbn [fst snd].
  destruct (valid v) eqn:Hv; cbn [negb fst snd].
  - destruct (ageFromClaims engine (ageToday clock) (claimsOf v) minAge)
      as [a|t] eqn:Hage; cbn [fst snd].
    2: { simpl. split; [discriminate|]. split; [eauto | reflexivity]. }
    destruct (ageFromClaims_sound _ _ _ _ Hage) as [Hyes Hno].
    split; [|split; [exact Hno | reflexivity]].
    intros Hver. split; [reflexivity|]. split; [exact (Hyes Hver)|].
    pose proof (validateSDJWT_valid_claims fault clock token ageOptions cache) as Hdc.
    rewrite Hrun in Hdc. cbn [fst] in Hdc. destruct (Hdc Hv) as [cs Hcs].
    rewrite verifySelectiveDisclosure_unfold. cbn [fst].
    assert (Hacc : valid (fst (validateSDJWT engine services fault clock token
                                 disclosureOptions cache)) = true).
    { refine (proj1 (disclosure_of_accepted fault clock token cache ageOptions
                       fault clock cache cs eq_refl eq_refl eq_refl _)).
      now rewrite Hrun. }
    cbv zeta. now rewrite Hacc.
  - simpl. split; [discriminate|]. split; [eauto | reflexivity].
Qed.

End WithHost.

End SDJWTValidatorShape.

Module KeyExtractionFacts.
Import TrustResolver.




End KeyExtractionFacts.

Module MSOFacts.
Import MDocDecoder.

Lemma nonEmpty_true s : nonEmpty s = true <-> s <> EmptyString.
Proof. unfold nonEmpty. rewrite negb_true_iff. apply String.eqb_neq. Qed.

Lemma nonEmpty_false s : nonEmpty s = false <-> s = EmptyString.
Proof. unfold nonEmpty. rewrite negb_false_iff. apply String.eqb_eq. Qed.

Lemma dateGt_true d now : Js.dateGt d (Some now) = true <-> exists f, d = Some f /\ now < f.
Proof.
  unfold Js.dateGt, Js.dateLt. destruct d as [f|]; split.
  - intros H. apply Z.ltb_lt in H. eauto.
  - intros (f' & [= <-] & H). now apply Z.ltb_lt.
  - discriminate.
  - intros (f' & H & _). discriminate H.
Qed.

Lemma dateLt_true d now : Js.dateLt d (Some now) = true <-> exists u, d = Some u /\ u < now.
Proof.
  unfold Js.dateLt. destruct d as [u|]; split.
  - intros H. apply Z.ltb_lt in H. eauto.
  - intros (u' & [= <-] & H). now apply Z.ltb_lt.
  - discriminate.
  - intros (u' & H & _). discriminate H.
Qed.

Lemma not_after d now :
  Js.dateGt d (Some now) = false <-> forall f, d = Some f -> f <= now.
Proof.
  rewrite <- not_true_iff_false, dateGt_true. split.
  - intros H f Hf. destruct (Z.le_gt_cases f now) as [Hle|Hgt]; [assumption|].
    destruct H. eauto.
  - intros H (f & Hf & Hlt). specialize (H f Hf). lia.
Qed.

Lemma not_before d now :
  Js.dateLt d (Some now) = false <-> forall u, d = Some u -> now <= u.
Proof.
  rewrite <- not_true_iff_false, dateLt_true. split.
  - intros H u Hu. destruct (Z.le_gt_cases now u) as [Hle|Hgt]; [assumption|].
    destruct H. eauto.
  - intros H (u & Hu & Hlt). specialize (H u Hu). lia.
Qed.

(** The four ways through [verifyMSO]. *)
Lemma verifyMSO_cases now mso :
  let log0 := [{| level := info; message := "Verifying MSO" |}] in
  ((version mso = EmptyString \/ digestAlgorithm mso = EmptyString) /\
   verifyMSO now mso =
     ({| valid := false; error := Some "Invalid MSO structure" |}, log0)) \/
  (version mso <> EmptyString /\ digestAlgorithm mso <> EmptyString /\
   (exists f, validFrom (validityInfo mso) = Some f /\ now < f) /\
   verifyMSO now mso = ({| valid := false; error := Some "MSO not yet valid" |}, log0)) \/
  (version mso <> EmptyString /\ digestAlgorithm mso <> EmptyString /\
   (forall f, validFrom (validityInfo mso) = Some f -> f <= now) /\
   (exists u, validUntil (validityInfo mso) = Some u /\ u < now) /\
   verifyMSO now mso = ({| valid := false; error := Some "MSO expired" |}, log0)) \/
  (version mso <> EmptyString /\ digestAlgorithm mso <> EmptyString /\
   (forall f, validFrom (validityInfo mso) = Some f -> f <= now) /\
   (forall u, validUntil (validityInfo mso) = Some u -> now <= u) /\
   verifyMSO now mso =
     ({| valid := true; error := None |},
      log0 ++ [{| level := warn;
                  message := "MSO verification incomplete - signature check not yet implemented" |}])).
Proof.
  cbv zeta. unfold verifyMSO.
  destruct (nonEmpty (version mso)) eqn:Hver; cbn [negb orb].
  2:{ left. apply (proj1 (nonEmpty_false _)) in Hver. auto. }
  destruct (nonEmpty (digestAlgorithm mso)) eqn:Hdig; cbn [negb].
  2:{ left. apply (proj1 (nonEmpty_false _)) in Hdig. auto. }
  apply (proj1 (nonEmpty_true _)) in Hver. apply (proj1 (nonEmpty_true _)) in Hdig.
  destruct (Js.dateGt (validFrom (validityInfo mso)) (Some now)) eqn:Hfrom.
  { right. left. apply (proj1 (dateGt_true _ _)) in Hfrom. auto. }
  pose proof (proj1 (not_after _ _) Hfrom) as Hfrom'.
  destruct (Js.dateLt (validUntil (validityInfo mso)) (Some now)) eqn:Huntil.
  { right. right. left. apply (proj1 (dateLt_true _ _)) in Huntil. auto. }
  pose proof (proj1 (not_before _ _) Huntil) as Huntil'. right. right. right. auto.
Qed.

(** X26.  [verifyMSO] accepts a security object exactly when its
    version and digest algorithm are non-empty, its [validFrom] is not
    after the current time and its [validUntil] not before it (both
    bounds included; a date that is invalid passes either check); a
    rejection carries exactly one of three messages, an acceptance
    none; the note that the signature is unchecked is logged exactly
    on acceptance; and the document type, the digests and the device
    key play no part in the answer. *)
Theorem verifyMSO_verdict now mso :
  let answer := fst (verifyMSO now mso) in
  (valid answer = true <->
   version mso <> EmptyString /\ digestAlgorithm mso <> EmptyString /\
   (forall f, validFrom (validityInfo mso) = Some f -> f <= now) /\
   (forall u, validUntil (validityInfo mso) = Some u -> now <= u)) /\
  (valid answer = true <-> error answer = None) /\
  (valid answer = false ->
   error answer = Some "Invalid MSO structure" \/
   error answer = Some "MSO not yet valid" \/
   error answer = Some "MSO expired") /\
  (valid answer = true <->
   In {| level := warn;
         message := "MSO verification incomplete - signature check not yet implemented" |}
      (snd (verifyMSO now mso))) /\
  (forall mso',
     version mso' = version mso -> digestAlgorithm mso' = digestAlgorithm mso ->
     validityInfo mso' = validityInfo mso ->
     verifyMSO now mso' = verifyMSO now mso).
Proof.
  cbv zeta. split; [|split; [|split; [|split]]].
  5:{ intros mso' Hv Hd Hi. unfold verifyMSO. now rewrite Hv, Hd, Hi. }
  all: destruct (verifyMSO_cases now mso)
         as [(Hbad & ->)|[(Hv & Hd & (f & Hf & Hlt) & ->)
                         |[(Hv & Hd & Hfrom & (u & Hu & Hlt) & ->)
                          |(Hv & Hd & Hfrom & Huntil & ->)]]];
       cbn [fst snd valid error app In].
  - split; [discriminate|]. intros (Hv & Hd & _). destruct Hbad; contradiction.
  - split; [discriminate|]. intros (_ & _ & H & _). specialize (H f Hf). lia.
  - split; [discriminate|]. intros (_ & _ & _ & H). specialize (H u Hu). lia.
  - split; auto.
  - split; discriminate.
  - split; discriminate.
  - split; discriminate.
  - split; reflexivity.
  - auto.
  - auto.
  - auto.
  - discriminate.
  - split; [discriminate | intros [H|[]]; discriminate H].
  - split; [discriminate | intros [H|[]]; discriminate H].
  - split; [discriminate | intros [H|[]]; discriminate H].
  - split; [auto | reflexivity].
Qed.

End MSOFacts.

(* ================================================================== *)
(** * The matcher on values and the route that calls it               *)
(* ================================================================== *)

Module RawMatcherFacts.
Import PresentationDefinition.
Import RawMatcher.

Lemma descriptor_id d : Js.getOpt (descriptorValue d) "id" = Js.Str (id d).
Proof. reflexivity. Qed.

Lemma descriptor_get_id d : Js.get (descriptorValue d) "id" = Js.Normal (Js.Str (id d)).
Proof. reflexivity. Qed.

Lemma descriptor_fields d :
  fieldsOf (descriptorValue d) =
    Js.Normal match fields (constraints d) with
              | Some fs => Js.Arr (map fieldValue fs)
              | None => Js.Undefined
              end.
Proof.
  unfold fieldsOf, descriptorValue, constraintsValue.
  destruct (fields (constraints d)), (limit_disclosure (constraints d)); reflexivity.
Qed.

Lemma field_optional f :
  Js.get (fieldValue f) "optional" =
    Js.Normal match optional f with
              | Some b => Js.Bool b
              | None => Js.Undefined
              end.
Proof.
  unfold fieldValue.
  destruct (filter f), (fieldPurpose f), (predicate f), (optional f); reflexivity.
Qed.

Lemma field_truthy_optional f :
  Js.truthy match optional f with
            | Some b => Js.Bool b
            | None => Js.Undefined
            end = isOptional f.
Proof. unfold isOptional. destruct (optional f); reflexivity. Qed.

Lemma someLoop_fields fs : someLoop (map fieldValue fs) = Js.Normal (existsb isOptional fs).
Proof.
  induction fs as [|f fs IH]; [reflexivity|].
  cbn [map someLoop existsb]. rewrite field_optional. cbn [Js.bind].
  rewrite field_truthy_optional. destruct (isOptional f); [reflexivity | exact IH].
Qed.

Lemma everyLoop_fields fs : everyLoop (map fieldValue fs) = Js.Normal (forallb isOptional fs).
Proof.
  induction fs as [|f fs IH]; [reflexivity|].
  cbn [map everyLoop forallb]. rewrite field_optional. cbn [Js.bind].
  rewrite field_truthy_optional. destruct (isOptional f); [exact IH | reflexivity].
Qed.

Lemma entry_get_id m : Js.get (entryValue m) "id" = Js.Normal (Js.Str (mapId m)).
Proof. reflexivity. Qed.

Lemma entry_path m : Js.getOpt (entryValue m) "path" = Js.Str (mapPath m).
Proof. reflexivity. Qed.

Lemma findEntry_entries d ms :
  findEntry (descriptorValue d) (map entryValue ms) =
    Js.Normal match find (fun m => String.eqb (mapId m) (id d)) ms with
              | Some m => entryValue m
              | None => Js.Undefined
              end.
Proof.
  induction ms as [|m ms IH]; [reflexivity|].
  cbn [map findEntry find]. rewrite entry_get_id, descriptor_get_id. cbn [Js.bind strictEq].
  destruct (String.eqb (mapId m) (id d)); [reflexivity | exact IH].
Qed.

Lemma elementAt_typed cs i : Js.truthy (elementAt (Js.Arr cs) i) = credentialAt cs i.
Proof.
  unfold elementAt, credentialAt. destruct (i <? 0); [reflexivity|].
  destruct (nth_error cs (Z.to_nat i)); reflexivity.
Qed.

Section WithEngine.
Context (engine : Engine).

(** One iteration on the JSON of typed arguments is the typed
    iteration. *)
Lemma stepRaw_typed s cs errs matched d :
  stepRaw engine (submissionValue s) (Js.Arr cs) (errs, map Js.Str matched)
    (descriptorValue d) =
  Js.Normal (fst (descriptorStep s cs (errs, matched) d),
             map Js.Str (snd (descriptorStep s cs (errs, matched) d))).
Proof.
  unfold stepRaw, descriptorStep, findMappingRaw, findMapping.
  change (Js.getOpt (submissionValue s) "descriptor_map")
    with (Js.Arr (map entryValue (descriptor_map s))).
  cbv iota. rewrite findEntry_entries. cbn [Js.bind].
  destruct (find (fun m => String.eqb (mapId m) (id d)) (descriptor_map s)) as [m|].
  - change (Js.truthy (entryValue m)) with true. cbn [negb]. cbv iota.
    rewrite entry_path. unfold resolveMapping. cbn [pathIndex Js.bind].
    rewrite elementAt_typed, descriptor_id. cbn [text Js.bind].
    destruct ((extractIndexFromPath (mapPath m) =? -1)
              || negb (credentialAt cs (extractIndexFromPath (mapPath m)))); cbn [fst snd].
    + reflexivity.
    + now rewrite map_app.
  - cbn [Js.truthy negb]. cbv iota. rewrite descriptor_fields. cbn [Js.bind].
    unfold someOptional. destruct (fields (constraints d)) as [fs|]; cbn [viaOptional].
    + rewrite someLoop_fields. cbn [Js.bind]. rewrite descriptor_id. cbn [text Js.bind].
      destruct (existsb isOptional fs); reflexivity.
    + cbn [Js.bind negb]. cbv iota. rewrite descriptor_id. reflexivity.
Qed.

Lemma loopRaw_typed s cs ds : forall errs matched,
  loopRaw engine (submissionValue s) (Js.Arr cs) (map descriptorValue ds)
    (errs, map Js.Str matched) =
  Js.Normal (fst (fold_left (descriptorStep s cs) ds (errs, matched)),
             map Js.Str (snd (fold_left (descriptorStep s cs) ds (errs, matched)))).
Proof.
  induction ds as [|d ds IH]; intros errs matched; [reflexivity|].
  cbn [map loopRaw fold_left]. rewrite stepRaw_typed. cbn [Js.bind].
  destruct (descriptorStep s cs (errs, matched) d) as [errs' matched']. apply IH.
Qed.

Lemma requiredLoop_typed ds :
  requiredLoop (map descriptorValue ds) =
    Js.Normal (map descriptorValue (List.filter (fun d => negb (everyOptional d)) ds)).
Proof.
  induction ds as [|d ds IH]; [reflexivity|].
  cbn [map requiredLoop List.filter]. rewrite descriptor_fields. cbn [Js.bind].
  unfold everyOptional at 1.
  destruct (fields (constraints d)) as [fs|] eqn:Hf; cbn [viaOptional].
  - rewrite everyLoop_fields. cbn [Js.bind]. rewrite IH. cbn [Js.bind].
    destruct (forallb isOptional fs); reflexivity.
  - cbn [Js.bind]. rewrite IH. reflexivity.
Qed.

Lemma includes_typed matched d :
  existsb (fun x => strictEq x (Js.getOpt (descriptorValue d) "id")) (map Js.Str matched)
    = includes matched (id d).
Proof.
  rewrite descriptor_id. unfold includes.
  induction matched as [|x xs IH]; [reflexivity|].
  cbn [map existsb strictEq]. rewrite IH. f_equal. apply String.eqb_sym.
Qed.

Lemma allRequired_typed matched ds :
  forallb (fun d => existsb (fun x => strictEq x (Js.getOpt d "id")) (map Js.Str matched))
          (map descriptorValue ds)
    = forallb (fun d => includes matched (id d)) ds.
Proof.
  induction ds as [|d ds IH]; [reflexivity|].
  cbn [map forallb]. now rewrite includes_typed, IH.
Qed.

Lemma presentation_submission_typed vp :
  Js.get (presentationValue vp) "presentation_submission" =
    Js.Normal match presentation_submission vp with
              | Some s => submissionValue s
              | None => Js.Undefined
              end.
Proof.
  unfold presentationValue.
  destruct (presentation_submission vp), (verifiable_credential vp),
    (verifiableCredential vp), (holder vp), (proof vp); reflexivity.
Qed.

Lemma credentialsOfRaw_typed vp :
  credentialsOfRaw (presentationValue vp) = Js.Arr (credentialsOf vp).
Proof.
  unfold credentialsOfRaw, credentialsOf, presentationValue.
  destruct (presentation_submission vp), (verifiable_credential vp),
    (verifiableCredential vp), (holder vp), (proof vp); reflexivity.
Qed.

Lemma definition_id_typed pd : Js.get (definitionValue pd) "id" = Js.Normal (Js.Str (pdId pd)).
Proof. reflexivity. Qed.

Lemma definition_descriptors_typed pd :
  Js.getOpt (definitionValue pd) "input_descriptors"
    = Js.Arr (map descriptorValue (input_descriptors pd)).
Proof. reflexivity. Qed.

(** X27.  On the JSON of a presentation and a definition of the
    declared types, [evaluatePresentationSubmission] as it runs on
    values never throws and returns the JSON of what the typed
    function returns: the same verdict, the same errors in the same
    order, the same matched identifiers. *)
Theorem rawEvaluate_refines vp pd :
  rawEvaluate engine (presentationValue vp) (definitionValue pd) =
    Js.Normal (evaluationValue (evaluatePresentationSubmission vp pd)).
Proof.
  unfold rawEvaluate, evaluatePresentationSubmission.
  rewrite presentation_submission_typed. cbn [Js.bind].
  destruct (presentation_submission vp) as [s|]; [|reflexivity].
  change (Js.truthy (submissionValue s)) with true. cbn [negb]. cbv iota zeta.
  rewrite definition_id_typed. cbn [Js.bind].
  change (Js.getOpt (submissionValue s) "definition_id") with (Js.Str (definition_id s)).
  cbn [strictEq text Js.bind].
  destruct (String.eqb (definition_id s) (pdId pd)); cbn [negb]; cbv iota; [|reflexivity].
  rewrite credentialsOfRaw_typed, definition_descriptors_typed. cbn [iterate Js.bind].
  pose proof (loopRaw_typed s (credentialsOf vp) (input_descriptors pd) [] []) as Hloop.
  change (map Js.Str []) with (@nil Js.Value) in Hloop. rewrite Hloop.
  cbn [Js.bind requiredOf]. rewrite requiredLoop_typed. cbn [Js.bind fst snd].
  destruct (fold_left (descriptorStep s (credentialsOf vp)) (input_descriptors pd) ([], []))
    as [errs matched].
  cbn [fst snd]. rewrite allRequired_typed.
  destruct (if forallb _ _ then errs else errs ++ [msgNotAll]); reflexivity.
Qed.

End WithEngine.
End RawMatcherFacts.

Module DirectPostFacts.
Import SessionService.
Import DirectPost.

Section WithHost.
Context (engine : Engine) (host : Host).

(** A lookup that answers with a pending session found it stored as
    pending and not past its expiry, and changed nothing. *)
Lemma lookup_pending selectF updateF now st (t : Table) session :
  fst (getVPSessionByState engine selectF updateF now st t) = Some session ->
  sStatus session = pending ->
  snd (getVPSessionByState engine selectF updateF now st t) = t /\
  ~ sExpiresAt session < now /\
  exists row rest,
    List.filter (fun r => String.eqb (state r) st) t = row :: rest /\
    mapRowToSession engine row = Js.Normal session.
Proof.
  unfold getVPSessionByState. destruct selectF; [discriminate|].
  destruct (List.filter (fun r => String.eqb (state r) st) t) as [|row rest] eqn:Hsel;
    [discriminate|].
  destruct (mapRowToSession engine row) as [found|e] eqn:Hmap; [|discriminate].
  destruct (statusEqb (sStatus found) pending && (sExpiresAt found <? now)) eqn:Hc.
  - destruct (updateSessionStatus updateF (sId found) expired t). cbn [fst snd].
    intros [= <-]. discriminate.
  - cbn [fst snd]. intros [= <-] Hp. split; [reflexivity|]. split; [|eauto].
    rewrite Hp in Hc. cbn [statusEqb andb] in Hc. apply Z.ltb_ge in Hc. lia.
Qed.

(** A lookup of a state whose first row is no longer pending changes
    nothing and answers with no pending session. *)
Lemma lookup_terminal selectF updateF now st (t : Table) row rest :
  List.filter (fun r => String.eqb (state r) st) t = row :: rest ->
  status row <> pending ->
  snd (getVPSessionByState engine selectF updateF now st t) = t /\
  forall session,
    fst (getVPSessionByState engine selectF updateF now st t) = Some session ->
    statusEqb (sStatus session) pending = false.
Proof.
  intros Hsel Hst. unfold getVPSessionByState. destruct selectF; [split; [reflexivity|discriminate]|].
  rewrite Hsel.
  destruct (mapRowToSession engine row) as [found|e] eqn:Hmap;
    [|split; [reflexivity | discriminate]].
  destruct (SessionServiceFacts.mapRowToSession_fields engine row found Hmap)
    as (_ & _ & Hs & _).
  assert (Hnp : statusEqb (sStatus found) pending = false).
  { rewrite Hs. destruct (status row); try reflexivity. now destruct Hst. }
  rewrite Hnp. cbn [andb fst snd]. split; [reflexivity|]. now intros session [= <-].
Qed.

(** The answers of the route to a request for a state whose first row
    is no longer pending. *)
Lemma directPost_terminal run body (t : Table) row rest :
  List.filter (fun r => String.eqb (state r) (parameter host (Js.getOpt body "state"))) t
    = row :: rest ->
  status row <> pending ->
  statusCode (fst (directPost engine host run body t)) <> 200 /\
  snd (directPost engine host run body t) = t.
Proof.
  intros Hsel Hst. unfold directPost.
  destruct (Js.get body "vp_token") as [vp_token|e]; [|split; [discriminate | reflexivity]].
  destruct (negb (Js.truthy vp_token)); [split; [discriminate | reflexivity]|].
  destruct (negb (Js.truthy (Js.getOpt body "state"))); [split; [discriminate | reflexivity]|].
  cbv zeta.
  destruct (lookup_terminal (selectFault run) (expireFault run) (readNow run) _ t row rest
              Hsel Hst) as [Ht Hs].
  rewrite Ht.
  destruct (fst (getVPSessionByState engine (selectFault run) (expireFault run) (readNow run)
                   (parameter host (Js.getOpt body "state")) t)) as [session|];
    [|split; [discriminate | reflexivity]].
  rewrite (Hs session eq_refl). cbn [negb]. split; [discriminate | reflexivity].
Qed.

Lemma filter_map_state (f : DBRow -> DBRow) st (t : Table) :
  (forall r, state (f r) = state r) ->
  List.filter (fun r => String.eqb (state r) st) (map f t) =
  map f (List.filter (fun r => String.eqb (state r) st) t).
Proof.
  intros Hf. induction t as [|r t IH]; [reflexivity|].
  cbn [map List.filter]. rewrite Hf. destruct (String.eqb (state r) st); cbn [map];
    now rewrite IH.
Qed.

Lemma schemaValid_accepts v :
  PresentationDefinition.validatePresentationSubmission v = Js.Normal
    {| PresentationDefinition.schemaValid := true;
       PresentationDefinition.schemaErrors := None |} <->
  exists r, PresentationDefinition.validatePresentationSubmission v = Js.Normal r /\
            PresentationDefinition.schemaValid r = true.
Proof.
  split; [intros H; eexists; split; [exact H | reflexivity]|].
  intros (r & Hr & Hv).
  pose proof (MatcherFacts.validatePresentationSubmission_shape v r Hr) as Hs.
  rewrite Hr. destruct r as [valid errs]. simpl in *. subst.
  destruct Hs as [[_ ->]|[H _]]; [reflexivity | discriminate H].
Qed.

Lemma present_presented run session vp_token submission state (t : Table) :
  Presented engine host run session vp_token t
    (present engine host run session vp_token submission state t).
Proof.
  unfold present, reject.
  destruct (payloadOf (decodeJWT host vp_token)) as [payload|] eqn:Hpayload;
    [|apply Rejected].
  destruct (parseSubmission engine submission) as [parsed|]; [|apply Rejected].
  cbv zeta.
  set (vpPayload := if Js.truthy (Js.getOpt payload "vp")
                    then Js.getOpt payload "vp" else payload).
  set (data := if negb (Js.truthy parsed)
                  && Js.truthy (Js.getOpt vpPayload "presentation_submission")
               then Js.getOpt vpPayload "presentation_submission" else parsed).
  destruct (Js.truthy data) eqn:Hdata; cbn [negb]; [|apply Rejected].
  destruct (PresentationDefinition.validatePresentationSubmission data)
    as [validation|e] eqn:Hval; [|apply Thrown].
  destruct (PresentationDefinition.schemaValid validation) eqn:Hvalid; cbn [negb];
    [|apply Rejected].
  destruct (RawMatcher.rawEvaluate engine vpPayload (sPresentationDefinition session))
    as [evaluation|e] eqn:Heval; [|apply Thrown].
  destruct (RawMatcher.rawValid evaluation) eqn:Hev; cbn [negb]; [|apply Rejected].
  destruct (fst (completeVPSession engine (completeFault run) (dbNow run) (sId session)
                   (parameter host vp_token) data t)) eqn:Hdone; cbn [negb].
  - destruct (successBody engine session state) as [body|e];
      [|now apply (ThrownLate engine host run session vp_token t data)].
    apply (Completed engine host run session vp_token t data payload evaluation);
      try assumption.
    apply (proj2 (schemaValid_accepts data)). eauto.
  - rewrite (SessionServiceFacts.complete_false_unchanged engine _ _ _ _ _ _ Hdone).
    now apply (NotCompleted engine host run session vp_token t data).
Qed.

Lemma get_defined v key :
  match Js.get v key with
  | Js.Normal x => x = Js.getOpt v key
  | Js.Throw _ => True
  end.
Proof. destruct v; exact I || reflexivity. Qed.

(** The handler, once the two parameters are there and the session is
    found pending. *)
Lemma directPost_pending run body (t : Table) session :
  Js.truthy (Js.getOpt body "vp_token") = true ->
  Js.truthy (Js.getOpt body "state") = true ->
  fst (getVPSessionByState engine (selectFault run) (expireFault run) (readNow run)
         (parameter host (Js.getOpt body "state")) t) = Some session ->
  sStatus session = pending ->
  directPost engine host run body t =
    present engine host run session (Js.getOpt body "vp_token")
      (Js.getOpt body "presentation_submission") (Js.getOpt body "state") t.
Proof.
  intros Htoken Hstate Hfound Hpending. unfold directPost.
  assert (Hget : Js.get body "vp_token" = Js.Normal (Js.getOpt body "vp_token")).
  { destruct body; try reflexivity; discriminate Htoken. }
  rewrite Hget, Htoken, Hstate. cbn [negb]. cbv zeta.
  destruct (lookup_pending _ _ _ _ _ _ Hfound Hpending) as (Ht & _).
  rewrite Hfound, Ht, Hpending. reflexivity.
Qed.

(** X28.  What a success of the direct-post route means.  Whenever
    the route answers 200, the state of the request named a session
    that was stored as pending and not past its expiry, the token
    decoded, the submission passed [validatePresentationSubmission],
    the matcher judged the presentation valid against the definition
    of the session, and the completing statement ran: the table is the
    one [completeVPSession] leaves, in which a row of the session is
    completed with the token and the time of completion, and no row of
    the session is pending any more. *)
Theorem directPost_success run body (t : Table) :
  statusCode (fst (directPost engine host run body t)) = 200 ->
  exists session submission payload evaluation,
    fst (getVPSessionByState engine (selectFault run) (expireFault run) (readNow run)
           (parameter host (Js.getOpt body "state")) t) = Some session /\
    sStatus session = pending /\
    ~ sExpiresAt session < readNow run /\
    payloadOf (decodeJWT host (Js.getOpt body "vp_token")) = Some payload /\
    PresentationDefinition.validatePresentationSubmission submission =
      Js.Normal {| PresentationDefinition.schemaValid := true;
                   PresentationDefinition.schemaErrors := None |} /\
    RawMatcher.rawEvaluate engine
      (if Js.truthy (Js.getOpt payload "vp") then Js.getOpt payload "vp" else payload)
      (sPresentationDefinition session) = Js.Normal evaluation /\
    RawMatcher.rawValid evaluation = true /\
    completeFault run = None /\
    snd (directPost engine host run body t) =
      snd (completeVPSession engine None (dbNow run) (sId session)
             (parameter host (Js.getOpt body "vp_token")) submission t) /\
    (exists r, In r (snd (directPost engine host run body t)) /\
               id r = sId session /\ status r = completed /\
               vp_token r = Some (parameter host (Js.getOpt body "vp_token")) /\
               completed_at r = Some (dbNow run)) /\
    (forall r, In r (snd (directPost engine host run body t)) ->
               id r = sId session -> status r <> pending).
Proof.
  intros H200.
  assert (Hparams : Js.truthy (Js.getOpt body "vp_token") = true /\
                    Js.truthy (Js.getOpt body "state") = true /\
                    exists session,
                      fst (getVPSessionByState engine (selectFault run) (expireFault run)
                             (readNow run) (parameter host (Js.getOpt body "state")) t)
                        = Some session /\
                      sStatus session = pending).
  { unfold directPost in H200. pose proof (get_defined body "vp_token") as Hget.
    destruct (Js.get body "vp_token") as [token|e]; [subst token | discriminate H200].
    destruct (Js.truthy (Js.getOpt body "vp_token")); [|discriminate H200].
    destruct (Js.truthy (Js.getOpt body "state")); [|discriminate H200].
    cbn [negb] in H200. cbv zeta in H200.
    destruct (fst (getVPSessionByState engine (selectFault run) (expireFault run)
                     (readNow run) (parameter host (Js.getOpt body "state")) t))
      as [session|]; [|discriminate H200].
    destruct (sStatus session) eqn:Hs; try discriminate H200. eauto. }
  destruct Hparams as (Htoken & Hstate & session & Hfound & Hpending).
  rewrite (directPost_pending run body t session Htoken Hstate Hfound Hpending) in *.
  destruct (lookup_pending _ _ _ _ _ _ Hfound Hpending) as (_ & Hfresh & _).
  pose proof (present_presented run session (Js.getOpt body "vp_token")
                (Js.getOpt body "presentation_submission") (Js.getOpt body "state") t)
    as Hp.
  inversion Hp as [err description Heq | Heq | submission Hlate Heq | submission Hno Heq
                  | submission payload evaluation answer Hpay Htruthy Hval Heval Hvalid Hdone Heq];
    rewrite <- Heq in H200; try discriminate H200.
  pose proof (proj1 (SessionServiceFacts.complete_true_iff engine _ _ _ _ _ _) Hdone)
    as [Hfault (r & Hr & Hid & Hst)].
  exists session, submission, payload, evaluation.
  rewrite Hfault in *. cbn [snd].
  repeat (split; [assumption || reflexivity|]).
  split.
  - exists (completeRow engine (parameter host (Js.getOpt body "vp_token")) submission
              (dbNow run) r).
    split; [|repeat split; assumption].
    unfold completeVPSession. cbv zeta.
    destruct (length (List.filter (pendingWithId (sId session)) t) =? 0)%nat; cbn [snd];
      (apply in_map_iff; exists r; split; [|assumption]);
      rewrite (proj2 (SessionServiceFacts.pendingWithId_spec (sId session) r)
                 (conj Hid Hst));
      reflexivity.
  - intros r'. apply SessionServiceFacts.complete_leaves_none_pending.
Qed.

(** The table after a rejection or a completion, seen from the rows
    of the requested state. *)
Lemma first_row_settled (f : DBRow -> DBRow) st (t : Table) row rest :
  (forall r, state (f r) = state r) ->
  List.filter (fun r => String.eqb (state r) st) t = row :: rest ->
  status (f row) <> pending ->
  exists rest',
    List.filter (fun r => String.eqb (state r) st) (map f t) = f row :: rest' /\
    status (f row) <> pending.
Proof.
  intros Hf Hsel Hst. rewrite (filter_map_state f st t Hf), Hsel. cbn [map]. eauto.
Qed.

(** X29.  A state is good for one answer.  Once a request that named
    a pending session has been answered 200, or 400 with the failing
    statement executed, every later request with the same state,
    whatever else it carries and whichever statements of the database
    then fail, is answered with another code than 200 and leaves the
    table as it is: the session cannot be completed a second time, and
    a presentation that was rejected cannot be retried. *)
Theorem directPost_one_shot run body (t : Table) session run' body' :
  Js.truthy (Js.getOpt body "vp_token") = true ->
  Js.truthy (Js.getOpt body "state") = true ->
  fst (getVPSessionByState engine (selectFault run) (expireFault run) (readNow run)
         (parameter host (Js.getOpt body "state")) t) = Some session ->
  sStatus session = pending ->
  statusCode (fst (directPost engine host run body t)) = 200 \/
  (statusCode (fst (directPost engine host run body t)) = 400 /\ failFault run = None) ->
  parameter host (Js.getOpt body' "state") = parameter host (Js.getOpt body "state") ->
  statusCode (fst (directPost engine host run' body'
                     (snd (directPost engine host run body t)))) <> 200 /\
  snd (directPost engine host run' body' (snd (directPost engine host run body t)))
    = snd (directPost engine host run body t).
Proof.
  intros Htoken Hstate Hfound Hpending Hanswer Hsame.
  destruct (lookup_pending _ _ _ _ _ _ Hfound Hpending) as (_ & _ & row & rest & Hsel & Hmap).
  destruct (SessionServiceFacts.mapRowToSession_fields engine row session Hmap)
    as (Hid & _ & Hst & _).
  rewrite Hpending in Hst.
  rewrite (directPost_pending run body t session Htoken Hstate Hfound Hpending) in *.
  pose proof (present_presented run session (Js.getOpt body "vp_token")
                (Js.getOpt body "presentation_submission") (Js.getOpt body "state") t)
    as Hp.
  remember (present engine host run session (Js.getOpt body "vp_token")
              (Js.getOpt body "presentation_submission") (Js.getOpt body "state") t)
    as result eqn:Hresult.
  clear Hresult.
  assert (Hsettled : exists (f : DBRow -> DBRow),
            snd result = map f t /\
            (forall r, state (f r) = state r) /\ status (f row) <> pending).
  { destruct Hp as [err description | | submission Hlate | submission Hno
                   | submission payload evaluation answer Hpay Htruthy Hval Heval Hvalid
                       Hdone];
      cbn [fst snd statusCode errorResponse serverError] in Hanswer |- *.
    - destruct Hanswer as [H|[_ Hfail]]; [discriminate H|]. rewrite Hfail.
      exists (fun r => if String.eqb (id r) (sId session) then setStatus failed r else r).
      split; [reflexivity|]. split.
      + intros r. destruct (String.eqb (id r) (sId session)); reflexivity.
      + rewrite Hid, String.eqb_refl. discriminate.
    - destruct Hanswer as [H|[H _]]; discriminate H.
    - destruct Hanswer as [H|[H _]]; discriminate H.
    - destruct Hanswer as [H|[H _]]; discriminate H.
    - pose proof (proj1 (SessionServiceFacts.complete_true_iff engine _ _ _ _ _ _) Hdone)
        as [Hfault _].
      rewrite Hfault.
      exists (fun r => if pendingWithId (sId session) r
                       then completeRow engine (parameter host (Js.getOpt body "vp_token"))
                              submission (dbNow run) r
                       else r).
      split.
      + unfold completeVPSession. cbv zeta.
        destruct (length (List.filter (pendingWithId (sId session)) t) =? 0)%nat;
          reflexivity.
      + split.
        * intros r. destruct (pendingWithId (sId session) r); reflexivity.
        * rewrite (proj2 (SessionServiceFacts.pendingWithId_spec (sId session) row)
                     (conj (eq_sym Hid) (eq_sym Hst))).
          discriminate. }
  destruct Hsettled as (f & -> & Hstate' & Hdone).
  destruct (first_row_settled f _ t row rest Hstate' Hsel Hdone) as (rest' & Hsel' & _).
  rewrite <- Hsame in Hsel'.
  exact (directPost_terminal run' body' (map f t) (f row) rest' Hsel' Hdone).
Qed.

(** X30.  An exception is not a rejection.  When the submission of a
    request that names a pending session is an object whose
    [descriptor_map] makes [validatePresentationSubmission] throw (a
    truthy value that is not an array, or an array holding [undefined]
    or [null]), the route answers 500 [server_error] and writes
    nothing: the session is not marked failed, and the table is the
    one the request found. *)
Theorem directPost_exception_keeps_pending run body (t : Table) session payload props :
  Js.truthy (Js.getOpt body "vp_token") = true ->
  Js.truthy (Js.getOpt body "state") = true ->
  fst (getVPSessionByState engine (selectFault run) (expireFault run) (readNow run)
         (parameter host (Js.getOpt body "state")) t) = Some session ->
  sStatus session = pending ->
  payloadOf (decodeJWT host (Js.getOpt body "vp_token")) = Some payload ->
  parseSubmission engine (Js.getOpt body "presentation_submission") = Some (Js.Obj props) ->
  PresentationDefinition.breaksForEach (Js.assoc "descriptor_map" props) = true ->
  directPost engine host run body t = (serverError, t).
Proof.
  intros Htoken Hstate Hfound Hpending Hpayload Hparsed Hbreaks.
  rewrite (directPost_pending run body t session Htoken Hstate Hfound Hpending).
  unfold present. rewrite Hpayload, Hparsed. cbv zeta. cbn [Js.truthy negb andb].
  destruct (MatcherFacts.validatePresentationSubmission_throws props Hbreaks) as (thrown & ->).
  reflexivity.
Qed.

End WithHost.

Lemma directPost_success_witness :
  exists r,
    In r (snd (directPost SessionExamples.engine DirectPostExamples.host
                 DirectPostExamples.run DirectPostExamples.request
                 DirectPostExamples.table)) /\
    status r = completed /\ completed_at r = Some 7001.
Proof.
  destruct (directPost_success SessionExamples.engine DirectPostExamples.host
              DirectPostExamples.run DirectPostExamples.request DirectPostExamples.table
              eq_refl)
    as (session & submission & payload & evaluation & _ & _ & _ & _ & _ & _ & _ & _ & _
        & (r & Hin & _ & Hstatus & _ & Hat) & _).
  exists r. repeat split; assumption.
Defined.

Lemma directPost_one_shot_witness :
  statusCode
    (fst (directPost SessionExamples.engine DirectPostExamples.host DirectPostExamples.run
            DirectPostExamples.mismatchedRequest
            (snd (directPost SessionExamples.engine DirectPostExamples.host
                    DirectPostExamples.run DirectPostExamples.request
                    DirectPostExamples.table)))) <> 200 /\
  snd (directPost SessionExamples.engine DirectPostExamples.host DirectPostExamples.run
         DirectPostExamples.mismatchedRequest
         (snd (directPost SessionExamples.engine DirectPostExamples.host
                 DirectPostExamples.run DirectPostExamples.request
                 DirectPostExamples.table)))
    = snd (directPost SessionExamples.engine DirectPostExamples.host DirectPostExamples.run
             DirectPostExamples.request DirectPostExamples.table).
Proof.
  eapply (directPost_one_shot SessionExamples.engine DirectPostExamples.host
            DirectPostExamples.run DirectPostExamples.request DirectPostExamples.table).
  - reflexivity.
  - reflexivity.
  - vm_compute. reflexivity.
  - reflexivity.
  - left. reflexivity.
  - reflexivity.
Defined.

Lemma directPost_exception_keeps_pending_witness :
  directPost SessionExamples.engine DirectPostExamples.host DirectPostExamples.run
    DirectPostExamples.brokenRequest DirectPostExamples.table
  = (serverError, DirectPostExamples.table).
Proof.
  eapply (directPost_exception_keeps_pending SessionExamples.engine DirectPostExamples.host
            DirectPostExamples.run DirectPostExamples.brokenRequest
            DirectPostExamples.table).
  - reflexivity.
  - reflexivity.
  - vm_compute. reflexivity.
  - reflexivity.
  - vm_compute. reflexivity.
  - reflexivity.
  - reflexivity.
Defined.

End DirectPostFacts.
